(** * TransformState: interned transforms and their inline accessors

    A shallow embedding of the inline part of Panda3D's [TransformState]
    (the file [transformState.I], carried in
    src/pandatool/src/gtk-stats/gtkStatsStripChart.cxx after the strip chart
    code) together with the properties the specification states about it.

    The development has four parts: the inline methods, with the
    out-of-line code they call as parameters; the registry and the
    composition cache, which are not under src and follow the specification;
    the whole run on exact rational arithmetic; and the strip chart of
    gtk-stats, the code the same source file opens with.

    Conventions of the embedding
    - [PN_stdfloat] is a type parameter; the numeric library (linmath) is
      consumed through the operations the code calls.
    - A [const TransformState *] is an address; a nullable pointer is an
      [option].  The static members of the class form the record [Globals];
      a [World] is the static members together with the objects that exist
      and the registry.
    - A method is a function of the static members, of [this] and of the
      fields of the object; a method that may fill in cached fields (the
      [check_*] methods do so behind a const interface) returns its result
      together with the fields as it leaves them.
    - [nassertr (cond, value)] reports an assertion failure and returns
      [value] when [cond] is false (a build without NDEBUG).
    - The locks are not modelled beyond the presence of the registry lock:
      every method runs alone. *)

From Stdlib Require Import ZArith QArith Qabs Bool List Lia.
From stdpp Require Import base option strings gmap.

Local Open Scope Z_scope.

(** ** Numeric library types (linmath) *)

Record LVecBase2 (F : Type) : Type := mkLVecBase2 { v2_x : F; v2_y : F }.
Record LVecBase3 (F : Type) : Type := mkLVecBase3 { v3_x : F; v3_y : F; v3_z : F }.
Record LVecBase4 (F : Type) : Type :=
  mkLVecBase4 { v4_x : F; v4_y : F; v4_z : F; v4_w : F }.
Record LQuaternion (F : Type) : Type :=
  mkLQuaternion { q_r : F; q_i : F; q_j : F; q_k : F }.
Record LMatrix3 (F : Type) : Type :=
  mkLMatrix3 { m3_row0 : LVecBase3 F; m3_row1 : LVecBase3 F; m3_row2 : LVecBase3 F }.
Record LMatrix4 (F : Type) : Type :=
  mkLMatrix4 { m4_row0 : LVecBase4 F; m4_row1 : LVecBase4 F;
               m4_row2 : LVecBase4 F; m4_row3 : LVecBase4 F }.

Arguments mkLVecBase2 {F}.
Arguments v2_x {F}.
Arguments v2_y {F}.
Arguments mkLVecBase3 {F}.
Arguments v3_x {F}.
Arguments v3_y {F}.
Arguments v3_z {F}.
Arguments mkLVecBase4 {F}.
Arguments v4_x {F}.
Arguments v4_y {F}.
Arguments v4_z {F}.
Arguments v4_w {F}.
Arguments mkLQuaternion {F}.
Arguments q_r {F}.
Arguments q_i {F}.
Arguments q_j {F}.
Arguments q_k {F}.
Arguments mkLMatrix3 {F}.
Arguments m3_row0 {F}.
Arguments m3_row1 {F}.
Arguments m3_row2 {F}.
Arguments mkLMatrix4 {F}.
Arguments m4_row0 {F}.
Arguments m4_row1 {F}.
Arguments m4_row2 {F}.
Arguments m4_row3 {F}.

(** [v[i]] on a 3-vector; the code only uses the indices 0, 1 and 2. *)
Definition vec3_get {F} (v : LVecBase3 F) (i : Z) : F :=
  if i =? 0 then v3_x v else if i =? 1 then v3_y v else v3_z v.

(** [v[i] = a] on a 3-vector. *)
Definition vec3_set {F} (v : LVecBase3 F) (i : Z) (a : F) : LVecBase3 F :=
  if i =? 0 then mkLVecBase3 a (v3_y v) (v3_z v)
  else if i =? 1 then mkLVecBase3 (v3_x v) a (v3_z v)
  else mkLVecBase3 (v3_x v) (v3_y v) a.

Definition vec4_get {F} (v : LVecBase4 F) (i : Z) : F :=
  if i =? 0 then v4_x v else if i =? 1 then v4_y v
  else if i =? 2 then v4_z v else v4_w v.

(** [m(i, j)] on a 4x4 matrix. *)
Definition mat4_get {F} (m : LMatrix4 F) (i j : Z) : F :=
  vec4_get (if i =? 0 then m4_row0 m else if i =? 1 then m4_row1 m
            else if i =? 2 then m4_row2 m else m4_row3 m) j.

Inductive CoordinateSystem : Type :=
  | CS_default | CS_zup_right | CS_yup_right | CS_zup_left | CS_yup_left | CS_invalid.

(** ** Pointers, static members, the flag word *)

Definition addr : Type := positive.

(** The recursive lock guarding the registry; it carries no data here. *)
Inductive LightReMutex : Type := TheStatesLock.

(** The static members the inline code reads: [_states_lock],
    [_identity_state], [_invalid_state] and the configuration variable
    [_uniquify_matrix]. *)
Record Globals : Type := mkGlobals {
  _states_lock : option LightReMutex;
  _identity_state : option addr;
  _invalid_state : option addr;
  _uniquify_matrix : bool
}.

(** Modelled from the spec: the bits of [enum Flags], declared in
    transformState.h, which is not under src, for the flags the inline code
    names.  Each flag is one bit of the flag word and no two flags share a
    bit; nothing below depends on which bit a flag is. *)
Definition F_is_singular : Z := 0x00000002.
Definition F_singular_known : Z := 0x00000004.
Definition F_components_given : Z := 0x00000008.
Definition F_components_known : Z := 0x00000010.
Definition F_has_components : Z := 0x00000020.
Definition F_mat_known : Z := 0x00000040.
Definition F_quat_given : Z := 0x00000100.
Definition F_quat_known : Z := 0x00000200.
Definition F_hpr_given : Z := 0x00000400.
Definition F_hpr_known : Z := 0x00000800.
Definition F_uniform_scale : Z := 0x00001000.
Definition F_identity_scale : Z := 0x00002000.
Definition F_has_nonzero_shear : Z := 0x00004000.
Definition F_is_destructing : Z := 0x00008000.
Definition F_is_2d : Z := 0x00010000.
Definition F_norm_quat_known : Z := 0x00020000.

(** [(flags & mask) != 0] *)
Definition flag_set (flags mask : Z) : bool := negb (Z.land flags mask =? 0).

(** ** The composition caches *)

(** [TransformState::Composition]: the cached result, null when the entry
    holds none. *)
Record Composition : Type := mkComposition { _result : option addr }.

(** Modelled from the spec: [SimpleHashMap], the container of both caches,
    is not under src.  It is kept as the sequence of its entries, keyed by
    the other operand; [get_num_entries] counts them and [get_key] and
    [get_data] read the nth one. *)
Definition CompositionCache : Type := list (addr * Composition).

Definition get_num_entries (c : CompositionCache) : Z := Z.of_nat (length c).

Definition get_key (c : CompositionCache) (n : Z) : option addr :=
  if n <? 0 then None else fst <$> nth_error c (Z.to_nat n).

Definition get_data (c : CompositionCache) (n : Z) : option Composition :=
  if n <? 0 then None else snd <$> nth_error c (Z.to_nat n).

(** ** The object *)

Record TransformState (F : Type) : Type := mkTransformState {
  _flags : Z;
  _hash : Z;
  _pos : LVecBase3 F;
  _hpr : LVecBase3 F;
  _quat : LQuaternion F;
  _norm_quat : LQuaternion F;
  _scale : LVecBase3 F;
  _shear : LVecBase3 F;
  _mat : LMatrix4 F;
  _inv_mat : option (LMatrix4 F);
  _composition_cache : CompositionCache;
  _invert_composition_cache : CompositionCache
}.

Arguments mkTransformState {F}.
Arguments _flags {F}.
Arguments _hash {F}.
Arguments _pos {F}.
Arguments _hpr {F}.
Arguments _quat {F}.
Arguments _norm_quat {F}.
Arguments _scale {F}.
Arguments _shear {F}.
Arguments _mat {F}.
Arguments _inv_mat {F}.
Arguments _composition_cache {F}.
Arguments _invert_composition_cache {F}.

Definition with_flags {F} (t : TransformState F) (f : Z) : TransformState F :=
  mkTransformState f (_hash t) (_pos t) (_hpr t) (_quat t) (_norm_quat t)
    (_scale t) (_shear t) (_mat t) (_inv_mat t)
    (_composition_cache t) (_invert_composition_cache t).

Definition with_scale {F} (t : TransformState F) (s : LVecBase3 F) : TransformState F :=
  mkTransformState (_flags t) (_hash t) (_pos t) (_hpr t) (_quat t) (_norm_quat t)
    s (_shear t) (_mat t) (_inv_mat t)
    (_composition_cache t) (_invert_composition_cache t).

Definition with_mat {F} (t : TransformState F) (m : LMatrix4 F) : TransformState F :=
  mkTransformState (_flags t) (_hash t) (_pos t) (_hpr t) (_quat t) (_norm_quat t)
    (_scale t) (_shear t) m (_inv_mat t)
    (_composition_cache t) (_invert_composition_cache t).

Definition with_composition_cache {F} (t : TransformState F) (c : CompositionCache)
  : TransformState F :=
  mkTransformState (_flags t) (_hash t) (_pos t) (_hpr t) (_quat t) (_norm_quat t)
    (_scale t) (_shear t) (_mat t) (_inv_mat t) c (_invert_composition_cache t).

Definition with_invert_composition_cache {F} (t : TransformState F) (c : CompositionCache)
  : TransformState F :=
  mkTransformState (_flags t) (_hash t) (_pos t) (_hpr t) (_quat t) (_norm_quat t)
    (_scale t) (_shear t) (_mat t) (_inv_mat t) (_composition_cache t) c.

(** [_flags |= mask] *)
Definition or_flags {F} (t : TransformState F) (mask : Z) : TransformState F :=
  with_flags t (Z.lor (_flags t) mask).

(** The program state a static function works on: the static members, the
    objects by address, and the registry [_states] of interned objects. *)
Record World (F : Type) : Type := mkWorld {
  statics : Globals;
  heap : gmap addr (TransformState F);
  _states : list addr
}.

Arguments mkWorld {F}.
Arguments statics {F}.
Arguments heap {F}.
Arguments _states {F}.

Definition with_heap {F} (w : World F) (h : gmap addr (TransformState F)) : World F :=
  mkWorld (statics w) h (_states w).

(** The result a cache holds for the operand [key], if any. *)
Definition cache_find (c : CompositionCache) (key : addr) : option Composition :=
  snd <$> find (fun e => bool_decide (fst e = key)) c.

(** ** Assertions and methods *)

(** The outcome of a method that guards its result with [nassertr]. *)
Inductive Asserted (A : Type) : Type :=
  | Returned (a : A)
  | AssertionFailed (a : A).
Arguments Returned {A}.
Arguments AssertionFailed {A}.

Definition value_of {A} (r : Asserted A) : A :=
  match r with Returned a => a | AssertionFailed a => a end.

Definition assertion_failed {A} (r : Asserted A) : bool :=
  match r with Returned _ => false | AssertionFailed _ => true end.

(** [nassertr(cond, fallback); return value;] *)
Definition nassertr {A} (cond : bool) (fallback value : A) : Asserted A :=
  if cond then Returned value else AssertionFailed fallback.

(** ** The inline methods of transformState.I *)

Section Inline.

(** [PN_stdfloat], the literals [0.0f] and [1.0f], unary minus, the macro
    [IS_NEARLY_EQUAL] and [LVecBase3::almost_equal] of the numeric
    library. *)
Context {PN_stdfloat : Type}.
Variables (f0 f1 : PN_stdfloat) (fneg : PN_stdfloat -> PN_stdfloat).
Variable IS_NEARLY_EQUAL : PN_stdfloat -> PN_stdfloat -> bool.
Variable almost_equal : LVecBase3 PN_stdfloat -> LVecBase3 PN_stdfloat -> bool.
Variable get_default_coordinate_system : CoordinateSystem.

(** The sentinel of an uncomputed hash, declared in transformState.h. *)
Variable H_unknown : Z.

Local Abbreviation State := (TransformState PN_stdfloat).

Definition LVecBase3_zero : LVecBase3 PN_stdfloat := mkLVecBase3 f0 f0 f0.
Definition LVecBase2_zero : LVecBase2 PN_stdfloat := mkLVecBase2 f0 f0.
Definition LMatrix4_ident_mat : LMatrix4 PN_stdfloat :=
  mkLMatrix4 (mkLVecBase4 f1 f0 f0 f0) (mkLVecBase4 f0 f1 f0 f0)
             (mkLVecBase4 f0 f0 f1 f0) (mkLVecBase4 f0 f0 f0 f1).
Definition LMatrix3_ident_mat : LMatrix3 PN_stdfloat :=
  mkLMatrix3 (mkLVecBase3 f1 f0 f0) (mkLVecBase3 f0 f1 f0) (mkLVecBase3 f0 f0 f1).

(** *** The singletons *)

(** [init_states], defined in transformState.cxx: it creates the registry
    lock and the two singletons. *)
Variable init_states : World PN_stdfloat -> World PN_stdfloat.

Definition make_identity (w : World PN_stdfloat) : option addr * World PN_stdfloat :=
  let w1 := match _states_lock (statics w) with
            | None => init_states w
            | Some _ => w
            end in
  (_identity_state (statics w1), w1).

Definition make_invalid (w : World PN_stdfloat) : option addr * World PN_stdfloat :=
  let w1 := match _states_lock (statics w) with
            | None => init_states w
            | Some _ => w
            end in
  (_invalid_state (statics w1), w1).

(** A caller's sequence of requests for the singletons. *)
Inductive SingletonCall : Type := Call_make_identity | Call_make_invalid.

Definition singleton_call (c : SingletonCall) (w : World PN_stdfloat)
  : option addr * World PN_stdfloat :=
  match c with
  | Call_make_identity => make_identity w
  | Call_make_invalid => make_invalid w
  end.

Fixpoint singleton_calls (cs : list SingletonCall) (w : World PN_stdfloat)
  : list (SingletonCall * option addr) * World PN_stdfloat :=
  match cs with
  | [] => ([], w)
  | c :: cs' =>
      let (p, w1) := singleton_call c w in
      let (rest, w2) := singleton_calls cs' w1 in
      ((c, p) :: rest, w2)
  end.

(** The singleton a request names, among the static members [gl]. *)
Definition singleton_of (c : SingletonCall) (gl : Globals) : option addr :=
  match c with
  | Call_make_identity => _identity_state gl
  | Call_make_invalid => _invalid_state gl
  end.

(** *** Factories *)

(** A [CPT(TransformState)]: a counted pointer, null or the address of an
    object. *)
Local Abbreviation CPT := (option addr).
Local Abbreviation Vec3 := (LVecBase3 PN_stdfloat).
Local Abbreviation Vec2 := (LVecBase2 PN_stdfloat).

(** The out-of-line factories of transformState.cxx, [invert_compose] and
    [return_unique], which the inline ones call. *)
Variable make_pos_hpr_scale_shear :
  Vec3 -> Vec3 -> Vec3 -> Vec3 -> World PN_stdfloat -> CPT * World PN_stdfloat.
Variable make_pos_quat_scale_shear :
  Vec3 -> LQuaternion PN_stdfloat -> Vec3 -> Vec3 ->
  World PN_stdfloat -> CPT * World PN_stdfloat.
Variable make_pos_rotate_scale_shear2d :
  Vec2 -> PN_stdfloat -> Vec2 -> PN_stdfloat ->
  World PN_stdfloat -> CPT * World PN_stdfloat.
Variable invert_compose : addr -> CPT -> World PN_stdfloat -> CPT * World PN_stdfloat.
Variable return_unique : addr -> World PN_stdfloat -> CPT * World PN_stdfloat.

Definition make_pos_hpr_scale (pos hpr scale : Vec3) :=
  make_pos_hpr_scale_shear pos hpr scale LVecBase3_zero.

Definition make_pos_quat_scale (pos : Vec3) (quat : LQuaternion PN_stdfloat) (scale : Vec3) :=
  make_pos_quat_scale_shear pos quat scale LVecBase3_zero.

Definition make_pos (pos : Vec3) :=
  make_pos_hpr_scale pos (mkLVecBase3 f0 f0 f0) (mkLVecBase3 f1 f1 f1).

Definition make_hpr (hpr : Vec3) :=
  make_pos_hpr_scale (mkLVecBase3 f0 f0 f0) hpr (mkLVecBase3 f1 f1 f1).

Definition make_quat (quat : LQuaternion PN_stdfloat) :=
  make_pos_quat_scale (mkLVecBase3 f0 f0 f0) quat (mkLVecBase3 f1 f1 f1).

Definition make_pos_hpr (pos hpr : Vec3) :=
  make_pos_hpr_scale pos hpr (mkLVecBase3 f1 f1 f1).

Definition make_pos_quat (pos : Vec3) (quat : LQuaternion PN_stdfloat) :=
  make_pos_quat_scale pos quat (mkLVecBase3 f1 f1 f1).

Definition make_pos_rotate_scale2d (pos : Vec2) (rotate : PN_stdfloat) (scale : Vec2) :=
  make_pos_rotate_scale_shear2d pos rotate scale f0.

Definition make_pos2d (pos : Vec2) :=
  make_pos_rotate_scale2d pos f0 (mkLVecBase2 f1 f1).

Definition make_rotate2d (rotate : PN_stdfloat) :=
  make_pos_rotate_scale2d (mkLVecBase2 f0 f0) rotate (mkLVecBase2 f1 f1).

Definition make_pos_rotate2d (pos : Vec2) (rotate : PN_stdfloat) :=
  make_pos_rotate_scale2d pos rotate (mkLVecBase2 f1 f1).

(** [make_scale2d(PN_stdfloat)] *)
Definition make_scale2d (scale : PN_stdfloat) :=
  make_pos_rotate_scale2d (mkLVecBase2 f0 f0) f0 (mkLVecBase2 scale scale).

(** [make_scale2d(const LVecBase2 &)] *)
Definition make_scale2d_vec (scale : Vec2) :=
  make_pos_rotate_scale2d (mkLVecBase2 f0 f0) f0 scale.

Definition make_shear2d (shear : PN_stdfloat) :=
  make_pos_rotate_scale_shear2d (mkLVecBase2 f0 f0) f0 (mkLVecBase2 f1 f1) shear.

(** [make_scale(PN_stdfloat)]: "we actually map this 3-d uniform
    make_scale() to the 2-d version". *)
Definition make_scale (scale : PN_stdfloat) := make_scale2d scale.

(** [make_scale(const LVecBase3 &)] *)
Definition make_scale_vec (scale : Vec3) :=
  make_pos_hpr_scale (mkLVecBase3 f0 f0 f0) (mkLVecBase3 f0 f0 f0) scale.

Definition make_shear (shear : Vec3) :=
  make_pos_hpr_scale_shear (mkLVecBase3 f0 f0 f0) (mkLVecBase3 f0 f0 f0)
    (mkLVecBase3 f1 f1 f1) shear.

(** [get_inverse()]: [invert_compose(TransformState::make_identity())]. *)
Definition get_inverse (this_ : addr) (w : World PN_stdfloat) : CPT * World PN_stdfloat :=
  let (identity, w1) := make_identity w in
  invert_compose this_ identity w1.

(** [get_unique()] *)
Definition get_unique (this_ : addr) (w : World PN_stdfloat) : CPT * World PN_stdfloat :=
  return_unique this_ w.

(** [p->is_identity()] and [p->is_invalid()]: [this == _identity_state] and
    [this == _invalid_state]. *)
Definition is_identity_at (gl : Globals) (p : addr) : bool :=
  bool_decide (Some p = _identity_state gl).
Definition is_invalid_at (gl : Globals) (p : addr) : bool :=
  bool_decide (Some p = _invalid_state gl).

(** *** Methods *)

(** The static members as a call finds them, and the receiver. *)
Variable g : Globals.
Variable this : addr.

(** The out-of-line calculations of transformState.cxx that the inline
    [check_*] and [calc_*] methods call. *)
Variable calc_hash : TransformState PN_stdfloat -> TransformState PN_stdfloat.
Variable calc_singular : TransformState PN_stdfloat -> TransformState PN_stdfloat.
Variable do_calc_components : TransformState PN_stdfloat -> TransformState PN_stdfloat.
Variable do_calc_hpr : TransformState PN_stdfloat -> TransformState PN_stdfloat.
Variable calc_quat : TransformState PN_stdfloat -> TransformState PN_stdfloat.
Variable calc_norm_quat : TransformState PN_stdfloat -> TransformState PN_stdfloat.
Variable do_calc_mat : TransformState PN_stdfloat -> TransformState PN_stdfloat.

(** *** Ensuring a cached value is known *)

Definition check_hash (t : State) : State :=
  if _hash t =? H_unknown then calc_hash t else t.

Definition check_singular (t : State) : State :=
  if Z.land (_flags t) F_singular_known =? 0 then calc_singular t else t.

(** [calc_components], [calc_hpr] and [calc_mat] take the lock of the
    object and call the [do_calc_*] method. *)
Definition calc_components (t : State) : State := do_calc_components t.
Definition calc_hpr (t : State) : State := do_calc_hpr t.
Definition calc_mat (t : State) : State := do_calc_mat t.

Definition check_components (t : State) : State :=
  if Z.land (_flags t) F_components_known =? 0 then calc_components t else t.

Definition check_hpr (t : State) : State :=
  if Z.land (_flags t) F_hpr_known =? 0 then calc_hpr t else t.

Definition check_quat (t : State) : State :=
  if Z.land (_flags t) F_quat_known =? 0 then calc_quat t else t.

Definition check_norm_quat (t : State) : State :=
  if Z.land (_flags t) F_norm_quat_known =? 0 then calc_norm_quat t else t.

Definition check_mat (t : State) : State :=
  if Z.land (_flags t) F_mat_known =? 0 then calc_mat t else t.

(** *** Hash *)

Definition get_hash (t : State) : Z * State :=
  let t1 := check_hash t in (_hash t1, t1).

(** *** Comparison *)

(** [operator ==] and the two-argument [compare_to(other, uniquify_matrix)]
    of transformState.cxx, on the receiver and the other operand (each an
    address with its fields). *)
Variable operator_eq : addr -> State -> addr -> State -> bool.
Variable compare_to_uniquify : addr -> State -> addr -> State -> bool -> Z.

(** [operator !=] *)
Definition operator_ne (t : State) (other : addr) (o : State) : bool :=
  negb (operator_eq this t other o).

(** [compare_to(other)] *)
Definition compare_to (t : State) (other : addr) (o : State) : Z :=
  compare_to_uniquify this t other o (_uniquify_matrix g).

(** *** Predicates *)

Definition is_identity : bool := is_identity_at g this.
Definition is_invalid : bool := is_invalid_at g this.

Definition is_singular (t : State) : bool * State :=
  let t1 := check_singular t in (flag_set (_flags t1) F_is_singular, t1).

Definition is_2d (t : State) : bool := flag_set (_flags t) F_is_2d.

Definition has_components (t : State) : bool * State :=
  let t1 := check_components t in (flag_set (_flags t1) F_has_components, t1).

Definition components_given (t : State) : bool := flag_set (_flags t) F_components_given.
Definition hpr_given (t : State) : bool := flag_set (_flags t) F_hpr_given.
Definition quat_given (t : State) : bool := flag_set (_flags t) F_quat_given.

Definition has_pos : bool := negb is_invalid.
Definition has_hpr (t : State) : bool * State := has_components t.
Definition has_quat (t : State) : bool * State := has_components t.
Definition has_scale (t : State) : bool * State := has_components t.

Definition has_identity_scale (t : State) : bool * State :=
  let t1 := check_components t in (flag_set (_flags t1) F_identity_scale, t1).

Definition has_uniform_scale (t : State) : bool * State :=
  let t1 := check_components t in (flag_set (_flags t1) F_uniform_scale, t1).

Definition has_shear (t : State) : bool * State := has_components t.

Definition has_nonzero_shear (t : State) : bool * State :=
  let t1 := check_components t in (flag_set (_flags t1) F_has_nonzero_shear, t1).

Definition has_mat : bool := negb is_invalid.

(** *** Representation accessors *)

Definition get_pos (t : State) : Asserted (LVecBase3 PN_stdfloat) * State :=
  let t1 := check_components t in
  (nassertr has_pos (_pos t1) (_pos t1), t1).

Definition get_hpr (t : State) : Asserted (LVecBase3 PN_stdfloat) * State :=
  let t1 := check_hpr t in
  (nassertr (negb is_invalid) (_hpr t1) (_hpr t1), t1).

Definition get_quat (t : State) : Asserted (LQuaternion PN_stdfloat) * State :=
  let t1 := check_quat t in
  (nassertr (negb is_invalid) (_quat t1) (_quat t1), t1).

Definition get_norm_quat (t : State) : Asserted (LQuaternion PN_stdfloat) * State :=
  let t1 := check_norm_quat t in
  (nassertr (negb is_invalid) (_norm_quat t1) (_norm_quat t1), t1).

Definition get_scale (t : State) : Asserted (LVecBase3 PN_stdfloat) * State :=
  let t1 := check_components t in
  (nassertr (negb is_invalid) (_scale t1) (_scale t1), t1).

Definition get_uniform_scale (t : State) : Asserted PN_stdfloat * State :=
  let t1 := check_components t in
  let (uniform, t2) := has_uniform_scale t1 in
  (nassertr uniform (vec3_get (_scale t2) 0) (vec3_get (_scale t2) 0), t2).

Definition get_shear (t : State) : Asserted (LVecBase3 PN_stdfloat) * State :=
  let t1 := check_components t in
  (nassertr (negb is_invalid) (_shear t1) (_shear t1), t1).

Definition get_mat (t : State) : Asserted (LMatrix4 PN_stdfloat) * State :=
  if has_mat
  then let t1 := check_mat t in (Returned (_mat t1), t1)
  else (AssertionFailed LMatrix4_ident_mat, t).

Definition get_inverse_mat (t : State)
  : Asserted (option (LMatrix4 PN_stdfloat)) * State :=
  let (singular, t1) := is_singular t in
  if negb singular
  then (nassertr (bool_decide (_inv_mat t1 <> None)) None (_inv_mat t1), t1)
  else (Returned None, t1).

Definition get_pos2d (t : State) : Asserted (LVecBase2 PN_stdfloat) * State :=
  let t1 := check_components t in
  (nassertr (has_pos && is_2d t1) LVecBase2_zero
     (mkLVecBase2 (vec3_get (_pos t1) 0) (vec3_get (_pos t1) 1)), t1).

Definition get_rotate2d (t : State) : Asserted PN_stdfloat * State :=
  let t1 := check_hpr t in
  (nassertr (negb is_invalid && is_2d t1) f0
     match get_default_coordinate_system with
     | CS_zup_left => fneg (vec3_get (_hpr t1) 0)
     | CS_yup_right => fneg (vec3_get (_hpr t1) 2)
     | CS_yup_left => vec3_get (_hpr t1) 2
     | _ => vec3_get (_hpr t1) 0
     end, t1).

Definition get_scale2d (t : State) : Asserted (LVecBase2 PN_stdfloat) * State :=
  let t1 := check_components t in
  (nassertr (negb is_invalid && is_2d t1) LVecBase2_zero
     (mkLVecBase2 (vec3_get (_scale t1) 0) (vec3_get (_scale t1) 1)), t1).

Definition get_shear2d (t : State) : Asserted PN_stdfloat * State :=
  let t1 := check_components t in
  (nassertr (negb is_invalid && is_2d t1) f0 (vec3_get (_shear t1) 0), t1).

Definition get_mat3 (t : State) : Asserted (LMatrix3 PN_stdfloat) * State :=
  if has_mat && is_2d t
  then let t1 := check_mat t in
       let m := _mat t1 in
       (Returned (mkLMatrix3
          (mkLVecBase3 (mat4_get m 0 0) (mat4_get m 0 1) (mat4_get m 0 3))
          (mkLVecBase3 (mat4_get m 1 0) (mat4_get m 1 1) (mat4_get m 1 3))
          (mkLVecBase3 (mat4_get m 3 0) (mat4_get m 3 1) (mat4_get m 3 3))), t1)
  else (AssertionFailed LMatrix3_ident_mat, t).

(** *** Cache diagnostics *)

(** [LightReMutexHolder holder] on [_states_lock]: the body runs with the
    registry lock held; there is no lock to hold before [init_states]. *)
Definition holding_states_lock {A} (body : A) : option A :=
  match _states_lock g with
  | Some _ => Some body
  | None => None
  end.

Definition get_composition_cache_num_entries (t : State) : option Z :=
  holding_states_lock (get_num_entries (_composition_cache t)).

Definition get_invert_composition_cache_num_entries (t : State) : option Z :=
  holding_states_lock (get_num_entries (_invert_composition_cache t)).

Definition get_composition_cache_size (t : State) : option Z :=
  holding_states_lock (get_num_entries (_composition_cache t)).

Definition get_composition_cache_source (t : State) (n : Z) : option (option addr) :=
  holding_states_lock (get_key (_composition_cache t) n).

Definition get_composition_cache_result (t : State) (n : Z) : option (option addr) :=
  holding_states_lock (get_data (_composition_cache t) n ≫= _result).

Definition get_invert_composition_cache_size (t : State) : option Z :=
  holding_states_lock (get_num_entries (_invert_composition_cache t)).

Definition get_invert_composition_cache_source (t : State) (n : Z)
  : option (option addr) :=
  holding_states_lock (get_key (_invert_composition_cache t) n).

Definition get_invert_composition_cache_result (t : State) (n : Z)
  : option (option addr) :=
  holding_states_lock (get_data (_invert_composition_cache t) n ≫= _result).

(** *** Scale and shear flags *)

Definition check_uniform_scale (t : State) : State :=
  let t1 :=
    if IS_NEARLY_EQUAL (vec3_get (_scale t) 0) (vec3_get (_scale t) 1) &&
       IS_NEARLY_EQUAL (vec3_get (_scale t) 0) (vec3_get (_scale t) 2)
    then
      let t' := or_flags t F_uniform_scale in
      if IS_NEARLY_EQUAL (vec3_get (_scale t') 0) f1
      then or_flags t' F_identity_scale else t'
    else t in
  if negb (almost_equal (_shear t1) LVecBase3_zero)
  then or_flags t1 F_has_nonzero_shear else t1.

Definition check_uniform_scale2d (t : State) : State :=
  let t1 :=
    if IS_NEARLY_EQUAL (vec3_get (_scale t) 0) (vec3_get (_scale t) 1)
    then
      let t' := with_scale t (vec3_set (_scale t) 2 (vec3_get (_scale t) 0)) in
      let t'' := or_flags t' F_uniform_scale in
      if IS_NEARLY_EQUAL (vec3_get (_scale t'') 0) f1
      then or_flags t'' F_identity_scale else t''
    else t in
  if negb (almost_equal (_shear t1) LVecBase3_zero)
  then or_flags t1 F_has_nonzero_shear else t1.

(** *** Destruction flag (a build without NDEBUG) *)

Definition set_destructing (t : State) : State := or_flags t F_is_destructing.
Definition is_destructing (t : State) : bool := flag_set (_flags t) F_is_destructing.

(** *** Rendering requirements *)

(** [GeomEnums::GR_point_perspective] and [GeomEnums::GR_point_scale], two
    bits of [GeomEnums::GeomRendering] (geomEnums.h). *)
Variables (GR_point_perspective GR_point_scale : Z).

Definition get_geom_rendering (t : State) (geom_rendering : Z) : Z * State :=
  if negb (Z.land geom_rendering GR_point_perspective =? 0)
  then let (identity, t1) := has_identity_scale t in
       if negb identity
       then (Z.lor geom_rendering GR_point_scale, t1)
       else (geom_rendering, t1)
  else (geom_rendering, t).

(** *** Notions the properties are stated with *)

(** The three flags [check_uniform_scale] and [check_uniform_scale2d] are
    about. *)
Definition scale_flags : Z :=
  Z.lor F_uniform_scale (Z.lor F_identity_scale F_has_nonzero_shear).

(** Every value the object derives lazily is known: no [check_*] method has
    anything left to calculate. *)
Definition fully_derived (t : State) : Prop :=
  _hash t <> H_unknown /\
  flag_set (_flags t) F_singular_known = true /\
  flag_set (_flags t) F_components_known = true /\
  flag_set (_flags t) F_hpr_known = true /\
  flag_set (_flags t) F_quat_known = true /\
  flag_set (_flags t) F_norm_quat_known = true /\
  flag_set (_flags t) F_mat_known = true.

(** The invariant [get_inverse_mat] asserts: a transform known not to be
    singular has its inverse stored. *)
Definition inverse_stored (t : State) : Prop :=
  flag_set (_flags t) F_is_singular = false -> _inv_mat t <> None.

(** The invariant on an object: once it is known whether the transform is
    singular, the inverse is stored unless it is. *)
Definition singular_consistent (t : State) : Prop :=
  flag_set (_flags t) F_singular_known = true -> inverse_stored t.

(** The state after [n] further calls of [get_hash()]. *)
Fixpoint after_get_hash (n : nat) (t : State) : State :=
  match n with
  | O => t
  | S n' => after_get_hash n' (snd (get_hash t))
  end.

(** Calling an accessor a second time, on the object as the first call left
    it, gives the same result and leaves the object as it was. *)
Definition repeatable {A} (accessor : State -> A * State) (t : State) : Prop :=
  accessor (snd (accessor t)) = accessor t.

(** ** Properties of the inline methods *)

(** *** The flag word *)

Lemma flag_set_or (flags mask k : Z) :
  flag_set (Z.lor flags mask) k = flag_set flags k || flag_set mask k.
Proof using Type.
  unfold flag_set. rewrite Z.land_lor_distr_l.
  destruct (Z.eqb_spec (Z.lor (Z.land flags k) (Z.land mask k)) 0) as [E|E].
  - apply Z.lor_eq_0_iff in E. destruct E as [E1 E2]. rewrite E1, E2. reflexivity.
  - destruct (Z.eqb_spec (Z.land flags k) 0) as [E1|E1]; [|reflexivity].
    destruct (Z.eqb_spec (Z.land mask k) 0) as [E2|E2]; [|reflexivity].
    exfalso. apply E. rewrite E1, E2. reflexivity.
Qed.

Lemma flag_set_or_flags (t : State) (mask k : Z) :
  flag_set (_flags (or_flags t mask)) k = flag_set (_flags t) k || flag_set mask k.
Proof using Type. apply flag_set_or. Qed.

Lemma flag_set_known (flags k : Z) :
  flag_set flags k = true <-> (Z.land flags k =? 0) = false.
Proof using Type. unfold flag_set. destruct (Z.land flags k =? 0); simpl; split; congruence. Qed.

(** *** Position and matrix are available on every valid transform *)

(** C2: [has_pos()] and [has_mat()] are the negation of [is_invalid()],
    whatever the fields of the object are (singular or not, decomposable or
    not): they are false for the invalid singleton only. *)
Theorem has_pos_has_mat_iff_valid :
  has_pos = negb is_invalid /\ has_mat = negb is_invalid /\
  (has_pos = false <-> Some this = _invalid_state g) /\
  (has_mat = false <-> Some this = _invalid_state g).
Proof using Type.
  unfold has_pos, has_mat, is_invalid, is_invalid_at.
  repeat split; try reflexivity.
  - intros H. apply negb_false_iff in H. apply bool_decide_eq_true in H. exact H.
  - intros H. apply negb_false_iff. apply bool_decide_eq_true. exact H.
  - intros H. apply negb_false_iff in H. apply bool_decide_eq_true in H. exact H.
  - intros H. apply negb_false_iff. apply bool_decide_eq_true. exact H.
Qed.

(** *** Cache diagnostics *)

(** C9: the slot count and the entry count of each cache are the same
    number: [get_composition_cache_size()] and
    [get_composition_cache_num_entries()] agree on every transform, and so do
    the two diagnostics of the invert-composition cache. *)
Theorem cache_size_is_num_entries (t : State) :
  get_composition_cache_size t = get_composition_cache_num_entries t /\
  get_invert_composition_cache_size t = get_invert_composition_cache_num_entries t.
Proof using Type. split; reflexivity. Qed.

(** *** The 2-d uniform-scale check *)

Lemma check_uniform_scale2d_scale (t : State) :
  _scale (check_uniform_scale2d t) =
  if IS_NEARLY_EQUAL (vec3_get (_scale t) 0) (vec3_get (_scale t) 1)
  then vec3_set (_scale t) 2 (vec3_get (_scale t) 0)
  else _scale t.
Proof using Type.
  unfold check_uniform_scale2d.
  destruct (IS_NEARLY_EQUAL (vec3_get (_scale t) 0) (vec3_get (_scale t) 1)).
  - destruct (IS_NEARLY_EQUAL _ f1); destruct (negb _); reflexivity.
  - destruct (negb _); reflexivity.
Qed.

Lemma check_uniform_scale2d_keeps_flags (t : State) (k : Z) :
  flag_set (_flags t) k = true ->
  flag_set (_flags (check_uniform_scale2d t)) k = true.
Proof using Type.
  intros Hk. unfold check_uniform_scale2d.
  repeat match goal with
         | |- context [if ?c then _ else _] => destruct c
         end;
    repeat rewrite flag_set_or_flags; simpl; rewrite ?Hk; reflexivity.
Qed.

(** C10: [check_uniform_scale2d] overwrites [_scale[2]] with [_scale[0]]
    exactly when the x and y scales are nearly equal, and leaves [_scale]
    untouched otherwise; on a valid transform whose components are known,
    [get_scale()] then returns that vector, so a uniform 2-d scale is
    reported as the z scale too. *)
Theorem check_uniform_scale2d_sets_z_scale (t : State) :
  let sx := vec3_get (_scale t) 0 in
  let sy := vec3_get (_scale t) 1 in
  _scale (check_uniform_scale2d t) =
    (if IS_NEARLY_EQUAL sx sy then mkLVecBase3 sx sy sx else _scale t) /\
  (flag_set (_flags t) F_components_known = true ->
   is_invalid = false ->
   get_scale (check_uniform_scale2d t) =
     (Returned (if IS_NEARLY_EQUAL sx sy then mkLVecBase3 sx sy sx else _scale t),
      check_uniform_scale2d t)).
Proof using Type.
  intros sx sy.
  assert (Hscale : _scale (check_uniform_scale2d t) =
            if IS_NEARLY_EQUAL sx sy then mkLVecBase3 sx sy sx else _scale t).
  { rewrite check_uniform_scale2d_scale. fold sx sy.
    destruct (IS_NEARLY_EQUAL sx sy); reflexivity. }
  split; [exact Hscale|].
  intros Hknown Hvalid.
  apply (check_uniform_scale2d_keeps_flags t) in Hknown.
  apply flag_set_known in Hknown.
  unfold get_scale, check_components. rewrite Hknown, Hvalid. simpl.
  rewrite Hscale. reflexivity.
Qed.

(** *** The guard of each accessor *)

(** What [check_components] promises ("ensures that we know the components
    of the transform, or that we know they cannot be derived"). *)
Hypothesis do_calc_components_known :
  forall t, flag_set (_flags (do_calc_components t)) F_components_known = true.

Lemma check_components_known (t : State) :
  flag_set (_flags (check_components t)) F_components_known = true.
Proof using do_calc_components_known.
  unfold check_components, calc_components.
  destruct (Z.land (_flags t) F_components_known =? 0) eqn:E.
  - apply do_calc_components_known.
  - apply flag_set_known. exact E.
Qed.

Lemma check_components_idem (t : State) :
  check_components (check_components t) = check_components t.
Proof using do_calc_components_known.
  pose proof (check_components_known t) as H. apply flag_set_known in H.
  unfold check_components at 1. rewrite H. reflexivity.
Qed.


(** *** The inverse matrix *)

(** [calc_singular] finds out whether the matrix is singular by inverting
    it, and keeps the inverse when there is one. *)
Hypothesis calc_singular_stores_inverse : forall t, inverse_stored (calc_singular t).

Lemma check_singular_inverse_stored (t : State) :
  singular_consistent t -> inverse_stored (check_singular t).
Proof using calc_singular_stores_inverse.
  intros Hc. unfold check_singular.
  destruct (Z.land (_flags t) F_singular_known =? 0) eqn:E.
  - apply calc_singular_stores_inverse.
  - apply Hc. apply flag_set_known. exact E.
Qed.

(** Outside the invariant the assertion is what answers: a transform known
    not to be singular whose inverse is missing gets the null pointer together
    with an assertion failure. *)
Lemma get_inverse_mat_reports_missing_inverse (t : State) :
  flag_set (_flags t) F_singular_known = true ->
  flag_set (_flags t) F_is_singular = false ->
  _inv_mat t = None ->
  get_inverse_mat t = (AssertionFailed None, t).
Proof using Type.
  intros Hknown Hsingular Hinv.
  apply flag_set_known in Hknown.
  unfold get_inverse_mat, is_singular, check_singular.
  rewrite Hknown, Hsingular, Hinv. reflexivity.
Qed.

(** C4: on a transform that satisfies the invariant, [get_inverse_mat()]
    returns the null pointer if and only if [is_singular()] is true; when the
    transform is not singular it returns the stored inverse, which is not
    null; and no assertion is reported in either case, so being singular is
    not an error.  The invariant still holds afterwards. *)
Theorem get_inverse_mat_null_iff_singular (t : State) :
  singular_consistent t ->
  let r := fst (get_inverse_mat t) in
  let t1 := snd (get_inverse_mat t) in
  assertion_failed r = false /\
  (value_of r = None <-> fst (is_singular t) = true) /\
  (fst (is_singular t) = false ->
   value_of r = _inv_mat t1 /\ exists m, value_of r = Some m) /\
  t1 = snd (is_singular t) /\
  singular_consistent t1.
Proof using calc_singular_stores_inverse.
  intros Hc r t1.
  pose proof (check_singular_inverse_stored t Hc) as Hinv.
  assert (Hcons : singular_consistent (check_singular t)) by (intros _; exact Hinv).
  unfold inverse_stored in Hinv.
  subst r t1. unfold get_inverse_mat, is_singular in *. simpl.
  destruct (flag_set (_flags (check_singular t)) F_is_singular) eqn:Es; simpl.
  - split; [reflexivity|]. split; [split; reflexivity|]. split; [discriminate|].
    split; [reflexivity | exact Hcons].
  - specialize (Hinv eq_refl).
    rewrite (bool_decide_eq_true_2 _ Hinv). simpl.
    split; [reflexivity|]. split; [split; [contradiction | discriminate]|].
    split; [|split; [reflexivity | exact Hcons]].
    intros _. split; [reflexivity|].
    destruct (_inv_mat (check_singular t)) as [m|];
      [exists m; reflexivity | contradiction].
Qed.

(** *** Lazy derivation *)

(** What each [check_*] method promises: after it the value is known. *)
Hypothesis calc_hash_known : forall t, _hash (calc_hash t) <> H_unknown.
Hypothesis calc_singular_known :
  forall t, flag_set (_flags (calc_singular t)) F_singular_known = true.
Hypothesis do_calc_hpr_known :
  forall t, flag_set (_flags (do_calc_hpr t)) F_hpr_known = true.
Hypothesis calc_quat_known :
  forall t, flag_set (_flags (calc_quat t)) F_quat_known = true.
Hypothesis calc_norm_quat_known :
  forall t, flag_set (_flags (calc_norm_quat t)) F_norm_quat_known = true.
Hypothesis do_calc_mat_known :
  forall t, flag_set (_flags (do_calc_mat t)) F_mat_known = true.

(** Deriving the matrix fills in cached fields only: whether the transform
    is 2-d is not one of them. *)
Hypothesis do_calc_mat_keeps_2d : forall t, is_2d (do_calc_mat t) = is_2d t.

(** A check-then-calculate step whose calculation sets the flag it tests
    does nothing the second time. *)
Lemma check_then_calculate_idem (calc : State -> State) (known : Z) (t : State) :
  (forall s, flag_set (_flags (calc s)) known = true) ->
  let chk := fun s : State => if Z.land (_flags s) known =? 0 then calc s else s in
  chk (chk t) = chk t.
Proof using Type.
  intros Hcalc chk.
  assert (H : (Z.land (_flags (chk t)) known =? 0) = false).
  { apply flag_set_known. unfold chk.
    destruct (Z.land (_flags t) known =? 0) eqn:E.
    - apply Hcalc.
    - apply flag_set_known. exact E. }
  unfold chk at 1. rewrite H. reflexivity.
Qed.

Lemma check_hash_idem (t : State) : check_hash (check_hash t) = check_hash t.
Proof using calc_hash_known.
  assert (H : _hash (check_hash t) <> H_unknown).
  { unfold check_hash. destruct (Z.eqb_spec (_hash t) H_unknown) as [E|E].
    - apply calc_hash_known.
    - exact E. }
  unfold check_hash at 1.
  destruct (Z.eqb_spec (_hash (check_hash t)) H_unknown) as [E|E];
    [contradiction | reflexivity].
Qed.

Lemma check_singular_idem (t : State) :
  check_singular (check_singular t) = check_singular t.
Proof using calc_singular_known. exact (check_then_calculate_idem calc_singular _ t calc_singular_known). Qed.

Lemma check_hpr_idem (t : State) : check_hpr (check_hpr t) = check_hpr t.
Proof using do_calc_hpr_known. exact (check_then_calculate_idem do_calc_hpr _ t do_calc_hpr_known). Qed.

Lemma check_quat_idem (t : State) : check_quat (check_quat t) = check_quat t.
Proof using calc_quat_known. exact (check_then_calculate_idem calc_quat _ t calc_quat_known). Qed.

Lemma check_norm_quat_idem (t : State) :
  check_norm_quat (check_norm_quat t) = check_norm_quat t.
Proof using calc_norm_quat_known. exact (check_then_calculate_idem calc_norm_quat _ t calc_norm_quat_known). Qed.

Lemma check_mat_idem (t : State) : check_mat (check_mat t) = check_mat t.
Proof using do_calc_mat_known. exact (check_then_calculate_idem do_calc_mat _ t do_calc_mat_known). Qed.

Lemma after_get_hash_fixed (n : nat) (t : State) :
  after_get_hash n (snd (get_hash t)) = snd (get_hash t).
Proof using calc_hash_known.
  induction n as [|n IH]; cbn [after_get_hash]; [reflexivity|].
  assert (H : snd (get_hash (snd (get_hash t))) = snd (get_hash t)).
  { unfold get_hash. simpl. apply check_hash_idem. }
  rewrite H. exact IH.
Qed.

(** C7: every accessor is repeatable: a second call returns what the first
    returned and changes nothing.  [get_hash()] calls [calc_hash()] only
    while the hash is unknown: with a known hash it returns the stored value
    and leaves the object alone, and after one call any number of further
    calls return that same value. *)
Theorem lazy_derivation_idempotent (t : State) :
  (_hash t <> H_unknown -> get_hash t = (_hash t, t)) /\
  (_hash t = H_unknown -> get_hash t = (_hash (calc_hash t), calc_hash t)) /\
  repeatable get_hash t /\
  (forall n, get_hash (after_get_hash n (snd (get_hash t))) = get_hash t) /\
  repeatable get_pos t /\ repeatable get_hpr t /\ repeatable get_quat t /\
  repeatable get_norm_quat t /\ repeatable get_scale t /\
  repeatable get_uniform_scale t /\ repeatable get_shear t /\
  repeatable get_mat t /\ repeatable get_inverse_mat t /\
  repeatable get_pos2d t /\ repeatable get_rotate2d t /\
  repeatable get_scale2d t /\ repeatable get_shear2d t /\
  repeatable get_mat3 t /\
  repeatable is_singular t /\ repeatable has_components t /\
  repeatable has_uniform_scale t /\ repeatable has_identity_scale t /\
  repeatable has_nonzero_shear t.
Proof using do_calc_components_known calc_hash_known calc_singular_known do_calc_hpr_known calc_quat_known calc_norm_quat_known do_calc_mat_known do_calc_mat_keeps_2d.
  assert (Hh : repeatable get_hash t).
  { unfold repeatable, get_hash. simpl. rewrite check_hash_idem. reflexivity. }
  split; [|split; [|split; [exact Hh|split]]].
  - intros Hk. unfold get_hash, check_hash.
    destruct (Z.eqb_spec (_hash t) H_unknown); [contradiction | reflexivity].
  - intros Hu. unfold get_hash, check_hash. rewrite Hu, Z.eqb_refl. reflexivity.
  - intros n. rewrite after_get_hash_fixed. exact Hh.
  - unfold repeatable.
    repeat split;
      unfold get_pos, get_hpr, get_quat, get_norm_quat, get_scale,
        get_uniform_scale, has_uniform_scale, get_shear, get_pos2d,
        get_rotate2d, get_scale2d, get_shear2d, get_inverse_mat, is_singular,
        has_components, has_identity_scale, has_nonzero_shear; simpl;
      rewrite ?check_components_idem, ?check_hpr_idem, ?check_quat_idem,
        ?check_norm_quat_idem, ?check_singular_idem;
      try reflexivity.
    + unfold get_mat. destruct has_mat; simpl; [|reflexivity].
      rewrite check_mat_idem. reflexivity.
    + destruct (flag_set (_flags (check_singular t)) F_is_singular) eqn:Es; simpl;
        rewrite check_singular_idem, Es; reflexivity.
    + unfold get_mat3.
      destruct has_mat; simpl; [|reflexivity].
      destruct (is_2d t) eqn:E2; simpl; [|rewrite E2; reflexivity].
      assert (E2' : is_2d (check_mat t) = true).
      { unfold check_mat, calc_mat.
        destruct (Z.land (_flags t) F_mat_known =? 0);
          [rewrite do_calc_mat_keeps_2d|]; exact E2. }
      rewrite E2'. simpl. rewrite check_mat_idem. reflexivity.
Qed.

(** *** The singletons *)

(** [init_states] leaves the registry lock allocated. *)
Hypothesis init_states_creates_lock :
  forall w, _states_lock (statics (init_states w)) <> None.

Lemma singleton_call_initialised (c : SingletonCall) (w : World PN_stdfloat) :
  _states_lock (statics w) <> None ->
  singleton_call c w = (singleton_of c (statics w), w).
Proof using Type.
  intros Hlock. destruct c; simpl; unfold make_identity, make_invalid;
    destruct (_states_lock (statics w)); try contradiction; reflexivity.
Qed.

Lemma singleton_call_leaves_lock (c : SingletonCall) (w : World PN_stdfloat) :
  _states_lock (statics (snd (singleton_call c w))) <> None.
Proof using init_states_creates_lock.
  destruct c; simpl; destruct (_states_lock (statics w)) eqn:E; simpl;
    try apply init_states_creates_lock; rewrite E; discriminate.
Qed.

Lemma singleton_calls_initialised (cs : list SingletonCall) (w : World PN_stdfloat) :
  _states_lock (statics w) <> None ->
  singleton_calls cs w = (map (fun c => (c, singleton_of c (statics w))) cs, w).
Proof using Type.
  intros Hlock. induction cs as [|c cs IH]; simpl; [reflexivity|].
  rewrite (singleton_call_initialised c w Hlock), IH. reflexivity.
Qed.

(** C1: the first request for a singleton runs [init_states] if the
    subsystem is not initialised yet, and not otherwise; every request after
    it, for either singleton and in any order, returns the pointer the static
    member held after that first request and leaves the program state as it
    was.  [is_identity()] and [is_invalid()] compare the receiver's address
    with the singleton's: an object at another address is not the identity
    (the invalid) transform, even when it holds the same fields. *)
Theorem singletons_are_process_wide
    (w : World PN_stdfloat) (c : SingletonCall) (cs : list SingletonCall) :
  let w1 := snd (singleton_call c w) in
  w1 = match _states_lock (statics w) with None => init_states w | Some _ => w end /\
  fst (singleton_call c w) = singleton_of c (statics w1) /\
  snd (singleton_calls cs w1) = w1 /\
  (forall c' p, In (c', p) (fst (singleton_calls cs w1)) ->
                p = singleton_of c' (statics w1)) /\
  (forall p, is_identity_at (statics w1) p = true <-> Some p = _identity_state (statics w1)) /\
  (forall p, is_invalid_at (statics w1) p = true <-> Some p = _invalid_state (statics w1)) /\
  (forall p q,
     heap w1 !! q = heap w1 !! p -> q <> p ->
     (is_identity_at (statics w1) p = true -> is_identity_at (statics w1) q = false) /\
     (is_invalid_at (statics w1) p = true -> is_invalid_at (statics w1) q = false)).
Proof using init_states_creates_lock.
  intros w1.
  pose proof (singleton_call_leaves_lock c w) as Hlock. fold w1 in Hlock.
  rewrite (singleton_calls_initialised cs w1 Hlock). simpl.
  split; [|split; [|split; [|split; [|split; [|split]]]]].
  - subst w1. destruct c; simpl; destruct (_states_lock (statics w)); reflexivity.
  - subst w1. destruct c; reflexivity.
  - reflexivity.
  - intros c' p Hin. apply in_map_iff in Hin. destruct Hin as [c0 [Heq _]].
    inversion Heq. reflexivity.
  - intros p. unfold is_identity_at. apply bool_decide_eq_true.
  - intros p. unfold is_invalid_at. apply bool_decide_eq_true.
  - intros p q _ Hne. unfold is_identity_at, is_invalid_at.
    split; intros Hp; apply bool_decide_eq_true in Hp;
      apply bool_decide_eq_false; intros Hq; rewrite <- Hp in Hq;
      inversion Hq; contradiction.
Qed.

(** *** What the scale checks record *)

Lemma with_flags_same (t : State) : with_flags t (_flags t) = t.
Proof using Type. destruct t; reflexivity. Qed.

Lemma or_flags_absorb (t : State) (m : Z) : or_flags (or_flags t m) m = or_flags t m.
Proof using Type.
  unfold or_flags, with_flags; simpl. rewrite <- Z.lor_assoc, Z.lor_diag. reflexivity.
Qed.

Lemma land_lor_outside (flags extra mask : Z) :
  Z.land extra (Z.lnot mask) = 0 ->
  Z.land (Z.lor flags extra) (Z.lnot mask) = Z.land flags (Z.lnot mask).
Proof using Type.
  intros H. rewrite Z.land_lor_distr_l, H, Z.lor_0_r. reflexivity.
Qed.

Lemma land_lor_self (a b : Z) : Z.land (Z.lor a b) a = a.
Proof using Type.
  apply Z.bits_inj'; intros n _. rewrite Z.land_spec, Z.lor_spec.
  destruct (Z.testbit a n), (Z.testbit b n); reflexivity.
Qed.

Lemma vec3_get_set_z (v : LVecBase3 PN_stdfloat) (a : PN_stdfloat) :
  vec3_get (vec3_set v 2 a) 0 = vec3_get v 0 /\
  vec3_get (vec3_set v 2 a) 1 = vec3_get v 1 /\
  vec3_get (vec3_set v 2 a) 2 = a /\
  vec3_set (vec3_set v 2 a) 2 a = vec3_set v 2 a.
Proof using Type. repeat split; reflexivity. Qed.

(** The flags of the three scale bits, one against the other. *)
Lemma scale_flag_bits :
  flag_set F_uniform_scale F_uniform_scale = true /\
  flag_set F_uniform_scale F_identity_scale = false /\
  flag_set F_uniform_scale F_has_nonzero_shear = false /\
  flag_set F_identity_scale F_uniform_scale = false /\
  flag_set F_identity_scale F_identity_scale = true /\
  flag_set F_identity_scale F_has_nonzero_shear = false /\
  flag_set F_has_nonzero_shear F_uniform_scale = false /\
  flag_set F_has_nonzero_shear F_identity_scale = false /\
  flag_set F_has_nonzero_shear F_has_nonzero_shear = true.
Proof using Type. repeat split; reflexivity. Qed.

Lemma scale_flags_outside :
  Z.land F_uniform_scale (Z.lnot scale_flags) = 0 /\
  Z.land F_identity_scale (Z.lnot scale_flags) = 0 /\
  Z.land F_has_nonzero_shear (Z.lnot scale_flags) = 0.
Proof using Type. repeat split; reflexivity. Qed.

Local Ltac scale_bits :=
  destruct scale_flag_bits as (UU & UI & US & IU & II & IS & SU & SI & SS);
  destruct scale_flags_outside as (OU & OI & OS);
  cbn [or_flags with_flags with_scale _flags _scale _shear];
  repeat rewrite flag_set_or;
  rewrite ?UU, ?UI, ?US, ?IU, ?II, ?IS, ?SU, ?SI, ?SS;
  rewrite ?orb_true_r, ?orb_false_r;
  repeat (rewrite land_lor_outside; [|assumption]);
  try reflexivity.

Local Ltac same_fields :=
  cbv [or_flags with_flags with_scale _flags _hash _pos _hpr _quat _norm_quat
       _scale _shear _mat _inv_mat _composition_cache _invert_composition_cache];
  f_equal;
  apply Z.bits_inj'; intros n _; rewrite !Z.lor_spec;
  repeat match goal with
         | |- context [Z.testbit ?a n] => destruct (Z.testbit a n)
         end;
  reflexivity.

(** X1: [check_uniform_scale()] changes nothing but the flag word, and in it
    only the three flags it is about, which it sets and never clears:
    afterwards [F_uniform_scale] is set if it was or the three scales are
    nearly equal, [F_identity_scale] if it was or they are also nearly 1,
    and [F_has_nonzero_shear] if it was or the shear is not almost zero.  On
    an object whose scale flags were clear an identity scale is therefore
    always a uniform one. *)
Theorem check_uniform_scale_flags (t : State) :
  let sx := vec3_get (_scale t) 0 in
  let uniform := IS_NEARLY_EQUAL sx (vec3_get (_scale t) 1) &&
                 IS_NEARLY_EQUAL sx (vec3_get (_scale t) 2) in
  let t' := check_uniform_scale t in
  t' = with_flags t (_flags t') /\
  flag_set (_flags t') F_uniform_scale = flag_set (_flags t) F_uniform_scale || uniform /\
  flag_set (_flags t') F_identity_scale =
    flag_set (_flags t) F_identity_scale || uniform && IS_NEARLY_EQUAL sx f1 /\
  flag_set (_flags t') F_has_nonzero_shear =
    flag_set (_flags t) F_has_nonzero_shear || negb (almost_equal (_shear t) LVecBase3_zero) /\
  Z.land (_flags t') (Z.lnot scale_flags) = Z.land (_flags t) (Z.lnot scale_flags).
Proof using Type.
  intros sx uniform t'. subst t' uniform sx. unfold check_uniform_scale.
  cbn [or_flags with_flags _scale _shear].
  destruct (IS_NEARLY_EQUAL (vec3_get (_scale t) 0) (vec3_get (_scale t) 1));
    destruct (IS_NEARLY_EQUAL (vec3_get (_scale t) 0) (vec3_get (_scale t) 2));
    destruct (IS_NEARLY_EQUAL (vec3_get (_scale t) 0) f1);
    cbn [andb or_flags with_flags _scale _shear];
    destruct (almost_equal (_shear t) LVecBase3_zero);
    cbn [andb negb];
    (split; [try reflexivity; symmetry; apply with_flags_same|]);
    repeat split; scale_bits.
Qed.

(** X2: [check_uniform_scale2d()] changes the flag word as
    [check_uniform_scale()] does, judging the scale uniform by x and y alone,
    and of the other fields only [_scale], whose z it overwrites with x when
    it finds the scale uniform. *)
Theorem check_uniform_scale2d_flags (t : State) :
  let sx := vec3_get (_scale t) 0 in
  let uniform := IS_NEARLY_EQUAL sx (vec3_get (_scale t) 1) in
  let t' := check_uniform_scale2d t in
  t' = with_flags (with_scale t (if uniform then vec3_set (_scale t) 2 sx else _scale t))
         (_flags t') /\
  flag_set (_flags t') F_uniform_scale = flag_set (_flags t) F_uniform_scale || uniform /\
  flag_set (_flags t') F_identity_scale =
    flag_set (_flags t) F_identity_scale || uniform && IS_NEARLY_EQUAL sx f1 /\
  flag_set (_flags t') F_has_nonzero_shear =
    flag_set (_flags t) F_has_nonzero_shear || negb (almost_equal (_shear t) LVecBase3_zero) /\
  Z.land (_flags t') (Z.lnot scale_flags) = Z.land (_flags t) (Z.lnot scale_flags).
Proof using Type.
  intros sx uniform t'. subst t' uniform sx. unfold check_uniform_scale2d.
  cbn [or_flags with_flags with_scale _scale _shear].
  rewrite (proj1 (vec3_get_set_z (_scale t) (vec3_get (_scale t) 0))).
  destruct (IS_NEARLY_EQUAL (vec3_get (_scale t) 0) (vec3_get (_scale t) 1));
    destruct (IS_NEARLY_EQUAL (vec3_get (_scale t) 0) f1);
    cbn [andb or_flags with_flags with_scale _scale _shear];
    destruct (almost_equal (_shear t) LVecBase3_zero);
    cbn [andb negb];
    (split; [try reflexivity; destruct t; reflexivity|]);
    repeat split; scale_bits.
Qed.

(** X3: running a scale check a second time changes nothing: the flags it would
    set are set already, and the 2-d check finds the z scale it would write. *)
Theorem check_uniform_scale_idempotent (t : State) :
  check_uniform_scale (check_uniform_scale t) = check_uniform_scale t /\
  check_uniform_scale2d (check_uniform_scale2d t) = check_uniform_scale2d t.
Proof using Type.
  destruct t as [fl h p hp q nq [sx sy sz] sh m im cc icc].
  split.
  - unfold check_uniform_scale. cbn -[Z.lor].
    destruct (IS_NEARLY_EQUAL sx sy) eqn:Exy; cbn -[Z.lor];
      [destruct (IS_NEARLY_EQUAL sx sz) eqn:Exz; cbn -[Z.lor];
       [destruct (IS_NEARLY_EQUAL sx f1) eqn:E1; cbn -[Z.lor]|]|];
      destruct (almost_equal sh LVecBase3_zero) eqn:Es; cbn -[Z.lor];
      rewrite ?Exy, ?Exz, ?E1, ?Es; cbn -[Z.lor];
      rewrite ?Exy, ?Exz, ?E1, ?Es; cbn -[Z.lor];
      try reflexivity; same_fields.
  - unfold check_uniform_scale2d. cbn -[Z.lor].
    destruct (IS_NEARLY_EQUAL sx sy) eqn:Exy; cbn -[Z.lor];
      [destruct (IS_NEARLY_EQUAL sx f1) eqn:E1; cbn -[Z.lor]|];
      destruct (almost_equal sh LVecBase3_zero) eqn:Es; cbn -[Z.lor];
      rewrite ?Exy, ?E1, ?Es; cbn -[Z.lor];
      rewrite ?Exy, ?E1, ?Es; cbn -[Z.lor];
      try reflexivity; same_fields.
Qed.

(** X4: the 2-d check is the 3-d check run on the scale with its z made equal
    to its x (when x and y are nearly equal; on the scale as it is
    otherwise), provided the x scale is nearly equal to itself. *)
Theorem check_uniform_scale2d_as_check_uniform_scale (t : State) :
  let sx := vec3_get (_scale t) 0 in
  IS_NEARLY_EQUAL sx sx = true ->
  check_uniform_scale2d t =
  check_uniform_scale
    (if IS_NEARLY_EQUAL sx (vec3_get (_scale t) 1)
     then with_scale t (vec3_set (_scale t) 2 sx) else t).
Proof using Type.
  intros sx Hrefl. subst sx.
  unfold check_uniform_scale2d, check_uniform_scale.
  destruct (vec3_get_set_z (_scale t) (vec3_get (_scale t) 0)) as (G0 & G1 & G2 & _).
  destruct (IS_NEARLY_EQUAL (vec3_get (_scale t) 0) (vec3_get (_scale t) 1)) eqn:Eu;
    cbn [or_flags with_flags with_scale _scale _shear _flags];
    rewrite ?G0, ?G1, ?G2, ?Eu, ?Hrefl; reflexivity.
Qed.

(** X5: once a scale check has found the scale uniform on an object whose
    components are known, [get_uniform_scale()] passes its assertion and
    returns the x scale, leaving the object as the check left it. *)
Theorem get_uniform_scale_after_check (t : State) :
  let sx := vec3_get (_scale t) 0 in
  flag_set (_flags t) F_components_known = true ->
  IS_NEARLY_EQUAL sx (vec3_get (_scale t) 1) = true ->
  get_uniform_scale (check_uniform_scale2d t) = (Returned sx, check_uniform_scale2d t) /\
  (IS_NEARLY_EQUAL sx (vec3_get (_scale t) 2) = true ->
   get_uniform_scale (check_uniform_scale t) = (Returned sx, check_uniform_scale t)).
Proof using Type.
  intros sx Hknown Hxy.
  assert (Hget : forall u, flag_set (_flags u) F_components_known = true ->
                   flag_set (_flags u) F_uniform_scale = true ->
                   get_uniform_scale u = (Returned (vec3_get (_scale u) 0), u)).
  { intros u Hk Hu. apply flag_set_known in Hk.
    unfold get_uniform_scale, has_uniform_scale, check_components.
    rewrite Hk. cbn [fst snd]. rewrite Hk, Hu. reflexivity. }
  split.
  - rewrite Hget.
    + rewrite check_uniform_scale2d_scale. fold sx. rewrite Hxy.
      rewrite (proj1 (vec3_get_set_z _ _)). reflexivity.
    + apply check_uniform_scale2d_keeps_flags. exact Hknown.
    + unfold check_uniform_scale2d. fold sx. rewrite Hxy.
      repeat match goal with
             | |- context [if ?c then _ else _] => destruct c
             end; scale_bits.
  - intros Hxz. rewrite Hget.
    + unfold check_uniform_scale. fold sx. rewrite Hxy, Hxz. cbn [andb].
      repeat match goal with
             | |- context [if ?c then _ else _] => destruct c
             end; reflexivity.
    + unfold check_uniform_scale. fold sx. rewrite Hxy, Hxz. cbn [andb].
      repeat match goal with
             | |- context [if ?c then _ else _] => destruct c
             end; cbn [or_flags with_flags _flags]; rewrite ?flag_set_or, Hknown; reflexivity.
    + unfold check_uniform_scale. fold sx. rewrite Hxy, Hxz. cbn [andb].
      repeat match goal with
             | |- context [if ?c then _ else _] => destruct c
             end; scale_bits.
Qed.

(** *** The destruction flag *)

(** X6: [set_destructing()] makes [is_destructing()] true and changes nothing
    else: no other field, no flag outside [F_is_destructing] (so [is_2d()]
    and the [*_given()] predicates answer as before), and a second call
    changes nothing. *)
Theorem set_destructing_sets_only_its_flag (t : State) :
  is_destructing (set_destructing t) = true /\
  set_destructing t = with_flags t (_flags (set_destructing t)) /\
  Z.land (_flags (set_destructing t)) (Z.lnot F_is_destructing) =
    Z.land (_flags t) (Z.lnot F_is_destructing) /\
  is_2d (set_destructing t) = is_2d t /\
  components_given (set_destructing t) = components_given t /\
  hpr_given (set_destructing t) = hpr_given t /\
  quat_given (set_destructing t) = quat_given t /\
  set_destructing (set_destructing t) = set_destructing t.
Proof using Type.
  unfold is_destructing, set_destructing, is_2d, components_given, hpr_given, quat_given.
  repeat split; try apply or_flags_absorb;
    cbn [or_flags with_flags _flags]; rewrite ?flag_set_or; try reflexivity.
  - apply orb_true_r.
  - apply land_lor_outside. reflexivity.
  - apply orb_false_r.
  - apply orb_false_r.
  - apply orb_false_r.
  - apply orb_false_r.
Qed.

(** *** Rendering requirements *)

(** X7: [get_geom_rendering()] keeps every bit it is given and adds at most
    [GR_point_scale]: it adds it exactly when [GR_point_perspective] is
    among the bits and the scale is not the identity.  Without
    [GR_point_perspective] the object is not even consulted.  Applying it to
    its own result changes nothing. *)
Theorem get_geom_rendering_bits (t : State) (geom_rendering : Z) :
  let r := get_geom_rendering t geom_rendering in
  let wanted := flag_set geom_rendering GR_point_perspective in
  fst r = Z.lor geom_rendering
            (if wanted && negb (fst (has_identity_scale t)) then GR_point_scale else 0) /\
  Z.land (fst r) geom_rendering = geom_rendering /\
  snd r = (if wanted then check_components t else t) /\
  get_geom_rendering (snd r) (fst r) = r.
Proof using do_calc_components_known.
  intros r wanted. subst r wanted.
  unfold get_geom_rendering, has_identity_scale, flag_set.
  destruct (Z.land geom_rendering GR_point_perspective =? 0) eqn:Ep; cbn [negb andb fst snd].
  - rewrite Ep. cbn [negb]. rewrite Z.lor_0_r, Z.land_diag. repeat split; reflexivity.
  - destruct (Z.land (_flags (check_components t)) F_identity_scale =? 0) eqn:Ei;
      cbn [negb fst snd]; rewrite ?check_components_idem, ?Ei; cbn [negb].
    + assert (Ep' : (Z.land (Z.lor geom_rendering GR_point_scale) GR_point_perspective =? 0)
                    = false).
      { apply Z.eqb_neq. rewrite Z.land_lor_distr_l. intros H.
        apply Z.lor_eq_0_iff in H. apply Z.eqb_neq in Ep. destruct H as [H _].
        contradiction. }
      rewrite Ep'. cbn [negb].
      rewrite land_lor_self, <- Z.lor_assoc, Z.lor_diag. repeat split; reflexivity.
    + rewrite Ep. cbn [negb]. rewrite Z.lor_0_r, Z.land_diag. repeat split; reflexivity.
Qed.

(** *** An object with nothing left to derive *)

(** X8: on an object whose hash, singularity, components, rotation and matrix
    are all known, no accessor modifies the object: nothing is calculated,
    whatever the out-of-line calculations would do. *)
Theorem accessors_leave_derived_object (t : State) (geom_rendering : Z) :
  fully_derived t ->
  snd (get_hash t) = t /\
  snd (is_singular t) = t /\
  snd (has_components t) = t /\
  snd (has_identity_scale t) = t /\
  snd (has_uniform_scale t) = t /\
  snd (has_nonzero_shear t) = t /\
  snd (get_pos t) = t /\
  snd (get_hpr t) = t /\
  snd (get_quat t) = t /\
  snd (get_norm_quat t) = t /\
  snd (get_scale t) = t /\
  snd (get_uniform_scale t) = t /\
  snd (get_shear t) = t /\
  snd (get_mat t) = t /\
  snd (get_inverse_mat t) = t /\
  snd (get_pos2d t) = t /\
  snd (get_rotate2d t) = t /\
  snd (get_scale2d t) = t /\
  snd (get_shear2d t) = t /\
  snd (get_mat3 t) = t /\
  snd (get_geom_rendering t geom_rendering) = t.
Proof using Type.
  intros (Hh & Hs & Hc & Hr & Hq & Hn & Hm).
  apply flag_set_known in Hs, Hc, Hr, Hq, Hn, Hm.
  apply Z.eqb_neq in Hh.
  assert (Ch : check_hash t = t) by (unfold check_hash; rewrite Hh; reflexivity).
  assert (Cs : check_singular t = t) by (unfold check_singular; rewrite Hs; reflexivity).
  assert (Cc : check_components t = t) by (unfold check_components; rewrite Hc; reflexivity).
  assert (Cr : check_hpr t = t) by (unfold check_hpr; rewrite Hr; reflexivity).
  assert (Cq : check_quat t = t) by (unfold check_quat; rewrite Hq; reflexivity).
  assert (Cn : check_norm_quat t = t)
    by (unfold check_norm_quat; rewrite Hn; reflexivity).
  assert (Cm : check_mat t = t) by (unfold check_mat; rewrite Hm; reflexivity).
  unfold get_hash, is_singular, has_components, has_identity_scale, has_uniform_scale,
    has_nonzero_shear, get_pos, get_hpr, get_quat, get_norm_quat, get_scale,
    get_uniform_scale, has_uniform_scale, get_shear, get_mat, get_inverse_mat,
    is_singular, get_pos2d, get_rotate2d, get_scale2d, get_shear2d, get_mat3,
    get_geom_rendering, has_identity_scale.
  rewrite ?Ch, ?Cs, ?Cc, ?Cr, ?Cq, ?Cn, ?Cm. cbn [fst snd]. rewrite ?Cc.
  repeat split; try reflexivity.
  - destruct has_mat; reflexivity.
  - destruct (negb (flag_set (_flags t) F_is_singular)); reflexivity.
  - destruct (has_mat && is_2d t); reflexivity.
  - destruct (negb (Z.land geom_rendering GR_point_perspective =? 0)); [|reflexivity].
    destruct (negb (flag_set (_flags t) F_identity_scale)); reflexivity.
Qed.

End Inline.

(** * The registry and the composition cache

    Transform values are interned and their compositions memoized by
    transformState.cxx, which is not under src.  This part follows the
    specification: section 4.1 for the registry, 4.2 for the construction of
    candidates and the derivation of the matrix, 4.3 for [compose] and
    [invert_compose].  The numeric library stays a parameter. *)

Section Registry.

Context {PN_stdfloat : Type}.
Variables (f0 f1 : PN_stdfloat) (fneg : PN_stdfloat -> PN_stdfloat).
Variable IS_NEARLY_EQUAL : PN_stdfloat -> PN_stdfloat -> bool.
Variable almost_equal : LVecBase3 PN_stdfloat -> LVecBase3 PN_stdfloat -> bool.
Variable get_default_coordinate_system : CoordinateSystem.
Variable H_unknown : Z.

(** The numeric library: the matrix of a scale, shear, rotation and
    translation; the Euler angles of a quaternion; the matrix product; the
    inverse of a matrix, if it has one; comparison of matrices within the
    library's epsilon. *)
Variable compose_matrix :
  LVecBase3 PN_stdfloat -> LVecBase3 PN_stdfloat -> LVecBase3 PN_stdfloat ->
  LVecBase3 PN_stdfloat -> LMatrix4 PN_stdfloat.
Variable quat_get_hpr : LQuaternion PN_stdfloat -> LVecBase3 PN_stdfloat.
Variable mat_multiply : LMatrix4 PN_stdfloat -> LMatrix4 PN_stdfloat -> LMatrix4 PN_stdfloat.
Variable invert_from : LMatrix4 PN_stdfloat -> option (LMatrix4 PN_stdfloat).
Variable mat_almost_equal : LMatrix4 PN_stdfloat -> LMatrix4 PN_stdfloat -> bool.

Local Abbreviation State := (TransformState PN_stdfloat).
Local Abbreviation Vec3 := (LVecBase3 PN_stdfloat).
Local Abbreviation Vec2 := (LVecBase2 PN_stdfloat).
Local Abbreviation CPT := (option addr).
Local Abbreviation zero3 := (mkLVecBase3 f0 f0 f0).
Local Abbreviation one3 := (mkLVecBase3 f1 f1 f1).
Local Abbreviation ident_quat := (mkLQuaternion f1 f0 f0 f0).
Local Abbreviation ident_mat := (LMatrix4_ident_mat f0 f1).

(** The matrix of a translation: the identity with the position in the last
    row (the row [get_mat3()] takes the 2-d position from). *)
Definition translate_mat (pos : Vec3) : LMatrix4 PN_stdfloat :=
  mkLMatrix4 (mkLVecBase4 f1 f0 f0 f0) (mkLVecBase4 f0 f1 f0 f0)
             (mkLVecBase4 f0 f0 f1 f0)
             (mkLVecBase4 (v3_x pos) (v3_y pos) (v3_z pos) f1).

(** ** Derivation of the matrix *)

(** Modelled from the spec: [do_calc_mat] of transformState.cxx (4.2:
    "component-given values derive the matrix"): the matrix is composed from
    the scale, the shear, the rotation (the Euler angles, or those of the
    quaternion when the rotation was given as one) and the position, and is
    known from then on. *)
Definition do_calc_mat (t : State) : State :=
  let hpr := if flag_set (_flags t) F_hpr_known then _hpr t else quat_get_hpr (_quat t) in
  or_flags (with_mat t (compose_matrix (_scale t) (_shear t) hpr (_pos t))) F_mat_known.

(** The matrix a value denotes: the one [get_mat()] returns. *)
Definition transform_mat (t : State) : LMatrix4 PN_stdfloat :=
  _mat (check_mat do_calc_mat t).

(** Modelled from the spec: [calc_singular] of transformState.cxx (3: the
    inverse is "present only if non-singular"; 4.1: "singularity is a lazily
    derived flag"): the matrix is inverted; the inverse is kept when there is
    one, and the transform is flagged singular when there is none. *)
Definition calc_singular (t : State) : State :=
  match invert_from (transform_mat t) with
  | Some inverse =>
      or_flags
        (mkTransformState (_flags t) (_hash t) (_pos t) (_hpr t) (_quat t)
           (_norm_quat t) (_scale t) (_shear t) (_mat t) (Some inverse)
           (_composition_cache t) (_invert_composition_cache t))
        F_singular_known
  | None =>
      or_flags
        (mkTransformState (_flags t) (_hash t) (_pos t) (_hpr t) (_quat t)
           (_norm_quat t) (_scale t) (_shear t) (_mat t) None
           (_composition_cache t) (_invert_composition_cache t))
        (Z.lor F_is_singular F_singular_known)
  end.

(** ** The registry *)

(** Modelled from the spec: the key of a registry entry (3: "the structural
    content of the Transform Value"; "two Transform Values are registry-equal
    if and only if they denote the same transform within a fixed numeric
    epsilon"; 8: "value-equal transforms (within epsilon)"): two values are
    equal when the matrices they denote agree within the epsilon. *)
Definition same_value (a b : State) : bool :=
  mat_almost_equal (transform_mat a) (transform_mat b).

(** Modelled from the spec: [intern] of the registry (4.1): an entry whose
    value compares equal to the candidate
    is returned and the candidate discarded; otherwise the candidate becomes
    an object of its own, is entered and is returned.  The hash only speeds
    the lookup up and is left out. *)
Definition intern (candidate : State) (w : World PN_stdfloat) : CPT * World PN_stdfloat :=
  match find (fun p => match heap w !! p with
                       | Some t => same_value t candidate
                       | None => false
                       end) (_states w) with
  | Some p => (Some p, w)
  | None =>
      let p := fresh (dom (heap w)) in
      (Some p, mkWorld (statics w) (<[p := candidate]> (heap w)) (_states w ++ [p]))
  end.

(** The fields of a transform all of whose representations are the
    identity's. *)
Definition blank : State :=
  mkTransformState 0 H_unknown zero3 zero3 ident_quat ident_quat one3 zero3
    ident_mat None [] [].

(** Modelled from the spec: the identity singleton (3, 4.1), with every
    representation known. *)
Definition identity_object : State :=
  mkTransformState
    (Z.lor F_singular_known (Z.lor F_components_known (Z.lor F_has_components
      (Z.lor F_mat_known (Z.lor F_quat_known (Z.lor F_hpr_known
        (Z.lor F_uniform_scale (Z.lor F_identity_scale F_norm_quat_known))))))))
    H_unknown zero3 zero3 ident_quat ident_quat one3 zero3
    ident_mat (Some ident_mat) [] [].

(** Modelled from the spec: the invalid singleton (3, 4.2: "the result of
    inverting a singular matrix"; [has_components()] is false for it): it is
    singular and has no components. *)
Definition invalid_object : State :=
  mkTransformState
    (Z.lor F_is_singular (Z.lor F_singular_known (Z.lor F_components_known
      (Z.lor F_mat_known (Z.lor F_quat_known (Z.lor F_hpr_known F_norm_quat_known))))))
    H_unknown zero3 zero3 ident_quat ident_quat one3 zero3
    ident_mat None [] [].

(** Modelled from the spec: [init_states] of transformState.cxx (4.1: the
    singletons are "lazily constructed on first use of the subsystem and
    cached for the process lifetime"): it creates the lock and the two
    objects; the identity, being a transform, is entered in the registry. *)
Definition init_states (w : World PN_stdfloat) : World PN_stdfloat :=
  let p_identity := fresh (dom (heap w)) in
  let h1 := <[p_identity := identity_object]> (heap w) in
  let p_invalid := fresh (dom h1) in
  let h2 := <[p_invalid := invalid_object]> h1 in
  mkWorld
    (mkGlobals (Some TheStatesLock) (Some p_identity) (Some p_invalid)
       (_uniquify_matrix (statics w)))
    h2 (_states w ++ [p_identity]).

(** The first use of the subsystem initialises it. *)
Definition ensure_states (w : World PN_stdfloat) : World PN_stdfloat :=
  snd (make_identity init_states w).

(** ** Construction of candidates *)

(** Modelled from the spec: the out-of-line factories (4.2: "the only ways
    to construct a fresh (uninterned) candidate; all pass through
    Registry.intern").  A candidate built from components holds them as
    given; [check_uniform_scale] runs "immediately after _scale (and
    F_has_components) is set". *)
Definition make_pos_hpr_scale_shear (pos hpr scale shear : Vec3)
    (w : World PN_stdfloat) : CPT * World PN_stdfloat :=
  let t := mkTransformState
             (Z.lor F_components_given (Z.lor F_hpr_given (Z.lor F_components_known
               (Z.lor F_hpr_known F_has_components))))
             H_unknown pos hpr ident_quat ident_quat scale shear ident_mat None [] [] in
  intern (check_uniform_scale f0 f1 IS_NEARLY_EQUAL almost_equal t) (ensure_states w).

(** Modelled from the spec: the same factory for a rotation given as a
    quaternion (4.2: "from_pos_quat_scale_shear"). *)
Definition make_pos_quat_scale_shear (pos : Vec3) (quat : LQuaternion PN_stdfloat)
    (scale shear : Vec3) (w : World PN_stdfloat) : CPT * World PN_stdfloat :=
  let t := mkTransformState
             (Z.lor F_components_given (Z.lor F_quat_given (Z.lor F_components_known
               (Z.lor F_quat_known F_has_components))))
             H_unknown pos zero3 quat ident_quat scale shear ident_mat None [] [] in
  intern (check_uniform_scale f0 f1 IS_NEARLY_EQUAL almost_equal t) (ensure_states w).

(** Modelled from the spec: the 2-d factory (3: "a value built exclusively
    from 2-D factory operations is flagged is_2d"; 4.2: "2-D analogs").  It
    keeps the position and the scale in x and y, the rotation where
    [get_rotate2d()] reads it back and the shear in [_shear[0]], where
    [get_shear2d()] reads it; [check_uniform_scale2d] runs on "a known 2-d
    scale". *)
Definition make_pos_rotate_scale_shear2d (pos : Vec2) (rotate : PN_stdfloat)
    (scale : Vec2) (shear : PN_stdfloat)
    (w : World PN_stdfloat) : CPT * World PN_stdfloat :=
  let hpr := match get_default_coordinate_system with
             | CS_zup_left => mkLVecBase3 (fneg rotate) f0 f0
             | CS_yup_right => mkLVecBase3 f0 f0 (fneg rotate)
             | CS_yup_left => mkLVecBase3 f0 f0 rotate
             | _ => mkLVecBase3 rotate f0 f0
             end in
  let t := mkTransformState
             (Z.lor F_components_given (Z.lor F_hpr_given (Z.lor F_components_known
               (Z.lor F_hpr_known (Z.lor F_has_components F_is_2d)))))
             H_unknown (mkLVecBase3 (v2_x pos) (v2_y pos) f0) hpr ident_quat ident_quat
             (mkLVecBase3 (v2_x scale) (v2_y scale) f1) (mkLVecBase3 shear f0 f0)
             ident_mat None [] [] in
  intern (check_uniform_scale2d f0 f1 IS_NEARLY_EQUAL almost_equal t) (ensure_states w).

(** Modelled from the spec: the factory of a value given by a general 4x4
    matrix (4.2: "from_matrix(m)"). *)
Definition make_mat (mat : LMatrix4 PN_stdfloat)
    (w : World PN_stdfloat) : CPT * World PN_stdfloat :=
  intern (or_flags (with_mat blank mat) F_mat_known) (ensure_states w).

(** ** Composition *)

(** Modelled from the spec: [compose] of transformState.cxx (4.3): "if a is
    identity, return b; if b is identity, return a; if either is invalid,
    return the invalid singleton; otherwise look up b in a's composition
    cache -- on hit return the cached result; on miss, compute the
    mathematical composition, intern it via the Registry, store it keyed by b
    in a's cache, and return it".  The composition applies one transform
    after the other: its matrix is the product of the two matrices.  A null
    operand is outside the contract and yields null. *)
Definition compose (this : addr) (other : CPT) (w : World PN_stdfloat)
  : CPT * World PN_stdfloat :=
  match other with
  | None => (None, w)
  | Some b =>
      if is_identity_at (statics w) this then (Some b, w)
      else if is_identity_at (statics w) b then (Some this, w)
      else if is_invalid_at (statics w) this || is_invalid_at (statics w) b
      then (_invalid_state (statics w), w)
      else
        match heap w !! this, heap w !! b with
        | Some ta, Some tb =>
            match cache_find (_composition_cache ta) b with
            | Some entry => (_result entry, w)
            | None =>
                let (r, w1) :=
                  make_mat (mat_multiply (transform_mat tb) (transform_mat ta)) w in
                (r, match heap w1 !! this with
                    | Some ta1 =>
                        with_heap w1
                          (<[this := with_composition_cache ta1
                                       (_composition_cache ta1 ++ [(b, mkComposition r)])]>
                             (heap w1))
                    | None => w1
                    end)
            end
        | _, _ => (None, w)
        end
  end.

(** Modelled from the spec: [invert_compose] of transformState.cxx (4.3:
    "same cache-then-compute pattern using a separate cache keyed the same
    way; contractually equivalent to composing a's inverse with b"; 7:
    "inverting a singular matrix is not an error; it yields the invalid
    singleton").  An invalid operand yields the invalid singleton, as in
    [compose]. *)
Definition invert_compose (this : addr) (other : CPT) (w : World PN_stdfloat)
  : CPT * World PN_stdfloat :=
  match other with
  | None => (None, w)
  | Some b =>
      if is_invalid_at (statics w) this || is_invalid_at (statics w) b
      then (_invalid_state (statics w), w)
      else
        match heap w !! this, heap w !! b with
        | Some ta, Some tb =>
            match cache_find (_invert_composition_cache ta) b with
            | Some entry => (_result entry, w)
            | None =>
                let (r, w1) :=
                  match invert_from (transform_mat ta) with
                  | Some inverse => make_mat (mat_multiply (transform_mat tb) inverse) w
                  | None => (_invalid_state (statics w), w)
                  end in
                (r, match heap w1 !! this with
                    | Some ta1 =>
                        with_heap w1
                          (<[this := with_invert_composition_cache ta1
                                       (_invert_composition_cache ta1
                                          ++ [(b, mkComposition r)])]>
                             (heap w1))
                    | None => w1
                    end)
            end
        | _, _ => (None, w)
        end
  end.

(** ** Calls on an object of the program state *)

(** [p->method()]: the method runs on the fields of the object at [p] and
    the fields it leaves are stored back. *)
Definition call {A} (method : Globals -> addr -> State -> A * State)
    (p : addr) (w : World PN_stdfloat) : option (A * World PN_stdfloat) :=
  match heap w !! p with
  | Some t =>
      let (a, t') := method (statics w) p t in
      Some (a, with_heap w (<[p := t']> (heap w)))
  | None => None
  end.

(** [p->is_2d()] on the value a factory returned. *)
Definition returned_is_2d (r : CPT * World PN_stdfloat) : option bool :=
  match fst r with
  | Some p => is_2d <$> heap (snd r) !! p
  | None => None
  end.

(** The state of a process that has not used the subsystem yet. *)
Definition initial_world (uniquify_matrix : bool) : World PN_stdfloat :=
  mkWorld (mkGlobals None None None uniquify_matrix) ∅ [].

(** ** The worlds of a scenario *)

(** A position, and the matrix the numeric library gives as the inverse of
    its translation. *)
Variable p : Vec3.
Variable inverse_p : LMatrix4 PN_stdfloat.

(** The candidate [make_pos_hpr_scale(p, 0, 1)] builds. *)
Definition translation_candidate : State :=
  check_uniform_scale f0 f1 IS_NEARLY_EQUAL almost_equal
    (mkTransformState
       (Z.lor F_components_given (Z.lor F_hpr_given (Z.lor F_components_known
         (Z.lor F_hpr_known F_has_components))))
       H_unknown p zero3 ident_quat ident_quat one3 zero3 ident_mat None [] []).

(** The static members once the subsystem is initialised from scratch. *)
Definition scenario_statics (um : bool) : Globals :=
  mkGlobals (Some TheStatesLock) (Some 1%positive) (Some 2%positive) um.

Definition scenario_heap0 : gmap addr State :=
  <[2%positive := invalid_object]> (<[1%positive := identity_object]> ∅).

(** The program state once a first transform [t] has been interned at
    address 3, and once its inverse [ti] has been interned at address 4 and
    entered in the invert-composition cache of [t]. *)
Definition scenario_world1 (um : bool) (t : State) : World PN_stdfloat :=
  mkWorld (scenario_statics um) (<[3%positive := t]> scenario_heap0)
    [1%positive; 3%positive].

Definition scenario_world3 (um : bool) (t ti : State) : World PN_stdfloat :=
  mkWorld (scenario_statics um)
    (<[3%positive := with_invert_composition_cache t
                       [(1%positive, mkComposition (Some 4%positive))]]>
       (<[4%positive := ti]> (<[3%positive := t]> scenario_heap0)))
    [1%positive; 3%positive; 4%positive].

(** The inline factories over the out-of-line ones above. *)
Local Abbreviation make_pos_hpr_scale' := (make_pos_hpr_scale f0 make_pos_hpr_scale_shear).
Local Abbreviation make_pos_quat_scale' := (make_pos_quat_scale f0 make_pos_quat_scale_shear).
Local Abbreviation make_pos' := (make_pos f0 f1 make_pos_hpr_scale_shear).
Local Abbreviation make_hpr' := (make_hpr f0 f1 make_pos_hpr_scale_shear).
Local Abbreviation make_quat' := (make_quat f0 f1 make_pos_quat_scale_shear).
Local Abbreviation make_pos_hpr' := (make_pos_hpr f0 f1 make_pos_hpr_scale_shear).
Local Abbreviation make_pos_quat' := (make_pos_quat f0 f1 make_pos_quat_scale_shear).
Local Abbreviation make_scale_vec' := (make_scale_vec f0 make_pos_hpr_scale_shear).
Local Abbreviation make_shear' := (make_shear f0 f1 make_pos_hpr_scale_shear).
Local Abbreviation make_pos_rotate_scale2d' :=
  (make_pos_rotate_scale2d f0 make_pos_rotate_scale_shear2d).
Local Abbreviation make_pos2d' := (make_pos2d f0 f1 make_pos_rotate_scale_shear2d).
Local Abbreviation make_rotate2d' := (make_rotate2d f0 f1 make_pos_rotate_scale_shear2d).
Local Abbreviation make_pos_rotate2d' :=
  (make_pos_rotate2d f0 f1 make_pos_rotate_scale_shear2d).
Local Abbreviation make_scale2d' := (make_scale2d f0 make_pos_rotate_scale_shear2d).
Local Abbreviation make_scale2d_vec' := (make_scale2d_vec f0 make_pos_rotate_scale_shear2d).
Local Abbreviation make_shear2d' := (make_shear2d f0 f1 make_pos_rotate_scale_shear2d).
Local Abbreviation make_scale' := (make_scale f0 make_pos_rotate_scale_shear2d).
Local Abbreviation get_inverse' := (get_inverse init_states invert_compose).

(** ** Requests, and the objects that 2-d factory operations create *)

(** What a caller asks of the subsystem: a singleton, a value from a
    factory, a composition, or the matrix or the inverse matrix of an
    object, which the object derives when it is first asked for. *)
Inductive Request : Type :=
  | Req_make_identity
  | Req_make_invalid
  | Req_make_pos (pos : Vec3)
  | Req_make_hpr (hpr : Vec3)
  | Req_make_quat (quat : LQuaternion PN_stdfloat)
  | Req_make_pos_hpr (pos hpr : Vec3)
  | Req_make_pos_quat (pos : Vec3) (quat : LQuaternion PN_stdfloat)
  | Req_make_scale (scale : PN_stdfloat)
  | Req_make_scale_vec (scale : Vec3)
  | Req_make_shear (shear : Vec3)
  | Req_make_pos_hpr_scale (pos hpr scale : Vec3)
  | Req_make_pos_quat_scale (pos : Vec3) (quat : LQuaternion PN_stdfloat) (scale : Vec3)
  | Req_make_pos_hpr_scale_shear (pos hpr scale shear : Vec3)
  | Req_make_pos_quat_scale_shear (pos : Vec3) (quat : LQuaternion PN_stdfloat)
      (scale shear : Vec3)
  | Req_make_mat (mat : LMatrix4 PN_stdfloat)
  | Req_make_pos2d (pos : Vec2)
  | Req_make_rotate2d (rotate : PN_stdfloat)
  | Req_make_pos_rotate2d (pos : Vec2) (rotate : PN_stdfloat)
  | Req_make_scale2d (scale : PN_stdfloat)
  | Req_make_scale2d_vec (scale : Vec2)
  | Req_make_shear2d (shear : PN_stdfloat)
  | Req_make_pos_rotate_scale2d (pos : Vec2) (rotate : PN_stdfloat) (scale : Vec2)
  | Req_make_pos_rotate_scale_shear2d (pos : Vec2) (rotate : PN_stdfloat) (scale : Vec2)
      (shear : PN_stdfloat)
  | Req_compose (this : addr) (other : CPT)
  | Req_invert_compose (this : addr) (other : CPT)
  | Req_get_inverse (this : addr)
  | Req_get_mat (this : addr)
  | Req_get_inverse_mat (this : addr).

(** The transform a request returns, if it returns one, and the program
    state it leaves. *)
Definition request (req : Request) (w : World PN_stdfloat) : CPT * World PN_stdfloat :=
  match req with
  | Req_make_identity => make_identity init_states w
  | Req_make_invalid => make_invalid init_states w
  | Req_make_pos pos => make_pos' pos w
  | Req_make_hpr hpr => make_hpr' hpr w
  | Req_make_quat quat => make_quat' quat w
  | Req_make_pos_hpr pos hpr => make_pos_hpr' pos hpr w
  | Req_make_pos_quat pos quat => make_pos_quat' pos quat w
  | Req_make_scale scale => make_scale' scale w
  | Req_make_scale_vec scale => make_scale_vec' scale w
  | Req_make_shear shear => make_shear' shear w
  | Req_make_pos_hpr_scale pos hpr scale => make_pos_hpr_scale' pos hpr scale w
  | Req_make_pos_quat_scale pos quat scale => make_pos_quat_scale' pos quat scale w
  | Req_make_pos_hpr_scale_shear pos hpr scale shear =>
      make_pos_hpr_scale_shear pos hpr scale shear w
  | Req_make_pos_quat_scale_shear pos quat scale shear =>
      make_pos_quat_scale_shear pos quat scale shear w
  | Req_make_mat mat => make_mat mat w
  | Req_make_pos2d pos => make_pos2d' pos w
  | Req_make_rotate2d rotate => make_rotate2d' rotate w
  | Req_make_pos_rotate2d pos rotate => make_pos_rotate2d' pos rotate w
  | Req_make_scale2d scale => make_scale2d' scale w
  | Req_make_scale2d_vec scale => make_scale2d_vec' scale w
  | Req_make_shear2d shear => make_shear2d' shear w
  | Req_make_pos_rotate_scale2d pos rotate scale =>
      make_pos_rotate_scale2d' pos rotate scale w
  | Req_make_pos_rotate_scale_shear2d pos rotate scale shear =>
      make_pos_rotate_scale_shear2d pos rotate scale shear w
  | Req_compose this other => compose this other w
  | Req_invert_compose this other => invert_compose this other w
  | Req_get_inverse this => get_inverse' this w
  | Req_get_mat this =>
      (None,
       match call (fun gl this => get_mat f0 f1 gl this do_calc_mat) this w with
       | Some (_, w1) => w1
       | None => w
       end)
  | Req_get_inverse_mat this =>
      (None,
       match call (fun _ _ => get_inverse_mat calc_singular) this w with
       | Some (_, w1) => w1
       | None => w
       end)
  end.

(** The requests that are factories. *)
Definition is_factory (req : Request) : bool :=
  match req with
  | Req_make_identity | Req_make_invalid | Req_compose _ _ | Req_invert_compose _ _
  | Req_get_inverse _ | Req_get_mat _ | Req_get_inverse_mat _ => false
  | _ => true
  end.

(** The 2-d factory operations: the factories that are named 2-d, and
    [make_scale(PN_stdfloat)], which is [make_scale2d]. *)
Definition builds_2d (req : Request) : bool :=
  match req with
  | Req_make_pos2d _ | Req_make_rotate2d _ | Req_make_pos_rotate2d _ _
  | Req_make_scale2d _ | Req_make_scale2d_vec _ | Req_make_shear2d _
  | Req_make_pos_rotate_scale2d _ _ _ | Req_make_pos_rotate_scale_shear2d _ _ _ _
  | Req_make_scale _ => true
  | _ => false
  end.

(** The object the result [r] of a request made in [w] is new with: the
    transform returned, when it is an object now and there was no such
    object once the subsystem was initialised. *)
Definition new_object (w : World PN_stdfloat) (r : CPT * World PN_stdfloat) : option addr :=
  match fst r with
  | Some q =>
      match heap (ensure_states w) !! q, heap (snd r) !! q with
      | None, Some _ => Some q
      | _, _ => None
      end
  | None => None
  end.

(** The object a request creates. *)
Definition created (req : Request) (w : World PN_stdfloat) : option addr :=
  new_object w (request req w).

(** The program state after a sequence of requests, and the objects that
    2-d factory operations have created: those of [made_2d], created before,
    and those the requests create. *)
Fixpoint requests (reqs : list Request) (w : World PN_stdfloat) (made_2d : gset addr)
  : World PN_stdfloat * gset addr :=
  match reqs with
  | [] => (w, made_2d)
  | req :: rest =>
      requests rest (snd (request req w))
        (match created req w with
         | Some q => if builds_2d req then {[q]} ∪ made_2d else made_2d
         | None => made_2d
         end)
  end.

(** [made_2d] holds the 2-d objects of [w]: an object is 2-d exactly when it
    is one of them, each of them is an object, and the singletons are objects
    that are not 2-d. *)
Definition records_2d (w : World PN_stdfloat) (made_2d : gset addr) : Prop :=
  (forall q t, heap w !! q = Some t -> (is_2d t = true <-> q ∈ made_2d)) /\
  (forall q, q ∈ made_2d -> exists t, heap w !! q = Some t) /\
  (forall q, is_identity_at (statics w) q || is_invalid_at (statics w) q = true ->
             exists t, heap w !! q = Some t /\ is_2d t = false).

(** [w1] has the objects of [w], each 2-d or not as it was. *)
Definition keeps_objects (w w1 : World PN_stdfloat) : Prop :=
  forall q t, heap w !! q = Some t ->
              exists t1, heap w1 !! q = Some t1 /\ is_2d t1 = is_2d t.

(** How the result of a request comes about from [w]: the state is left as
    it is, or the subsystem is initialised, or a candidate that is 2-d
    exactly when [d] is interned once it is; and then objects may have
    derived or cached something, which leaves them 2-d or not as they
    were. *)
Inductive outcome (d : bool) (w : World PN_stdfloat) : CPT * World PN_stdfloat -> Prop :=
  | outcome_kept (r : CPT) : outcome d w (r, w)
  | outcome_initialised (r : CPT) : outcome d w (r, ensure_states w)
  | outcome_interned (candidate : State) :
      is_2d candidate = d -> outcome d w (intern candidate (ensure_states w))
  | outcome_derived (r : CPT) (w1 : World PN_stdfloat) (q : addr) (t t1 : State) :
      outcome d w (r, w1) -> heap w1 !! q = Some t -> is_2d t1 = is_2d t ->
      outcome d w (r, with_heap w1 (<[q := t1]> (heap w1))).

(** ** The modelled calculations keep the promises of the [check_*] methods *)

Lemma calc_singular_inverse_stored (t : State) : inverse_stored (calc_singular t).
Proof using Type.
  unfold inverse_stored, calc_singular.
  destruct (invert_from (transform_mat t)) as [inverse|].
  - intros _. simpl. discriminate.
  - rewrite flag_set_or_flags.
    change (flag_set (Z.lor F_is_singular F_singular_known) F_is_singular) with true.
    rewrite orb_true_r. discriminate.
Qed.

Lemma calc_singular_sets_known (t : State) :
  flag_set (_flags (calc_singular t)) F_singular_known = true.
Proof using Type.
  unfold calc_singular.
  destruct (invert_from (transform_mat t)); rewrite flag_set_or_flags;
    apply orb_true_r.
Qed.

Lemma do_calc_mat_sets_known (t : State) :
  flag_set (_flags (do_calc_mat t)) F_mat_known = true.
Proof using Type.
  unfold do_calc_mat. rewrite flag_set_or_flags. apply orb_true_r.
Qed.

Lemma do_calc_mat_keeps_is_2d (t : State) : is_2d (do_calc_mat t) = is_2d t.
Proof using Type.
  unfold do_calc_mat, is_2d. rewrite flag_set_or_flags. apply orb_false_r.
Qed.

(** ** Which objects are 2-d *)

Lemma check_uniform_scale_is_2d (t : State) :
  is_2d (check_uniform_scale f0 f1 IS_NEARLY_EQUAL almost_equal t) = is_2d t.
Proof using Type.
  unfold check_uniform_scale, is_2d.
  repeat match goal with
         | |- context [if ?c then _ else _] => destruct c
         end;
    repeat rewrite flag_set_or_flags; simpl;
    rewrite ?orb_false_r; reflexivity.
Qed.

Lemma check_uniform_scale2d_is_2d (t : State) :
  is_2d (check_uniform_scale2d f0 f1 IS_NEARLY_EQUAL almost_equal t) = is_2d t.
Proof using Type.
  unfold check_uniform_scale2d, is_2d.
  repeat match goal with
         | |- context [if ?c then _ else _] => destruct c
         end;
    repeat rewrite flag_set_or_flags; simpl;
    rewrite ?orb_false_r; reflexivity.
Qed.

Lemma calc_singular_keeps_is_2d (t : State) : is_2d (calc_singular t) = is_2d t.
Proof using Type.
  unfold calc_singular, is_2d.
  destruct (invert_from (transform_mat t)); rewrite flag_set_or_flags;
    apply orb_false_r.
Qed.

(** *** The subsystem's initialisation *)

Lemma ensure_states_cases (w : World PN_stdfloat) :
  ensure_states w = w \/ ensure_states w = init_states w.
Proof using Type.
  unfold ensure_states, make_identity.
  destruct (_states_lock (statics w)); [left | right]; reflexivity.
Qed.

Lemma ensure_states_idem (w : World PN_stdfloat) :
  ensure_states (ensure_states w) = ensure_states w.
Proof using Type.
  unfold ensure_states, make_identity.
  destruct (_states_lock (statics w)) eqn:E; cbn [snd].
  - rewrite E. reflexivity.
  - reflexivity.
Qed.

Lemma init_states_fresh (w : World PN_stdfloat) :
  let q1 := fresh (dom (heap w)) in
  let q2 := fresh (dom (<[q1 := identity_object]> (heap w))) in
  heap w !! q1 = None /\ heap w !! q2 = None /\ q1 <> q2.
Proof using Type.
  intros q1 q2.
  assert (H1 : q1 ∉ dom (heap w)) by apply is_fresh.
  assert (H2 : q2 ∉ dom (<[q1 := identity_object]> (heap w))) by apply is_fresh.
  apply not_elem_of_dom in H1. apply not_elem_of_dom in H2.
  split; [exact H1|].
  destruct (decide (q1 = q2)) as [E|E].
  - rewrite <- E, lookup_insert_eq in H2. discriminate.
  - rewrite lookup_insert_ne in H2 by exact E. split; assumption.
Qed.

Lemma init_states_keeps (w : World PN_stdfloat) (q : addr) (t : State) :
  heap w !! q = Some t -> heap (init_states w) !! q = Some t.
Proof using Type.
  intros H. destruct (init_states_fresh w) as (H1 & H2 & _).
  unfold init_states. cbn [heap].
  rewrite !lookup_insert_ne; [exact H | congruence | congruence].
Qed.

Lemma init_states_new (w : World PN_stdfloat) (q : addr) (t : State) :
  heap (init_states w) !! q = Some t -> heap w !! q = None -> is_2d t = false.
Proof using Type.
  unfold init_states. cbn [heap]. intros H Hnone.
  apply lookup_insert_Some in H. destruct H as [[_ <-]|[_ H]]; [reflexivity|].
  apply lookup_insert_Some in H. destruct H as [[_ <-]|[_ H]]; [reflexivity|].
  congruence.
Qed.

Lemma init_states_singletons (w : World PN_stdfloat) (q : addr) :
  is_identity_at (statics (init_states w)) q || is_invalid_at (statics (init_states w)) q
    = true ->
  exists t, heap (init_states w) !! q = Some t /\ is_2d t = false.
Proof using Type.
  destruct (init_states_fresh w) as (_ & _ & Hne).
  unfold init_states, is_identity_at, is_invalid_at. cbn [statics heap
    _identity_state _invalid_state].
  intros H. apply orb_true_iff in H.
  destruct H as [H|H]; apply bool_decide_eq_true in H; injection H as ->.
  - exists identity_object. split; [|reflexivity].
    rewrite lookup_insert_ne by (intros E; apply Hne; symmetry; exact E).
    apply lookup_insert_eq.
  - exists invalid_object. split; [|reflexivity]. apply lookup_insert_eq.
Qed.

Lemma ensure_states_keeps (w : World PN_stdfloat) (q : addr) (t : State) :
  heap w !! q = Some t -> heap (ensure_states w) !! q = Some t.
Proof using Type.
  destruct (ensure_states_cases w) as [-> | ->];
    [trivial | apply init_states_keeps].
Qed.

Lemma ensure_states_new (w : World PN_stdfloat) (q : addr) (t : State) :
  heap (ensure_states w) !! q = Some t -> heap w !! q = None -> is_2d t = false.
Proof using Type.
  destruct (ensure_states_cases w) as [-> | ->];
    [congruence | apply init_states_new].
Qed.

Lemma ensure_states_absent (w : World PN_stdfloat) (q : addr) :
  heap (ensure_states w) !! q = None -> heap w !! q = None.
Proof using Type.
  intros H. destruct (heap w !! q) as [t|] eqn:E; [|reflexivity].
  apply ensure_states_keeps in E. congruence.
Qed.

(** *** The registry *)

Lemma intern_cases (candidate : State) (w : World PN_stdfloat) :
  (exists q t, intern candidate w = (Some q, w) /\ In q (_states w) /\
               heap w !! q = Some t /\ same_value t candidate = true) \/
  (intern candidate w =
     (Some (fresh (dom (heap w))),
      mkWorld (statics w) (<[fresh (dom (heap w)) := candidate]> (heap w))
        (_states w ++ [fresh (dom (heap w))])) /\
   heap w !! fresh (dom (heap w)) = None /\
   forall q t, In q (_states w) -> heap w !! q = Some t ->
               same_value t candidate = false).
Proof using Type.
  unfold intern.
  destruct (find _ (_states w)) as [q|] eqn:E.
  - left. apply find_some in E. destruct E as [Hin Hq].
    destruct (heap w !! q) as [t|] eqn:Et; [|discriminate].
    exists q, t. repeat split; assumption.
  - right. split; [reflexivity|]. split.
    + apply not_elem_of_dom. apply is_fresh.
    + intros q t Hin Hq.
      pose proof (find_none _ _ E q Hin) as Hnone. cbv beta in Hnone.
      rewrite Hq in Hnone. exact Hnone.
Qed.

(** *** What a request does to the objects *)

Lemma outcome_of_initialised (d : bool) (w : World PN_stdfloat)
    (r : CPT * World PN_stdfloat) :
  outcome d (ensure_states w) r -> outcome d w r.
Proof using Type.
  induction 1 as [r|r|candidate Hd|r w1 q t t1 _ IH Hq Ht].
  - apply outcome_initialised.
  - rewrite ensure_states_idem. apply outcome_initialised.
  - rewrite ensure_states_idem. apply outcome_interned. exact Hd.
  - eapply outcome_derived; eassumption.
Qed.

Lemma outcome_keeps (d : bool) (w : World PN_stdfloat) (r : CPT * World PN_stdfloat) :
  outcome d w r -> keeps_objects w (snd r).
Proof using Type.
  induction 1 as [r|r|candidate Hd|r w1 q t t1 _ IH Hq Ht]; cbn [snd] in *.
  - intros q t H. exists t. split; [exact H | reflexivity].
  - intros q t H. exists t. split; [apply ensure_states_keeps; exact H | reflexivity].
  - intros q t H. apply ensure_states_keeps in H. exists t. split; [|reflexivity].
    destruct (intern_cases candidate (ensure_states w))
      as [(q' & t' & -> & _)|(-> & Hfresh & _)]; cbn [snd heap]; [exact H|].
    rewrite lookup_insert_ne by congruence. exact H.
  - intros q' t' H. destruct (IH q' t' H) as (t2 & H2 & E2).
    unfold with_heap. cbn [heap].
    destruct (decide (q = q')) as [<-|Hne].
    + exists t1. rewrite lookup_insert_eq. split; [reflexivity|]. congruence.
    + exists t2. rewrite lookup_insert_ne by exact Hne. split; assumption.
Qed.

(** An object that a request adds to those of the initialised subsystem is
    the transform it returns, and is 2-d exactly when [d]; the objects the
    initialisation adds are not 2-d. *)
Lemma outcome_new (d : bool) (w : World PN_stdfloat) (r : CPT * World PN_stdfloat) :
  outcome d w r ->
  forall q t, heap (snd r) !! q = Some t -> heap w !! q = None ->
    match heap (ensure_states w) !! q with
    | Some _ => is_2d t = false
    | None => fst r = Some q /\ is_2d t = d
    end.
Proof using Type.
  induction 1 as [r|r|candidate Hd|r w1 q0 t0 t1 _ IH Hq Ht]; cbn [fst snd] in *;
    intros q t H Hnone.
  - congruence.
  - rewrite H. eapply ensure_states_new; eassumption.
  - destruct (intern_cases candidate (ensure_states w))
      as [(q' & t' & E & _)|(E & Hfresh & _)]; rewrite E in *; cbn [fst snd heap] in *.
    + rewrite H. eapply ensure_states_new; eassumption.
    + apply lookup_insert_Some in H. destruct H as [[<- <-]|[_ H]].
      * rewrite Hfresh. split; [reflexivity | exact Hd].
      * rewrite H. eapply ensure_states_new; eassumption.
  - unfold with_heap in H. cbn [heap] in H.
    apply lookup_insert_Some in H. destruct H as [[<- <-]|[_ H]].
    + specialize (IH q0 t0 Hq Hnone). rewrite Ht. exact IH.
    + exact (IH q t H Hnone).
Qed.

Lemma outcome_statics (d : bool) (w : World PN_stdfloat) (r : CPT * World PN_stdfloat) :
  outcome d w r ->
  statics (snd r) = statics w \/
  (statics (snd r) = statics (ensure_states w) /\ keeps_objects (ensure_states w) (snd r)).
Proof using Type.
  induction 1 as [r|r|candidate Hd|r w1 q0 t0 t1 _ IH Hq Ht]; cbn [snd] in *.
  - left. reflexivity.
  - right. split; [reflexivity|]. intros q t H. exists t. split; [exact H | reflexivity].
  - right.
    destruct (intern_cases candidate (ensure_states w))
      as [(q' & t' & -> & _)|(-> & Hfresh & _)]; cbn [snd statics heap];
      (split; [reflexivity|]); intros q t H; exists t; (split; [|reflexivity]);
      cbn [heap]; [exact H|].
    rewrite lookup_insert_ne by congruence. exact H.
  - destruct IH as [IH|[IH1 IH2]]; [left; exact IH | right].
    split; [exact IH1|].
    intros q t H. destruct (IH2 q t H) as (t2 & H2 & E2).
    unfold with_heap. cbn [heap].
    destruct (decide (q0 = q)) as [<-|Hne].
    + exists t1. rewrite lookup_insert_eq. split; [reflexivity|]. congruence.
    + exists t2. rewrite lookup_insert_ne by exact Hne. split; assumption.
Qed.

Lemma outcome_new_object (d : bool) (w : World PN_stdfloat) (r : CPT * World PN_stdfloat)
    (q : addr) :
  outcome d w r -> new_object w r = Some q ->
  fst r = Some q /\ heap (ensure_states w) !! q = None /\ returned_is_2d r = Some d.
Proof using Type.
  intros Ho Hnew. unfold new_object in Hnew. unfold returned_is_2d.
  destruct (fst r) as [q'|] eqn:Er; [|discriminate].
  destruct (heap (ensure_states w) !! q') eqn:E0; [discriminate|].
  destruct (heap (snd r) !! q') as [t|] eqn:E1; [|discriminate].
  injection Hnew as ->.
  pose proof (outcome_new d w r Ho q t E1 (ensure_states_absent w q E0)) as Hd.
  rewrite E0 in Hd. destruct Hd as [_ Hd].
  split; [reflexivity|]. split; [exact E0|].
  cbn [fmap option_fmap option_map]. rewrite Hd. reflexivity.
Qed.

Lemma outcome_records (d : bool) (w : World PN_stdfloat) (r : CPT * World PN_stdfloat)
    (made_2d : gset addr) :
  outcome d w r -> records_2d w made_2d ->
  records_2d (snd r)
    (match new_object w r with
     | Some q => if d then {[q]} ∪ made_2d else made_2d
     | None => made_2d
     end).
Proof using Type.
  intros Ho (I1 & I2 & I3).
  pose proof (outcome_keeps d w r Ho) as Hkeep.
  pose proof (outcome_new d w r Ho) as Hnew.
  assert (Hold : forall q, new_object w r = Some q -> heap w !! q = None /\ q ∉ made_2d).
  { intros q Hq. destruct (outcome_new_object d w r q Ho Hq) as (_ & H0 & _).
    apply ensure_states_absent in H0. split; [exact H0|].
    intros Hin. destruct (I2 q Hin) as (t & Ht). congruence. }
  assert (Hin : forall q,
            q ∈ (match new_object w r with
                 | Some q0 => if d then {[q0]} ∪ made_2d else made_2d
                 | None => made_2d
                 end) <->
            q ∈ made_2d \/ (new_object w r = Some q /\ d = true)).
  { intros q. destruct (new_object w r) as [q0|]; [destruct d|].
    - rewrite elem_of_union, elem_of_singleton. split.
      + intros [->|H]; [right; split; reflexivity | left; exact H].
      + intros [H|[H _]]; [right; exact H | left; congruence].
    - split; [intros H; left; exact H | intros [H|[_ H]]; [exact H | discriminate]].
    - split; [intros H; left; exact H | intros [H|[H _]]; [exact H | discriminate]]. }
  split; [|split].
  - intros q t1 H1. rewrite Hin.
    destruct (heap w !! q) as [t|] eqn:E.
    + destruct (Hkeep q t E) as (t1' & H1' & E1).
      assert (t1' = t1) by congruence. subst t1'.
      rewrite E1, (I1 q t E). split; [intros H; left; exact H|].
      intros [H|[H _]]; [exact H|]. apply Hold in H. destruct H as [H _]. congruence.
    + specialize (Hnew q t1 H1 E).
      assert (Hnot : q ∉ made_2d).
      { intros Hq. destruct (I2 q Hq) as (t & Ht). congruence. }
      destruct (heap (ensure_states w) !! q) as [t0|] eqn:E0.
      * rewrite Hnew. split; [discriminate|].
        intros [H|[H _]]; [contradiction|].
        destruct (outcome_new_object d w r q Ho H) as (_ & H0 & _). congruence.
      * destruct Hnew as [Hr Hd]. rewrite Hd. split.
        -- intros ->. right. split; [|reflexivity].
           unfold new_object. rewrite Hr, E0, H1. reflexivity.
        -- intros [H|[_ H]]; [contradiction | exact H].
  - intros q Hq. apply Hin in Hq. destruct Hq as [Hq|[Hq _]].
    + destruct (I2 q Hq) as (t & Ht). destruct (Hkeep q t Ht) as (t1 & H1 & _).
      exists t1. exact H1.
    + unfold new_object in Hq. destruct (fst r) as [q'|]; [|discriminate].
      destruct (heap (ensure_states w) !! q'); [discriminate|].
      destruct (heap (snd r) !! q') as [t|] eqn:E; [|discriminate].
      injection Hq as <-. exists t. exact E.
  - intros q Hq.
    destruct (outcome_statics d w r Ho) as [Hs|[Hs Hk]]; rewrite Hs in Hq.
    + destruct (I3 q Hq) as (t & Ht & E). destruct (Hkeep q t Ht) as (t1 & H1 & E1).
      exists t1. split; [exact H1 | congruence].
    + assert (Hq0 : exists t, heap (ensure_states w) !! q = Some t /\ is_2d t = false).
      { destruct (ensure_states_cases w) as [Ee|Ee]; rewrite Ee in *.
        - apply I3. exact Hq.
        - apply init_states_singletons. exact Hq. }
      destruct Hq0 as (t & Ht & E). destruct (Hk q t Ht) as (t1 & H1 & E1).
      exists t1. split; [exact H1 | congruence].
Qed.

(** *** Each request *)

(** A factory interns a candidate, 2-d or not as the factory is, once the
    subsystem is initialised. *)
Lemma factory_interns (req : Request) :
  is_factory req = true ->
  exists candidate,
    is_2d candidate = builds_2d req /\
    forall w, request req w = intern candidate (ensure_states w).
Proof using Type.
  destruct req; try discriminate; intros _;
    (eexists; split; [|intros w; reflexivity]);
    rewrite ?check_uniform_scale_is_2d, ?check_uniform_scale2d_is_2d; reflexivity.
Qed.

Lemma call_outcome {A} (d : bool) (method : Globals -> addr -> State -> A * State)
    (this : addr) (w : World PN_stdfloat) :
  (forall gl q t, is_2d (snd (method gl q t)) = is_2d t) ->
  outcome d w (None, match call method this w with
                     | Some (_, w1) => w1
                     | None => w
                     end).
Proof using Type.
  intros Hm. unfold call.
  destruct (heap w !! this) as [t|] eqn:E; [|apply outcome_kept].
  specialize (Hm (statics w) this t).
  destruct (method (statics w) this t) as [a t1]. cbn [snd] in Hm.
  eapply outcome_derived; [apply outcome_kept | exact E | exact Hm].
Qed.

Lemma make_mat_outcome (mat : LMatrix4 PN_stdfloat) (w : World PN_stdfloat) :
  outcome false w (make_mat mat w).
Proof using Type. unfold make_mat. apply outcome_interned. reflexivity. Qed.

Lemma cached_outcome (d : bool) (w : World PN_stdfloat) (r : CPT * World PN_stdfloat)
    (this : addr) (cache : State -> State) :
  (forall t, is_2d (cache t) = is_2d t) ->
  outcome d w r ->
  outcome d w (fst r, match heap (snd r) !! this with
                      | Some ta1 => with_heap (snd r) (<[this := cache ta1]> (heap (snd r)))
                      | None => snd r
                      end).
Proof using Type.
  intros Hc Ho. destruct r as [r0 w1]. cbn [fst snd].
  destruct (heap w1 !! this) as [ta1|] eqn:E; [|exact Ho].
  eapply outcome_derived; [exact Ho | exact E | apply Hc].
Qed.

Lemma compose_outcome (this : addr) (other : CPT) (w : World PN_stdfloat) :
  outcome false w (compose this other w).
Proof using Type.
  unfold compose.
  destruct other as [b|]; [|apply outcome_kept].
  destruct (is_identity_at (statics w) this); [apply outcome_kept|].
  destruct (is_identity_at (statics w) b); [apply outcome_kept|].
  destruct (is_invalid_at (statics w) this || is_invalid_at (statics w) b);
    [apply outcome_kept|].
  destruct (heap w !! this) as [ta|]; [|apply outcome_kept].
  destruct (heap w !! b) as [tb|]; [|apply outcome_kept].
  destruct (cache_find (_composition_cache ta) b) as [entry|]; [apply outcome_kept|].
  pose proof (make_mat_outcome (mat_multiply (transform_mat tb) (transform_mat ta)) w)
    as Ho.
  destruct (make_mat (mat_multiply (transform_mat tb) (transform_mat ta)) w) as [r w1].
  apply (cached_outcome false w (r, w1) this
           (fun ta1 => with_composition_cache ta1
                         (_composition_cache ta1 ++ [(b, mkComposition r)])));
    [reflexivity | exact Ho].
Qed.

Lemma invert_compose_outcome (this : addr) (other : CPT) (w : World PN_stdfloat) :
  outcome false w (invert_compose this other w).
Proof using Type.
  unfold invert_compose.
  destruct other as [b|]; [|apply outcome_kept].
  destruct (is_invalid_at (statics w) this || is_invalid_at (statics w) b);
    [apply outcome_kept|].
  destruct (heap w !! this) as [ta|]; [|apply outcome_kept].
  destruct (heap w !! b) as [tb|]; [|apply outcome_kept].
  destruct (cache_find (_invert_composition_cache ta) b) as [entry|];
    [apply outcome_kept|].
  assert (Ho : outcome false w
                 match invert_from (transform_mat ta) with
                 | Some inverse => make_mat (mat_multiply (transform_mat tb) inverse) w
                 | None => (_invalid_state (statics w), w)
                 end).
  { destruct (invert_from (transform_mat ta));
      [apply make_mat_outcome | apply outcome_kept]. }
  destruct (match invert_from (transform_mat ta) with
            | Some inverse => make_mat (mat_multiply (transform_mat tb) inverse) w
            | None => (_invalid_state (statics w), w)
            end) as [r w1].
  apply (cached_outcome false w (r, w1) this
           (fun ta1 => with_invert_composition_cache ta1
                         (_invert_composition_cache ta1 ++ [(b, mkComposition r)])));
    [reflexivity | exact Ho].
Qed.

Lemma request_outcome (req : Request) (w : World PN_stdfloat) :
  outcome (builds_2d req) w (request req w).
Proof using Type.
  destruct (is_factory req) eqn:Ef.
  - destruct (factory_interns req Ef) as (candidate & Hd & E).
    rewrite E. apply outcome_interned. exact Hd.
  - destruct req; try discriminate Ef; cbn [request builds_2d].
    + apply (outcome_initialised false w).
    + apply (outcome_initialised false w).
    + apply compose_outcome.
    + apply invert_compose_outcome.
    + apply outcome_of_initialised. apply invert_compose_outcome.
    + apply call_outcome. intros gl q t. unfold get_mat.
      destruct (has_mat gl q); [|reflexivity]. cbn [snd].
      unfold check_mat, calc_mat.
      destruct (Z.land (_flags t) F_mat_known =? 0);
        [apply do_calc_mat_keeps_is_2d | reflexivity].
    + apply call_outcome. intros gl q t. unfold get_inverse_mat, is_singular.
      assert (H : is_2d (check_singular calc_singular t) = is_2d t).
      { unfold check_singular.
        destruct (Z.land (_flags t) F_singular_known =? 0);
          [apply calc_singular_keeps_is_2d | reflexivity]. }
      destruct (negb _); exact H.
Qed.

Lemma requests_records (reqs : list Request) (w : World PN_stdfloat)
    (made_2d : gset addr) :
  records_2d w made_2d ->
  records_2d (fst (requests reqs w made_2d)) (snd (requests reqs w made_2d)).
Proof using Type.
  revert w made_2d. induction reqs as [|req rest IH]; intros w made_2d H; [exact H|].
  cbn [requests]. apply IH.
  apply (outcome_records (builds_2d req) w (request req w) made_2d);
    [apply request_outcome | exact H].
Qed.

Lemma initial_world_records (um : bool) : records_2d (initial_world um) ∅.
Proof using Type.
  split; [|split].
  - intros q t H. unfold initial_world in H. cbn [heap] in H.
    rewrite lookup_empty in H. discriminate.
  - intros q H. apply elem_of_empty in H. destruct H.
  - intros q H. discriminate H.
Qed.


(** ** A translation, its composition with the identity, and its inverse *)

(** What the numeric library gives at the position [p]. *)
Hypothesis compose_matrix_translation : compose_matrix one3 zero3 zero3 p = translate_mat p.
Hypothesis invert_translation : invert_from (translate_mat p) = Some inverse_p.
Hypothesis multiply_ident_l : mat_multiply ident_mat inverse_p = inverse_p.
Hypothesis multiply_inverse : mat_multiply (translate_mat p) inverse_p = ident_mat.
Hypothesis translation_not_identity : mat_almost_equal ident_mat (translate_mat p) = false.
Hypothesis inverse_not_identity : mat_almost_equal ident_mat inverse_p = false.
Hypothesis inverse_not_translation :
  mat_almost_equal (translate_mat p) inverse_p = false.
Hypothesis ident_almost_equal : mat_almost_equal ident_mat ident_mat = true.

Lemma or_flags_or_flags (t : State) (a b : Z) :
  or_flags (or_flags t a) b = or_flags t (Z.lor a b).
Proof using Type.
  unfold or_flags, with_flags. simpl. rewrite Z.lor_assoc. reflexivity.
Qed.

Lemma or_flags_0 (t : State) : or_flags t 0 = t.
Proof using Type.
  destruct t. unfold or_flags, with_flags. simpl. rewrite Z.lor_0_r. reflexivity.
Qed.

(** [check_uniform_scale] only sets flags, and only the three it is about. *)
Lemma check_uniform_scale_sets_flags (t : State) :
  exists extra,
    check_uniform_scale f0 f1 IS_NEARLY_EQUAL almost_equal t = or_flags t extra /\
    forall k, flag_set F_uniform_scale k = false ->
              flag_set F_identity_scale k = false ->
              flag_set F_has_nonzero_shear k = false ->
              flag_set extra k = false.
Proof using Type.
  unfold check_uniform_scale.
  repeat match goal with
         | |- context [if ?c then _ else _] => destruct c
         end;
    rewrite ?or_flags_or_flags;
    first [ eexists; split; [reflexivity|]
          | exists 0; split; [symmetry; apply or_flags_0|] ];
    intros k H1 H2 H3; rewrite ?flag_set_or, ?H1, ?H2, ?H3; reflexivity.
Qed.

Lemma translation_candidate_facts :
  let t := translation_candidate in
  let t' := check_mat do_calc_mat t in
  transform_mat t = translate_mat p /\ is_2d t = false /\
  _mat t' = translate_mat p /\ transform_mat t' = translate_mat p /\
  is_2d t' = false /\
  _composition_cache t' = [] /\ _invert_composition_cache t' = [].
Proof using compose_matrix_translation.
  unfold translation_candidate.
  destruct (check_uniform_scale_sets_flags
    (mkTransformState
       (Z.lor F_components_given (Z.lor F_hpr_given (Z.lor F_components_known
         (Z.lor F_hpr_known F_has_components))))
       H_unknown p zero3 ident_quat ident_quat one3 zero3 ident_mat None [] []))
    as [extra [-> Hextra]].
  assert (Hm : flag_set extra F_mat_known = false) by (apply Hextra; reflexivity).
  assert (H2 : flag_set extra F_is_2d = false) by (apply Hextra; reflexivity).
  match goal with |- context [transform_mat ?t] => set (t0 := t) end.
  assert (Hchk : check_mat do_calc_mat t0 =
                 or_flags (with_mat t0 (translate_mat p)) F_mat_known).
  { unfold check_mat, calc_mat.
    assert (E : flag_set (_flags t0) F_mat_known = false).
    { unfold t0. rewrite flag_set_or_flags, Hm. reflexivity. }
    unfold flag_set in E. apply negb_false_iff in E. rewrite E.
    unfold do_calc_mat.
    assert (Eh : flag_set (_flags t0) F_hpr_known = true).
    { unfold t0. rewrite flag_set_or_flags. reflexivity. }
    rewrite Eh.
    change (_scale t0) with one3. change (_shear t0) with zero3.
    change (_hpr t0) with zero3. change (_pos t0) with p.
    rewrite compose_matrix_translation. reflexivity. }
  assert (Hchk2 : check_mat do_calc_mat (check_mat do_calc_mat t0) =
                  check_mat do_calc_mat t0).
  { rewrite Hchk. unfold check_mat at 1.
    assert (E : flag_set (_flags (or_flags (with_mat t0 (translate_mat p)) F_mat_known))
                  F_mat_known = true).
    { rewrite flag_set_or_flags. apply orb_true_r. }
    unfold flag_set in E. apply negb_true_iff in E. rewrite E. reflexivity. }
  assert (H2d : is_2d t0 = false).
  { unfold is_2d, t0. rewrite flag_set_or_flags, H2. reflexivity. }
  unfold transform_mat. rewrite Hchk2, Hchk.
  repeat split; try reflexivity; try exact H2d.
  unfold is_2d. rewrite flag_set_or_flags. cbn [with_mat _flags].
  fold (is_2d t0). rewrite H2d. reflexivity.
Qed.


Lemma intern_miss (candidate : State) (w : World PN_stdfloat) :
  (forall q t, In q (_states w) -> heap w !! q = Some t ->
               same_value t candidate = false) ->
  intern candidate w =
  (Some (fresh (dom (heap w))),
   mkWorld (statics w) (<[fresh (dom (heap w)) := candidate]> (heap w))
     (_states w ++ [fresh (dom (heap w))])).
Proof using Type.
  intros Hmiss. unfold intern.
  destruct (find _ (_states w)) as [q|] eqn:E; [|reflexivity].
  apply find_some in E. destruct E as [Hin Hq].
  destruct (heap w !! q) as [t|] eqn:Et; [|discriminate].
  rewrite (Hmiss q t Hin Et) in Hq. discriminate.
Qed.

Lemma intern_hit_first (candidate t : State) (w : World PN_stdfloat) (q : addr)
    (rest : list addr) :
  _states w = q :: rest -> heap w !! q = Some t -> same_value t candidate = true ->
  intern candidate w = (Some q, w).
Proof using Type.
  intros Hs Hq Hsame. unfold intern. rewrite Hs. cbn [find]. rewrite Hq, Hsame.
  reflexivity.
Qed.

Lemma scenario_step1 (um : bool) (t : State) :
  transform_mat t = translate_mat p ->
  intern t (ensure_states (initial_world um)) =
  (Some 3%positive,
   mkWorld (scenario_statics um) (<[3%positive := t]> scenario_heap0)
     [1%positive; 3%positive]).
Proof using translation_not_identity.
  intros Hmat. rewrite intern_miss; [reflexivity|].
  intros q t' Hin Hq.
  change (_states (ensure_states (initial_world um))) with [1%positive] in Hin.
  destruct Hin as [<-|[]].
  change (heap (ensure_states (initial_world um)) !! 1%positive)
    with (Some identity_object) in Hq.
  injection Hq as <-.
  unfold same_value. rewrite Hmat.
  change (transform_mat identity_object) with ident_mat.
  exact translation_not_identity.
Qed.

Lemma scenario_step2 (um : bool) (t : State) :
  call (fun gl this => get_mat f0 f1 gl this do_calc_mat) 3%positive
       (scenario_world1 um t) =
  Some (Returned (transform_mat t),
        scenario_world1 um (check_mat do_calc_mat t)).
Proof using Type.
  unfold call, scenario_world1. cbn [heap statics].
  change ((<[3%positive := t]> scenario_heap0) !! 3%positive) with (Some t).
  unfold get_mat. change (has_mat (scenario_statics um) 3%positive) with true.
  cbn iota. unfold with_heap. cbn [heap statics _states].
  rewrite insert_insert_eq. reflexivity.
Qed.

Lemma scenario_step4 (um : bool) (t : State) :
  compose 3%positive (Some 1%positive) (scenario_world1 um t) =
  (Some 3%positive, scenario_world1 um t).
Proof using Type. reflexivity. Qed.

Lemma scenario_step5 (um : bool) (t : State) :
  transform_mat t = translate_mat p ->
  _invert_composition_cache t = [] ->
  invert_compose 3%positive (Some 1%positive) (scenario_world1 um t) =
  (Some 4%positive,
   scenario_world3 um t (or_flags (with_mat blank inverse_p) F_mat_known)).
Proof using invert_translation multiply_ident_l inverse_not_identity
  inverse_not_translation.
  intros Hmat Hcache.
  unfold invert_compose.
  change (is_invalid_at (statics (scenario_world1 um t)) 3%positive
          || is_invalid_at (statics (scenario_world1 um t)) 1%positive) with false.
  cbn iota.
  change (heap (scenario_world1 um t) !! 3%positive) with (Some t).
  change (heap (scenario_world1 um t) !! 1%positive) with (Some identity_object).
  cbn iota. rewrite Hcache. change (cache_find [] 1%positive) with (@None Composition).
  cbn iota. rewrite Hmat, invert_translation.
  change (transform_mat identity_object) with ident_mat. rewrite multiply_ident_l.
  unfold make_mat.
  change (ensure_states (scenario_world1 um t)) with (scenario_world1 um t).
  rewrite intern_miss.
  - change (fresh (dom (heap (scenario_world1 um t)))) with 4%positive.
    cbn iota beta. cbn [heap].
    rewrite lookup_insert_ne by discriminate.
    change (heap (scenario_world1 um t) !! 3%positive) with (Some t).
    cbn iota. rewrite Hcache. reflexivity.
  - intros q t' Hin Hq.
    change (_states (scenario_world1 um t)) with [1%positive; 3%positive] in Hin.
    assert (Hti : transform_mat (or_flags (with_mat blank inverse_p) F_mat_known)
                  = inverse_p) by reflexivity.
    destruct Hin as [<-|[<-|[]]].
    + change (heap (scenario_world1 um t) !! 1%positive)
        with (Some identity_object) in Hq.
      injection Hq as <-. unfold same_value. rewrite Hti.
      change (transform_mat identity_object) with ident_mat.
      exact inverse_not_identity.
    + change (heap (scenario_world1 um t) !! 3%positive) with (Some t) in Hq.
      injection Hq as <-. unfold same_value. rewrite Hti, Hmat.
      exact inverse_not_translation.
Qed.

Lemma transform_mat_with_invert_composition_cache (t : State) (c : CompositionCache) :
  transform_mat (with_invert_composition_cache t c) = transform_mat t.
Proof using Type.
  unfold transform_mat, check_mat, calc_mat. cbn [with_invert_composition_cache _flags].
  destruct (Z.land (_flags t) F_mat_known =? 0); reflexivity.
Qed.

Lemma scenario_step6 (um : bool) (t ti : State) :
  transform_mat t = translate_mat p -> transform_mat ti = inverse_p ->
  _composition_cache ti = [] ->
  fst (compose 4%positive (Some 3%positive) (scenario_world3 um t ti)) =
  Some 1%positive /\
  statics (snd (compose 4%positive (Some 3%positive) (scenario_world3 um t ti))) =
  scenario_statics um.
Proof using multiply_inverse ident_almost_equal.
  intros Hmat Hinv Hcache.
  set (t3 := with_invert_composition_cache t
               [(1%positive, mkComposition (Some 4%positive))]).
  assert (Hmat3 : transform_mat t3 = translate_mat p).
  { unfold t3. rewrite transform_mat_with_invert_composition_cache. exact Hmat. }
  unfold compose.
  change (is_identity_at (statics (scenario_world3 um t ti)) 4%positive) with false.
  change (is_identity_at (statics (scenario_world3 um t ti)) 3%positive) with false.
  change (is_invalid_at (statics (scenario_world3 um t ti)) 4%positive
          || is_invalid_at (statics (scenario_world3 um t ti)) 3%positive) with false.
  cbn iota.
  change (heap (scenario_world3 um t ti) !! 4%positive) with (Some ti).
  change (heap (scenario_world3 um t ti) !! 3%positive) with (Some t3).
  cbn iota. rewrite Hcache. change (cache_find [] 3%positive) with (@None Composition).
  cbn iota. rewrite Hmat3, Hinv, multiply_inverse.
  unfold make_mat.
  change (ensure_states (scenario_world3 um t ti)) with (scenario_world3 um t ti).
  rewrite (intern_hit_first _ identity_object _ 1%positive [3%positive; 4%positive]);
    [| reflexivity | reflexivity |].
  - cbn iota beta.
    change (heap (scenario_world3 um t ti) !! 4%positive) with (Some ti).
    cbn iota. split; reflexivity.
  - unfold same_value.
    change (transform_mat identity_object) with ident_mat.
    change (transform_mat (or_flags (with_mat blank ident_mat) F_mat_known))
      with ident_mat.
    exact ident_almost_equal.
Qed.


End Registry.

(** * The methods at work on exact rationals

    The numeric library instantiated with exact rational arithmetic, on
    which the inline methods and the registry can be run.  Rotation and shear
    have no matrix here: [q_compose_matrix] is exact on transforms that have
    neither. *)

Definition q_epsilon : Q := (1 # 1000000)%Q.

Definition q_nearly_equal (a b : Q) : bool := Qle_bool (Qabs (a - b)%Q) q_epsilon.

Definition q_neg (a : Q) : Q := Qred (- a)%Q.

Definition q_vec3_almost_equal (a b : LVecBase3 Q) : bool :=
  q_nearly_equal (v3_x a) (v3_x b) && q_nearly_equal (v3_y a) (v3_y b)
  && q_nearly_equal (v3_z a) (v3_z b).

Definition q_vec4_almost_equal (a b : LVecBase4 Q) : bool :=
  q_nearly_equal (v4_x a) (v4_x b) && q_nearly_equal (v4_y a) (v4_y b)
  && q_nearly_equal (v4_z a) (v4_z b) && q_nearly_equal (v4_w a) (v4_w b).

Definition q_mat_almost_equal (a b : LMatrix4 Q) : bool :=
  q_vec4_almost_equal (m4_row0 a) (m4_row0 b)
  && q_vec4_almost_equal (m4_row1 a) (m4_row1 b)
  && q_vec4_almost_equal (m4_row2 a) (m4_row2 b)
  && q_vec4_almost_equal (m4_row3 a) (m4_row3 b).

Definition q_rows (m : LMatrix4 Q) : list (list Q) :=
  map (fun r => [v4_x r; v4_y r; v4_z r; v4_w r])
      [m4_row0 m; m4_row1 m; m4_row2 m; m4_row3 m].

Definition q_entry (rows : list (list Q)) (i j : nat) : Q := nth j (nth i rows []) 0%Q.

Definition q_of_entries (e : nat -> nat -> Q) : LMatrix4 Q :=
  mkLMatrix4 (mkLVecBase4 (e 0 0) (e 0 1) (e 0 2) (e 0 3))%nat
             (mkLVecBase4 (e 1 0) (e 1 1) (e 1 2) (e 1 3))%nat
             (mkLVecBase4 (e 2 0) (e 2 1) (e 2 2) (e 2 3))%nat
             (mkLVecBase4 (e 3 0) (e 3 1) (e 3 2) (e 3 3))%nat.

Definition q_sum (l : list Q) : Q := fold_right Qplus 0%Q l.

Definition q_mat_multiply (a b : LMatrix4 Q) : LMatrix4 Q :=
  q_of_entries (fun i j =>
    Qred (q_sum (map (fun k => (q_entry (q_rows a) i k * q_entry (q_rows b) k j)%Q)
                     (seq 0 4)))).

Fixpoint drop_nth {A} (n : nat) (l : list A) : list A :=
  match l, n with
  | [], _ => []
  | _ :: l', O => l'
  | x :: l', S n' => x :: drop_nth n' l'
  end.

Definition q_minor (i j : nat) (rows : list (list Q)) : list (list Q) :=
  map (drop_nth j) (drop_nth i rows).

Definition q_sign (n : nat) : Q := if Nat.even n then 1%Q else (-1)%Q.

(** The determinant of an [n] by [n] matrix, expanded along its first row. *)
Fixpoint q_det (n : nat) (rows : list (list Q)) : Q :=
  match n with
  | O => 1%Q
  | S n' =>
      q_sum (map (fun j => (q_sign j * q_entry rows 0 j * q_det n' (q_minor 0 j rows))%Q)
                 (seq 0 n))
  end.

(** The inverse by cofactors, when the determinant is not zero. *)
Definition q_invert_from (m : LMatrix4 Q) : option (LMatrix4 Q) :=
  let d := q_det 4 (q_rows m) in
  if Qeq_bool d 0 then None
  else Some (q_of_entries (fun i j =>
               Qred (q_sign (i + j) * q_det 3 (q_minor j i (q_rows m)) / d)%Q)).

Definition q_compose_matrix (scale shear hpr pos : LVecBase3 Q) : LMatrix4 Q :=
  mkLMatrix4 (mkLVecBase4 (v3_x scale) 0%Q 0%Q 0%Q)
             (mkLVecBase4 0%Q (v3_y scale) 0%Q 0%Q)
             (mkLVecBase4 0%Q 0%Q (v3_z scale) 0%Q)
             (mkLVecBase4 (v3_x pos) (v3_y pos) (v3_z pos) 1%Q).

Definition q_quat_get_hpr (quat : LQuaternion Q) : LVecBase3 Q := mkLVecBase3 0%Q 0%Q 0%Q.

Definition q_H_unknown : Z := 0.

(** The out-of-line part, instantiated. *)
Definition q_init_states := init_states (PN_stdfloat := Q) 0%Q 1%Q q_H_unknown.
Definition q_do_calc_mat := do_calc_mat q_compose_matrix q_quat_get_hpr.
Definition q_calc_singular := calc_singular q_compose_matrix q_quat_get_hpr q_invert_from.
Definition q_make_pos_hpr_scale_shear :=
  make_pos_hpr_scale_shear 0%Q 1%Q q_nearly_equal q_vec3_almost_equal q_H_unknown
    q_compose_matrix q_quat_get_hpr q_mat_almost_equal.
Definition q_make_pos_rotate_scale_shear2d :=
  make_pos_rotate_scale_shear2d 0%Q 1%Q q_neg q_nearly_equal q_vec3_almost_equal
    CS_zup_right q_H_unknown q_compose_matrix q_quat_get_hpr q_mat_almost_equal.
Definition q_compose :=
  compose 0%Q 1%Q q_H_unknown q_compose_matrix q_quat_get_hpr q_mat_multiply
    q_mat_almost_equal.
Definition q_invert_compose :=
  invert_compose 0%Q 1%Q q_H_unknown q_compose_matrix q_quat_get_hpr q_mat_multiply
    q_invert_from q_mat_almost_equal.

Definition q_request :=
  request 0%Q 1%Q q_neg q_nearly_equal q_vec3_almost_equal CS_zup_right q_H_unknown
    q_compose_matrix q_quat_get_hpr q_mat_multiply q_invert_from q_mat_almost_equal.
Definition q_created :=
  created 0%Q 1%Q q_neg q_nearly_equal q_vec3_almost_equal CS_zup_right q_H_unknown
    q_compose_matrix q_quat_get_hpr q_mat_multiply q_invert_from q_mat_almost_equal.
Definition q_requests :=
  requests 0%Q 1%Q q_neg q_nearly_equal q_vec3_almost_equal CS_zup_right q_H_unknown
    q_compose_matrix q_quat_get_hpr q_mat_multiply q_invert_from q_mat_almost_equal.

(** A minimal stand-in for the calculations the specification says nothing
    about: the value is recorded as known and nothing is derived. *)
Definition record_known (known : Z) (t : TransformState Q) : TransformState Q :=
  or_flags t known.

Definition record_hash (t : TransformState Q) : TransformState Q :=
  mkTransformState (_flags t) (Z.succ (Z.abs (_flags t))) (_pos t) (_hpr t) (_quat t)
    (_norm_quat t) (_scale t) (_shear t) (_mat t) (_inv_mat t)
    (_composition_cache t) (_invert_composition_cache t).

(** Static members after initialisation, and some objects. *)
Definition q_statics : Globals := scenario_statics true.

Definition q_position : LVecBase3 Q := mkLVecBase3 1%Q (2 # 1)%Q (3 # 1)%Q.

(** A transform given by the matrix of the translation by (1, 2, 3). *)
Definition q_translation : TransformState Q :=
  or_flags (with_mat (blank 0%Q 1%Q q_H_unknown) (translate_mat 0%Q 1%Q q_position))
    F_mat_known.

(** A transform given by the zero matrix. *)
Definition q_collapsed : TransformState Q :=
  or_flags (with_mat (blank 0%Q 1%Q q_H_unknown)
              (q_of_entries (fun _ _ => 0%Q))) F_mat_known.

(** A transform given by a matrix that has no components: they are known not
    to be derivable. *)
Definition q_skewed : TransformState Q :=
  or_flags (with_mat (blank 0%Q 1%Q q_H_unknown)
              (mkLMatrix4 (mkLVecBase4 1%Q 0%Q 0%Q 1%Q) (mkLVecBase4 0%Q 1%Q 0%Q 0%Q)
                          (mkLVecBase4 0%Q 0%Q 1%Q 0%Q) (mkLVecBase4 0%Q 0%Q 0%Q 1%Q)))
    (Z.lor F_mat_known (Z.lor F_components_known F_hpr_known)).

(** The fields of a 2-d transform of scale (2, 2), as the 2-d factory sets
    them before [check_uniform_scale2d] runs. *)
Definition q_scaled2d : TransformState Q :=
  mkTransformState
    (Z.lor F_components_given (Z.lor F_hpr_given (Z.lor F_components_known
      (Z.lor F_hpr_known (Z.lor F_has_components F_is_2d)))))
    q_H_unknown (mkLVecBase3 0%Q 0%Q 0%Q) (mkLVecBase3 0%Q 0%Q 0%Q)
    (mkLQuaternion 1%Q 0%Q 0%Q 0%Q) (mkLQuaternion 1%Q 0%Q 0%Q 0%Q)
    (mkLVecBase3 (2 # 1)%Q (2 # 1)%Q 1%Q) (mkLVecBase3 0%Q 0%Q 0%Q)
    (LMatrix4_ident_mat 0%Q 1%Q) None [] [].

(** The 2-d transform of scale (2, 2) once [check_uniform_scale2d] has run. *)
Definition q_uniform2d : TransformState Q :=
  check_uniform_scale2d 0%Q 1%Q q_nearly_equal q_vec3_almost_equal q_scaled2d.

(** An initialised program state in which the object at address 3 holds the
    same fields as the identity singleton, at address 1. *)
Definition q_world_with_copy : World Q :=
  with_heap (q_init_states (initial_world true))
    (<[3%positive := identity_object 0%Q 1%Q q_H_unknown]>
       (heap (q_init_states (initial_world true)))).

(** The inverse of the translation by (1, 2, 3). *)
Definition q_inverse_translation : LMatrix4 Q :=
  translate_mat 0%Q 1%Q (mkLVecBase3 (-1 # 1)%Q (-2 # 1)%Q (-3 # 1)%Q).

(** The 2-d transform of scale (2, 2) with a 3-d scale of (2, 2, 2) given
    before the 3-d check runs. *)
Definition q_scaled3d : TransformState Q :=
  with_scale q_scaled2d (mkLVecBase3 (2 # 1)%Q (2 # 1)%Q (2 # 1)%Q).

(** The 2-d transform of scale (2, 2) with its matrix, its inverse, its
    quaternions and its hash derived. *)
Definition q_derived : TransformState Q :=
  record_hash
    (record_known F_norm_quat_known
       (record_known F_quat_known (q_calc_singular (q_do_calc_mat q_uniform2d)))).

(** ** The numeric instance and the stand-ins keep the promises *)

Example q_invert_translation :
  q_invert_from (translate_mat 0%Q 1%Q q_position) =
  Some (translate_mat 0%Q 1%Q (mkLVecBase3 (-1 # 1)%Q (-2 # 1)%Q (-3 # 1)%Q)).
Proof. vm_compute. reflexivity. Qed.

Example q_invert_collapsed : q_invert_from (q_of_entries (fun _ _ => 0%Q)) = None.
Proof. vm_compute. reflexivity. Qed.

Lemma q_init_states_creates_lock (w : World Q) :
  _states_lock (statics (q_init_states w)) <> None.
Proof. discriminate. Qed.

Lemma record_known_known (known : Z) (t : TransformState Q) :
  known <> 0 -> Z.land known known = known ->
  flag_set (_flags (record_known known t)) known = true.
Proof.
  intros Hk Hland. unfold record_known. rewrite flag_set_or_flags.
  unfold flag_set at 2. rewrite Hland.
  destruct (Z.eqb_spec known 0); [contradiction | apply orb_true_r].
Qed.

Lemma record_hash_known (t : TransformState Q) : _hash (record_hash t) <> q_H_unknown.
Proof. unfold record_hash, q_H_unknown. simpl. lia. Qed.

(** ** The claims on concrete transforms *)

Lemma singletons_are_process_wide_witness :
  (forall w, _states_lock (statics (q_init_states w)) <> None) /\
  (let w1 := snd (singleton_call q_init_states Call_make_invalid (initial_world true)) in
   fst (singleton_call q_init_states Call_make_invalid (initial_world true)) =
     Some 2%positive /\
   snd (singleton_calls q_init_states
          [Call_make_identity; Call_make_invalid; Call_make_identity] w1) = w1 /\
   forall c p,
     In (c, p) (fst (singleton_calls q_init_states
                       [Call_make_identity; Call_make_invalid; Call_make_identity] w1)) ->
     p = singleton_of c (statics w1)) /\
  (let w1 := snd (singleton_call q_init_states Call_make_identity q_world_with_copy) in
   w1 = q_world_with_copy /\
   heap w1 !! 3%positive = heap w1 !! 1%positive /\
   is_identity_at (statics w1) 1%positive = true /\
   is_identity_at (statics w1) 3%positive = false).
Proof.
  split; [exact q_init_states_creates_lock|].
  destruct (singletons_are_process_wide q_init_states q_init_states_creates_lock
              (initial_world true) Call_make_invalid
              [Call_make_identity; Call_make_invalid; Call_make_identity])
    as (_ & H2 & H3 & H4 & _).
  destruct (singletons_are_process_wide q_init_states q_init_states_creates_lock
              q_world_with_copy Call_make_identity [])
    as (C1 & _ & _ & _ & _ & _ & C7).
  split; [split; [exact H2|]; split; [exact H3 | exact H4]|].
  assert (Hcopy : heap q_world_with_copy !! 3%positive =
                  heap q_world_with_copy !! 1%positive) by reflexivity.
  split; [exact C1|]. split; [exact Hcopy|]. split; [reflexivity|].
  exact (proj1 (C7 1%positive 3%positive Hcopy ltac:(discriminate)) eq_refl).
Defined.

Lemma get_inverse_mat_null_iff_singular_witness :
  (forall t, inverse_stored (q_calc_singular t)) /\
  singular_consistent q_translation /\
  assertion_failed (fst (get_inverse_mat q_calc_singular q_translation)) = false /\
  (value_of (fst (get_inverse_mat q_calc_singular q_translation)) = None <->
   fst (is_singular q_calc_singular q_translation) = true).
Proof.
  assert (Hc : singular_consistent q_translation) by (intros H; discriminate H).
  split;
    [exact (calc_singular_inverse_stored q_compose_matrix q_quat_get_hpr q_invert_from)|].
  split; [exact Hc|].
  destruct (get_inverse_mat_null_iff_singular q_calc_singular
              (calc_singular_inverse_stored q_compose_matrix q_quat_get_hpr q_invert_from)
              q_translation Hc) as (H1 & H2 & _).
  split; [exact H1 | exact H2].
Defined.

Example get_inverse_mat_of_translation :
  fst (get_inverse_mat q_calc_singular q_translation) =
  Returned (Some (translate_mat 0%Q 1%Q (mkLVecBase3 (-1 # 1)%Q (-2 # 1)%Q (-3 # 1)%Q))).
Proof. vm_compute. reflexivity. Qed.

Example get_inverse_mat_of_collapsed :
  fst (get_inverse_mat q_calc_singular q_collapsed) = Returned None /\
  fst (is_singular q_calc_singular q_collapsed) = true.
Proof. vm_compute. split; reflexivity. Qed.

Lemma record_components_known (t : TransformState Q) :
  flag_set (_flags (record_known F_components_known t)) F_components_known = true.
Proof. apply record_known_known; [discriminate | reflexivity]. Qed.

Lemma record_hpr_known (t : TransformState Q) :
  flag_set (_flags (record_known F_hpr_known t)) F_hpr_known = true.
Proof. apply record_known_known; [discriminate | reflexivity]. Qed.

Lemma record_quat_known (t : TransformState Q) :
  flag_set (_flags (record_known F_quat_known t)) F_quat_known = true.
Proof. apply record_known_known; [discriminate | reflexivity]. Qed.

Lemma record_norm_quat_known (t : TransformState Q) :
  flag_set (_flags (record_known F_norm_quat_known t)) F_norm_quat_known = true.
Proof. apply record_known_known; [discriminate | reflexivity]. Qed.

Lemma check_uniform_scale2d_sets_z_scale_witness :
  flag_set (_flags q_scaled2d) F_components_known = true /\
  is_invalid q_statics 3%positive = false /\
  _scale q_scaled2d = mkLVecBase3 (2 # 1)%Q (2 # 1)%Q 1%Q /\
  get_scale q_statics 3%positive (record_known F_components_known) q_uniform2d =
    (Returned (mkLVecBase3 (2 # 1)%Q (2 # 1)%Q (2 # 1)%Q), q_uniform2d).
Proof.
  split; [reflexivity|]. split; [reflexivity|]. split; [reflexivity|].
  exact (proj2 (check_uniform_scale2d_sets_z_scale 0%Q 1%Q q_nearly_equal
                  q_vec3_almost_equal q_statics 3%positive
                  (record_known F_components_known) q_scaled2d)
               eq_refl eq_refl).
Defined.

Example check_uniform_scale2d_keeps_differing_scale :
  _scale (check_uniform_scale2d 0%Q 1%Q q_nearly_equal q_vec3_almost_equal
            (with_scale q_scaled2d (mkLVecBase3 (2 # 1)%Q (3 # 1)%Q 1%Q))) =
  mkLVecBase3 (2 # 1)%Q (3 # 1)%Q 1%Q.
Proof. vm_compute. reflexivity. Qed.



Lemma lazy_derivation_idempotent_witness :
  (forall t, _hash (record_hash t) <> q_H_unknown) /\
  (forall t, flag_set (_flags (q_calc_singular t)) F_singular_known = true) /\
  (forall t, flag_set (_flags (q_do_calc_mat t)) F_mat_known = true) /\
  (forall t, is_2d (q_do_calc_mat t) = is_2d t) /\
  _hash q_translation = q_H_unknown /\
  repeatable (get_hash q_H_unknown record_hash) q_translation /\
  repeatable (get_inverse_mat q_calc_singular) q_translation /\
  repeatable (get_mat 0%Q 1%Q q_statics 3%positive q_do_calc_mat) q_uniform2d.
Proof.
  split; [exact record_hash_known|].
  split; [exact (calc_singular_sets_known q_compose_matrix q_quat_get_hpr q_invert_from)|].
  split; [exact (do_calc_mat_sets_known q_compose_matrix q_quat_get_hpr)|].
  split; [exact (do_calc_mat_keeps_is_2d q_compose_matrix q_quat_get_hpr)|].
  split; [reflexivity|].
  pose proof (fun t =>
    lazy_derivation_idempotent 0%Q 1%Q q_neg CS_zup_right q_H_unknown q_statics 3%positive
      record_hash q_calc_singular (record_known F_components_known)
      (record_known F_hpr_known) (record_known F_quat_known)
      (record_known F_norm_quat_known) q_do_calc_mat
      record_components_known record_hash_known
      (calc_singular_sets_known q_compose_matrix q_quat_get_hpr q_invert_from)
      record_hpr_known record_quat_known record_norm_quat_known
      (do_calc_mat_sets_known q_compose_matrix q_quat_get_hpr)
      (do_calc_mat_keeps_is_2d q_compose_matrix q_quat_get_hpr) t) as H.
  split; [exact (proj1 (proj2 (proj2 (H q_translation))))|].
  split.
  - destruct (H q_translation)
      as (_ & _ & _ & _ & _ & _ & _ & _ & _ & _ & _ & _ & Hi & _). exact Hi.
  - destruct (H q_uniform2d)
      as (_ & _ & _ & _ & _ & _ & _ & _ & _ & _ & _ & Hm & _). exact Hm.
Defined.

Example get_hash_twice :
  get_hash q_H_unknown record_hash q_translation =
    (65, record_hash q_translation) /\
  get_hash q_H_unknown record_hash (record_hash q_translation) =
    (65, record_hash q_translation).
Proof. vm_compute. split; reflexivity. Qed.


(** It fails on the values the registry has already, too.  [make_pos2d] of
    the origin is the identity singleton, which is not 2-d; and
    [make_pos((1, 2, 0))] after [make_pos2d((1, 2))] is the object the 2-d
    factory created, which is. *)
Example make_pos2d_of_origin_is_identity :
  fst (q_request (Req_make_pos2d (mkLVecBase2 0%Q 0%Q)) (initial_world true)) =
    Some 1%positive /\
  is_identity_at
    (statics (snd (q_request (Req_make_pos2d (mkLVecBase2 0%Q 0%Q))
                     (initial_world true)))) 1%positive = true /\
  q_created (Req_make_pos2d (mkLVecBase2 0%Q 0%Q)) (initial_world true) = None /\
  returned_is_2d
    (q_request (Req_make_pos2d (mkLVecBase2 0%Q 0%Q)) (initial_world true)) =
    Some false.
Proof. vm_compute. repeat split; reflexivity. Qed.

Example make_pos_after_make_pos2d :
  fst (q_request (Req_make_pos2d (mkLVecBase2 1%Q (2 # 1)%Q)) (initial_world true)) =
    Some 3%positive /\
  q_created (Req_make_pos2d (mkLVecBase2 1%Q (2 # 1)%Q)) (initial_world true) =
    Some 3%positive /\
  fst (q_request (Req_make_pos (mkLVecBase3 1%Q (2 # 1)%Q 0%Q))
         (snd (q_request (Req_make_pos2d (mkLVecBase2 1%Q (2 # 1)%Q))
                 (initial_world true)))) = Some 3%positive /\
  q_created (Req_make_pos (mkLVecBase3 1%Q (2 # 1)%Q 0%Q))
    (snd (q_request (Req_make_pos2d (mkLVecBase2 1%Q (2 # 1)%Q))
            (initial_world true))) = None /\
  returned_is_2d
    (q_request (Req_make_pos (mkLVecBase3 1%Q (2 # 1)%Q 0%Q))
       (snd (q_request (Req_make_pos2d (mkLVecBase2 1%Q (2 # 1)%Q))
               (initial_world true)))) = Some true.
Proof. vm_compute. repeat split; reflexivity. Qed.

(** The other way round the object is the one the 3-d factory created, and
    [make_pos2d((1, 2))] returns an object that is not 2-d. *)
Example make_pos2d_after_make_pos :
  fst (q_request (Req_make_pos2d (mkLVecBase2 1%Q (2 # 1)%Q))
         (snd (q_request (Req_make_pos (mkLVecBase3 1%Q (2 # 1)%Q 0%Q))
                 (initial_world true)))) = Some 3%positive /\
  returned_is_2d
    (q_request (Req_make_pos2d (mkLVecBase2 1%Q (2 # 1)%Q))
       (snd (q_request (Req_make_pos (mkLVecBase3 1%Q (2 # 1)%Q 0%Q))
               (initial_world true)))) = Some false.
Proof. vm_compute. split; reflexivity. Qed.



Example make_pos_hpr_scale_computed :
  fst (make_pos_hpr_scale 0%Q q_make_pos_hpr_scale_shear q_position
         (mkLVecBase3 0%Q 0%Q 0%Q) (mkLVecBase3 1%Q 1%Q 1%Q) (initial_world true)) =
  Some 3%positive.
Proof. vm_compute. reflexivity. Qed.

(** ** Further properties on concrete transforms *)

Lemma check_uniform_scale2d_as_check_uniform_scale_witness :
  q_nearly_equal (2 # 1)%Q (2 # 1)%Q = true /\
  check_uniform_scale2d 0%Q 1%Q q_nearly_equal q_vec3_almost_equal q_scaled2d =
  check_uniform_scale 0%Q 1%Q q_nearly_equal q_vec3_almost_equal q_scaled3d.
Proof.
  split; [reflexivity|].
  exact (check_uniform_scale2d_as_check_uniform_scale 0%Q 1%Q q_nearly_equal
           q_vec3_almost_equal q_scaled2d eq_refl).
Defined.

Lemma get_uniform_scale_after_check_witness :
  flag_set (_flags q_scaled2d) F_components_known = true /\
  q_nearly_equal (2 # 1)%Q (2 # 1)%Q = true /\
  get_uniform_scale (record_known F_components_known) q_uniform2d =
    (Returned (2 # 1)%Q, q_uniform2d) /\
  get_uniform_scale (record_known F_components_known)
    (check_uniform_scale 0%Q 1%Q q_nearly_equal q_vec3_almost_equal q_scaled3d) =
    (Returned (2 # 1)%Q,
     check_uniform_scale 0%Q 1%Q q_nearly_equal q_vec3_almost_equal q_scaled3d).
Proof.
  split; [reflexivity|]. split; [reflexivity|]. split.
  - exact (proj1 (get_uniform_scale_after_check 0%Q 1%Q q_nearly_equal
                    q_vec3_almost_equal (record_known F_components_known)
                    q_scaled2d eq_refl eq_refl)).
  - exact (proj2 (get_uniform_scale_after_check 0%Q 1%Q q_nearly_equal
                    q_vec3_almost_equal (record_known F_components_known)
                    q_scaled3d eq_refl eq_refl) eq_refl).
Defined.

Example check_uniform_scale_of_differing_scale :
  let t := with_scale q_scaled2d (mkLVecBase3 (2 # 1)%Q (2 # 1)%Q (3 # 1)%Q) in
  flag_set (_flags (check_uniform_scale 0%Q 1%Q q_nearly_equal q_vec3_almost_equal t))
    F_uniform_scale = false /\
  flag_set (_flags (check_uniform_scale2d 0%Q 1%Q q_nearly_equal q_vec3_almost_equal t))
    F_uniform_scale = true.
Proof. vm_compute. split; reflexivity. Qed.

Lemma get_geom_rendering_bits_witness :
  (forall t, flag_set (_flags (record_known F_components_known t)) F_components_known
             = true) /\
  get_geom_rendering (record_known F_components_known) 16 64 q_uniform2d 18 =
    (82, q_uniform2d) /\
  Z.land 82 18 = 18 /\
  get_geom_rendering (record_known F_components_known) 16 64 q_uniform2d 82 =
    (82, q_uniform2d).
Proof.
  split; [exact record_components_known|].
  destruct (get_geom_rendering_bits (record_known F_components_known) 16 64
              record_components_known q_uniform2d 18) as (H1 & H2 & H3 & H4).
  split; [|split; [exact H2 | exact H4]].
  apply injective_projections; [exact H1 | exact H3].
Defined.

Example get_geom_rendering_without_perspective :
  get_geom_rendering (record_known F_components_known) 16 64 q_translation 2 =
    (2, q_translation).
Proof. vm_compute. reflexivity. Qed.

Lemma accessors_leave_derived_object_witness :
  fully_derived q_H_unknown q_derived /\
  snd (get_hash q_H_unknown record_hash q_derived) = q_derived /\
  snd (get_mat 0%Q 1%Q q_statics 3%positive q_do_calc_mat q_derived) = q_derived /\
  snd (get_inverse_mat q_calc_singular q_derived) = q_derived /\
  snd (get_scale2d 0%Q q_statics 3%positive (record_known F_components_known) q_derived)
    = q_derived.
Proof.
  assert (Hd : fully_derived q_H_unknown q_derived)
    by (repeat split; try reflexivity; discriminate).
  split; [exact Hd|].
  destruct (accessors_leave_derived_object 0%Q 1%Q q_neg CS_zup_right q_H_unknown
              q_statics 3%positive record_hash q_calc_singular
              (record_known F_components_known) (record_known F_hpr_known)
              (record_known F_quat_known) (record_known F_norm_quat_known)
              q_do_calc_mat 16 64 q_derived 18 Hd)
    as (A1 & _ & _ & _ & _ & _ & _ & _ & _ & _ & _ & _ & _ & A14 & A15 & _ & _ & A18 & _).
  split; [exact A1|]. split; [exact A14|]. split; [exact A15 | exact A18].
Defined.

(** * The strip chart of gtk-stats

    [GtkStatsStripChart] (gtkStatsStripChart.cxx) draws a [PStatStripChart]
    with GTK and cairo.  The classes it derives from and the toolkit are not
    under src: what a method reads from them is a parameter, and what it
    asks of them is the list of the calls it makes, in order.  A pixel
    coordinate is an [int], and a sum or a difference of two is taken in
    [int]; a [double] is a value of the parameter [double]. *)

(** ** [int] *)

(** An [int] has 32 bits: the sum and the difference of two are the integers
    of its range that are congruent to them modulo 2^32. *)
Definition INT_MIN : Z := - 2 ^ 31.
Definition INT_MAX : Z := 2 ^ 31 - 1.

Definition to_int (z : Z) : Z := (z + 2 ^ 31) mod 2 ^ 32 - 2 ^ 31.

Definition int_add (a b : Z) : Z := to_int (a + b).
Definition int_sub (a b : Z) : Z := to_int (a - b).

(** ** What the chart asks of cairo, GTK and its base classes *)

(** The colours the methods below set with [cairo_set_source_rgb]: white
    and the three colours of gtkStatsGraph.h. *)
Inductive Color : Type :=
  | rgb_white | rgb_light_gray | rgb_user_guide_bar | rgb_dark_gray.

(** The widgets they queue a redraw of. *)
Inductive Widget : Type := _graph_window | _scale_area.

(** A call; [cairo_set_source_collector i h] is
    [cairo_set_source(_cr, get_collector_pattern(i, h))], and
    [highlight_label] is the method of [_label_stack]. *)
Inductive Call (double : Type) : Type :=
  | cairo_set_source_rgb (c : Color)
  | cairo_set_source_collector (collector_index : Z) (highlight : bool)
  | cairo_rectangle (x y width height : Z)
  | cairo_fill
  | cairo_move_to (x y : Z)
  | cairo_line_to (x y : Z)
  | cairo_stroke
  | pango_cairo_show_layout (label : string)
  | gdk_window_invalidate_rect (x y width height : Z)
  | gtk_widget_queue_draw (w : Widget)
  | set_guide_bar_units (unit_mask : Z)
  | set_collector_index (collector_index : Z)
  | set_average_mode (average_mode : bool)
  | highlight_label (collector_index : Z)
  | PStatStripChart_set_vertical_scale (value_height : double)
  | add_user_guide_bar (height : double)
  | move_user_guide_bar (n : Z) (height : double)
  | remove_user_guide_bar (n : Z).
Arguments cairo_set_source_rgb {double}.
Arguments cairo_set_source_collector {double}.
Arguments cairo_rectangle {double}.
Arguments cairo_fill {double}.
Arguments cairo_move_to {double}.
Arguments cairo_line_to {double}.
Arguments cairo_stroke {double}.
Arguments pango_cairo_show_layout {double}.
Arguments gdk_window_invalidate_rect {double}.
Arguments gtk_widget_queue_draw {double}.
Arguments set_guide_bar_units {double}.
Arguments set_collector_index {double}.
Arguments set_average_mode {double}.
Arguments highlight_label {double}.
Arguments PStatStripChart_set_vertical_scale {double}.
Arguments add_user_guide_bar {double}.
Arguments move_user_guide_bar {double}.
Arguments remove_user_guide_bar {double}.

(** [PStatGraph::GuideBarStyle] and [PStatGraph::GuideBar], as the chart
    uses them. *)
Inductive GuideBarStyle : Type := GBS_normal | GBS_target | GBS_user.

Record GuideBar (double : Type) : Type := mkGuideBar {
  _height : double;
  _label : string;
  _style : GuideBarStyle
}.
Arguments mkGuideBar {double}.
Arguments _height {double}.
Arguments _label {double}.
Arguments _style {double}.

(** [PStatStripChart::ColorData], one band of a slice. *)
Record ColorData (double : Type) : Type := mkColorData {
  _collector_index : Z;
  _net_value : double
}.
Arguments mkColorData {double}.
Arguments _collector_index {double}.
Arguments _net_value {double}.

(** [GtkStatsGraph::DragMode], declared in gtkStatsGraph.h: the enumerators
    the strip chart names, and any other. *)
Inductive DragMode : Type :=
  | DM_none | DM_scale | DM_sizing | DM_guide_bar | DM_new_guide_bar
  | DM_unnamed (n : Z).

Definition DragMode_eqb (a b : DragMode) : bool :=
  match a, b with
  | DM_none, DM_none | DM_scale, DM_scale | DM_sizing, DM_sizing
  | DM_guide_bar, DM_guide_bar | DM_new_guide_bar, DM_new_guide_bar => true
  | DM_unnamed n, DM_unnamed m => n =? m
  | _, _ => false
  end.

(** The data members the chart's own code reads and writes: those of the
    mouse interaction and the highlighted collector. *)
Record GtkStatsStripChart (double : Type) : Type := mkGtkStatsStripChart {
  _drag_mode : DragMode;
  _potential_drag_mode : DragMode;
  _drag_guide_bar : Z;
  _drag_start_y : Z;
  _drag_scale_start : double;
  _highlighted_index : Z
}.
Arguments mkGtkStatsStripChart {double}.
Arguments _drag_mode {double}.
Arguments _potential_drag_mode {double}.
Arguments _drag_guide_bar {double}.
Arguments _drag_start_y {double}.
Arguments _drag_scale_start {double}.
Arguments _highlighted_index {double}.

Definition with_drag_guide_bar {double} (c : GtkStatsStripChart double) (i : Z)
  : GtkStatsStripChart double :=
  mkGtkStatsStripChart (_drag_mode c) (_potential_drag_mode c) i (_drag_start_y c)
    (_drag_scale_start c) (_highlighted_index c).

Definition with_drag_start_y {double} (c : GtkStatsStripChart double) (y : Z)
  : GtkStatsStripChart double :=
  mkGtkStatsStripChart (_drag_mode c) (_potential_drag_mode c) (_drag_guide_bar c) y
    (_drag_scale_start c) (_highlighted_index c).

Definition with_drag_scale_start {double} (c : GtkStatsStripChart double) (h : double)
  : GtkStatsStripChart double :=
  mkGtkStatsStripChart (_drag_mode c) (_potential_drag_mode c) (_drag_guide_bar c)
    (_drag_start_y c) h (_highlighted_index c).

(** The values [i] takes in [for (i = 0; i < n; i++)]. *)
Definition counting (n : Z) : list Z := map Z.of_nat (seq 0 (Z.to_nat n)).

(** The rectangles among the calls, each as (x, y, width, height). *)
Fixpoint rectangles {double} (calls : list (Call double)) : list (Z * Z * Z * Z) :=
  match calls with
  | [] => []
  | cairo_rectangle x y w h :: rest => (x, y, w, h) :: rectangles rest
  | _ :: rest => rectangles rest
  end.

(** The collectors whose pattern the calls make the source, in order. *)
Fixpoint collectors {double} (calls : list (Call double)) : list Z :=
  match calls with
  | [] => []
  | cairo_set_source_collector i _ :: rest => i :: collectors rest
  | _ :: rest => collectors rest
  end.

(** The labels the calls show, each with the y of the point it is shown
    at: a [pango_cairo_show_layout] that follows a [cairo_move_to]. *)
Fixpoint labels_shown {double} (calls : list (Call double)) : list (Z * string) :=
  match calls with
  | [] => []
  | c :: rest =>
      match c, rest with
      | cairo_move_to _ y, pango_cairo_show_layout l :: _ => (y, l) :: labels_shown rest
      | _, _ => labels_shown rest
      end
  end.

(** The lines the calls stroke, each as (x1, y1, x2, y2): a [cairo_move_to],
    a [cairo_line_to] and a [cairo_stroke] in a row. *)
Fixpoint lines_stroked {double} (calls : list (Call double)) : list (Z * Z * Z * Z) :=
  match calls with
  | [] => []
  | c :: rest =>
      match c, rest with
      | cairo_move_to x1 y1, cairo_line_to x2 y2 :: cairo_stroke :: _ =>
          (x1, y1, x2, y2) :: lines_stroked rest
      | _, _ => lines_stroked rest
      end
  end.

(** Rectangles of one column [x], [w] wide, stacked from the pixel row
    [bottom] upwards without gap or overlap: each ends where the one before
    it begins, and none has a negative height. *)
Fixpoint stacked (x w bottom : Z) (rs : list (Z * Z * Z * Z)) : bool :=
  match rs with
  | [] => true
  | (x', y', w', h') :: rest =>
      (x' =? x) && (w' =? w) && (0 <=? h') && (y' + h' =? bottom) &&
      stacked x w y' rest
  end.

(** The pixel row the topmost of the stacked rectangles begins at. *)
Fixpoint top_of (bottom : Z) (rs : list (Z * Z * Z * Z)) : Z :=
  match rs with
  | [] => bottom
  | (_, y', _, _) :: rest => top_of y' rest
  end.

Definition total_height (rs : list (Z * Z * Z * Z)) : Z :=
  fold_right (fun r acc => snd r + acc) 0 rs.

Section StripChart.

(** [double] with the literal [0.0], [+=] and [>]. *)
Context {double : Type}.
Variable d0 : double.
Variable dplus : double -> double -> double.
Variable dgt : double -> double -> bool.

(** What the chart reads from [PStatGraph] and [PStatStripChart]. *)
Variables (get_xsize get_ysize : Z).
Variable get_vertical_scale : double.
Variable height_to_pixel : double -> Z.
Variable pixel_to_height : Z -> double.
Variable find_user_guide_bar : double -> double -> Z.
Variable make_guide_bar : double -> GuideBar double.
Variables (get_num_guide_bars get_num_user_guide_bars : Z).
Variables (get_guide_bar get_user_guide_bar : Z -> GuideBar double).
Variable get_collector_index : Z.
Variable get_show_level : bool.

(** [PStatClientData::has_collector] and the [_parent_index] of
    [get_collector_def(collector_index)]. *)
Variable has_collector : Z -> bool.
Variable _parent_index : Z -> Z.

(** [PStatGraph::GuideBarUnits], declared in pStatGraph.h. *)
Variables (GBU_hz GBU_ms GBU_named GBU_show_units : Z).

(** More of [double]: the literal [1.0], [-], [/] and the conversion of an
    [int]. *)
Variable d1 : double.
Variables (dminus ddiv : double -> double -> double).
Variable double_of_int : Z -> double.

(** [PStatStripChart::get_collector_under_pixel], whether the smooth check
    box is active ([gtk_toggle_button_get_active(_smooth_check_box)]), and
    the index [add_user_guide_bar] returns for a bar at a height. *)
Variable get_collector_under_pixel : Z -> Z -> Z.
Variable gtk_toggle_button_get_active : bool.
Variable new_user_guide_bar : double -> Z.

(** The methods of [GtkStatsGraph] that the chart's own methods call or fall
    back on; they act on the data members. *)
Variable GtkStatsGraph_set_drag_mode :
  DragMode -> GtkStatsStripChart double -> GtkStatsStripChart double.
Variables (on_enter_label on_leave_label :
  Z -> GtkStatsStripChart double -> GtkStatsStripChart double).
Variable GtkStatsGraph_handle_button_press :
  Z -> Z -> bool -> GtkStatsStripChart double -> bool * GtkStatsStripChart double.
Variable GtkStatsGraph_handle_button_release :
  Z -> Z -> GtkStatsStripChart double -> bool * GtkStatsStripChart double.
Variable GtkStatsGraph_handle_motion :
  Z -> Z -> GtkStatsStripChart double -> bool * GtkStatsStripChart double.

Local Abbreviation Chart := (GtkStatsStripChart double).

(** The size in pixels, (width, height), pango gives the layout of a label,
    and the y [gtk_widget_translate_coordinates] gives in [_scale_area] for
    the point (0, y) of [_graph_window]. *)
Variable pango_layout_get_pixel_size : string -> Z * Z.
Variable gtk_widget_translate_coordinates : Z -> Z.

(** ** Units *)

(** The constructor's choice of guide bar units, the argument of its call
    of [set_guide_bar_units]; [unit_name_empty] is [_unit_name.empty()] and
    [guide_bar_units] is what [get_guide_bar_units()] returns then. *)
Definition constructor_guide_bar_units
    (show_level unit_name_empty : bool) (guide_bar_units : Z) : Z :=
  if show_level
  then if unit_name_empty then GBU_named else Z.lor GBU_named GBU_show_units
  else Z.lor guide_bar_units GBU_show_units.

(** [set_time_units(unit_mask)], on a chart whose [get_guide_bar_units()]
    is [guide_bar_units]. *)
Definition set_time_units (guide_bar_units unit_mask : Z) : list (Call double) :=
  let old_unit_mask := guide_bar_units in
  if negb (Z.land old_unit_mask (Z.lor GBU_hz GBU_ms) =? 0)
  then
    let unit_mask := Z.land unit_mask (Z.lor GBU_hz GBU_ms) in
    let unit_mask := Z.lor unit_mask (Z.land old_unit_mask GBU_show_units) in
    [set_guide_bar_units unit_mask; gtk_widget_queue_draw _scale_area]
  else [].

(** ** Labels *)

Definition on_click_label (collector_index : Z) : list (Call double) :=
  let collector_index :=
    if collector_index <? 0 then get_collector_index else collector_index in
  if (collector_index =? get_collector_index) && negb (collector_index =? 0)
  then
    if has_collector collector_index
    then
      if (_parent_index collector_index =? 0) && get_show_level
      then []
      else [set_collector_index (_parent_index collector_index)]
    else []
  else [set_collector_index collector_index].

(** ** Drawing the chart *)

(** The body of the loop of [draw_slice], from the element [fi] points at
    to the end of [fdata] or to the [return]. *)
Fixpoint draw_slice_bands (this : GtkStatsStripChart double) (x w : Z)
    (fdata : list (ColorData double)) (overall_time : double) (y : Z)
  : list (Call double) :=
  match fdata with
  | [] => []
  | cd :: rest =>
      let overall_time := dplus overall_time (_net_value cd) in
      cairo_set_source_collector (_collector_index cd)
        (_highlighted_index this =? _collector_index cd) ::
      if dgt overall_time get_vertical_scale
      then [cairo_rectangle x 0 w y; cairo_fill]
      else
        let top_y := height_to_pixel overall_time in
        cairo_rectangle x top_y w (int_sub y top_y) :: cairo_fill ::
        draw_slice_bands this x w rest overall_time top_y
  end.

Definition draw_slice (this : GtkStatsStripChart double) (x w : Z)
    (fdata : list (ColorData double)) : list (Call double) :=
  [cairo_set_source_rgb rgb_white; cairo_rectangle x 0 w get_ysize; cairo_fill] ++
  draw_slice_bands this x w fdata d0 get_ysize.

(** The colour the [switch] on a guide bar's style sets. *)
Definition guide_bar_color (style : GuideBarStyle) : Color :=
  match style with
  | GBS_target => rgb_light_gray
  | GBS_user => rgb_user_guide_bar
  | GBS_normal => rgb_dark_gray
  end.

Definition draw_guide_bar (from_x to_x : Z) (bar : GuideBar double) : list (Call double) :=
  let y := height_to_pixel (_height bar) in
  if 0 <? y
  then [cairo_set_source_rgb (guide_bar_color (_style bar));
        cairo_move_to from_x y; cairo_line_to to_x y; cairo_stroke]
  else [].

Definition end_draw (from_x to_x : Z) : list (Call double) :=
  flat_map (fun i => draw_guide_bar from_x to_x (get_guide_bar i))
           (counting get_num_guide_bars) ++
  [gdk_window_invalidate_rect from_x 0 (int_sub to_x from_x) get_ysize].

Definition additional_graph_window_paint : list (Call double) :=
  flat_map (fun i => draw_guide_bar 0 get_xsize (get_user_guide_bar i))
           (counting get_num_user_guide_bars).

(** ** Drawing the scale *)

Definition is_GBS_user (style : GuideBarStyle) : bool :=
  match style with GBS_user => true | _ => false end.

(** [draw_guide_label(cr, bar, last_y)]: the value returned and the calls
    made. *)
Definition draw_guide_label (bar : GuideBar double) (last_y : Z) : Z * list (Call double) :=
  let color := cairo_set_source_rgb (guide_bar_color (_style bar)) in
  let y := height_to_pixel (_height bar) in
  let label := _label bar in
  let height := snd (pango_layout_get_pixel_size label) in
  if negb (is_GBS_user (_style bar)) &&
     (find_user_guide_bar (pixel_to_height (int_add y height))
        (pixel_to_height (int_sub y height)) >=? 0)
  then (last_y, [color])
  else
    if (y >=? 0) && (y <? get_ysize)
    then
      let y := gtk_widget_translate_coordinates y in
      let this_y := int_sub y (Z.quot height 2) in
      if (last_y <? this_y) || (last_y >? int_add this_y height)
      then (this_y, [color; cairo_move_to 0 this_y; pango_cairo_show_layout label])
      else (last_y, [color])
    else (last_y, [color]).

(** A loop [last_y = draw_guide_label(cr, bar, last_y)] over [bars]. *)
Fixpoint draw_guide_label_each (bars : list (GuideBar double)) (last_y : Z)
  : Z * list (Call double) :=
  match bars with
  | [] => (last_y, [])
  | bar :: rest =>
      let (last_y1, calls1) := draw_guide_label bar last_y in
      let (last_y2, calls2) := draw_guide_label_each rest last_y1 in
      (last_y2, calls1 ++ calls2)
  end.

Definition draw_guide_labels : list (Call double) :=
  let (last_y, calls1) :=
    draw_guide_label_each (map get_guide_bar (counting get_num_guide_bars)) (-100) in
  let top_value := make_guide_bar get_vertical_scale in
  let calls2 := snd (draw_guide_label top_value last_y) in
  let calls3 :=
    snd (draw_guide_label_each
           (map get_user_guide_bar (counting get_num_user_guide_bars)) (-100)) in
  calls1 ++ calls2 ++ calls3.

(** ** The mouse *)

(** A handler returns its [gboolean] and leaves the data members changed;
    the calls are those its own code makes of the classes other than
    [GtkStatsGraph], which have no access to these data members.  The size of
    the graph and the state of the check box are as the handler finds
    them. *)

Definition set_vertical_scale (value_height : double) : list (Call double) :=
  [PStatStripChart_set_vertical_scale value_height;
   gtk_widget_queue_draw _graph_window; gtk_widget_queue_draw _scale_area].

Definition set_drag_mode (drag_mode : DragMode) (this : Chart)
  : Chart * list (Call double) :=
  let this1 := GtkStatsGraph_set_drag_mode drag_mode this in
  match _drag_mode this1 with
  | DM_scale | DM_sizing => (this1, [set_average_mode false])
  | _ => (this1, [set_average_mode gtk_toggle_button_get_active])
  end.

Definition handle_motion (graph_x graph_y : Z) (this : Chart)
  : bool * Chart * list (Call double) :=
  let (this1, calls1) :=
    if DragMode_eqb (_drag_mode this) DM_none &&
       DragMode_eqb (_potential_drag_mode this) DM_none &&
       (graph_x >=? 0) && (graph_y >=? 0) &&
       (graph_x <? get_xsize) && (graph_y <? get_ysize)
    then
      let collector_index := get_collector_under_pixel graph_x graph_y in
      (on_enter_label collector_index this, [highlight_label collector_index])
    else
      (on_leave_label (_highlighted_index this) this, [highlight_label (-1)]) in
  match _drag_mode this1 with
  | DM_scale =>
      let ratio :=
        dminus d1 (ddiv (double_of_int graph_y) (double_of_int get_ysize)) in
      (true, this1,
       calls1 ++
       (if dgt ratio d0
        then set_vertical_scale (ddiv (_drag_scale_start this1) ratio)
        else []))
  | DM_new_guide_bar =>
      if (graph_y >=? 0) && (graph_y <? get_ysize)
      then
        let (this2, calls2) := set_drag_mode DM_guide_bar this1 in
        (true,
         with_drag_guide_bar this2 (new_user_guide_bar (pixel_to_height graph_y)),
         calls1 ++ calls2 ++ [add_user_guide_bar (pixel_to_height graph_y)])
      else
        (GtkStatsGraph_handle_motion graph_x graph_y this1, calls1)
  | DM_guide_bar =>
      (true, this1,
       calls1 ++ [move_user_guide_bar (_drag_guide_bar this1) (pixel_to_height graph_y)])
  | _ => (GtkStatsGraph_handle_motion graph_x graph_y this1, calls1)
  end.

Definition handle_button_press (graph_x graph_y : Z) (double_click : bool) (this : Chart)
  : bool * Chart * list (Call double) :=
  let otherwise :=
    if DragMode_eqb (_potential_drag_mode this) DM_guide_bar &&
       (_drag_guide_bar this >=? 0)
    then
      let (this1, calls1) := set_drag_mode DM_guide_bar this in
      (true, with_drag_start_y this1 graph_y, calls1)
    else
      (GtkStatsGraph_handle_button_press graph_x graph_y double_click this, []) in
  if (graph_x >=? 0) && (graph_y >=? 0) &&
     (graph_x <? get_xsize) && (graph_y <? get_ysize)
  then
    if double_click
    then (true, this, on_click_label (get_collector_under_pixel graph_x graph_y))
    else
      if DragMode_eqb (_potential_drag_mode this) DM_none
      then
        let (this1, calls1) := set_drag_mode DM_scale this in
        (true, with_drag_scale_start this1 (pixel_to_height graph_y), calls1)
      else otherwise
  else otherwise.

Definition handle_button_release (graph_x graph_y : Z) (this : Chart)
  : bool * Chart * list (Call double) :=
  match _drag_mode this with
  | DM_scale =>
      let (this1, calls1) := set_drag_mode DM_none this in
      let '(result, this2, calls2) := handle_motion graph_x graph_y this1 in
      (result, this2, calls1 ++ calls2)
  | DM_guide_bar =>
      let calls0 :=
        if (graph_y <? 0) || (graph_y >=? get_ysize)
        then [remove_user_guide_bar (_drag_guide_bar this)]
        else [move_user_guide_bar (_drag_guide_bar this) (pixel_to_height graph_y)] in
      let (this1, calls1) := set_drag_mode DM_none this in
      let '(result, this2, calls2) := handle_motion graph_x graph_y this1 in
      (result, this2, calls0 ++ calls1 ++ calls2)
  | _ => (GtkStatsGraph_handle_button_release graph_x graph_y this, [])
  end.

(** ** Notions the properties are stated with *)

(** Whether the running total of the bands, started at [overall_time],
    comes to exceed the vertical scale. *)
Fixpoint exceeds (fdata : list (ColorData double)) (overall_time : double) : bool :=
  match fdata with
  | [] => false
  | cd :: rest =>
      let overall_time := dplus overall_time (_net_value cd) in
      dgt overall_time get_vertical_scale || exceeds rest overall_time
  end.

(** A line across the columns from [from_x] to [to_x], below the top row. *)
Definition bar_line (from_x to_x : Z) (l : Z * Z * Z * Z) : Prop :=
  exists y, l = (from_x, y, to_x, y) /\ 0 < y.

(** The height of the label of a bar and the row of its top were it shown:
    the label is centred on the row of the bar in [_scale_area]. *)
Definition label_height (bar : GuideBar double) : Z :=
  snd (pango_layout_get_pixel_size (_label bar)).

Definition label_top (bar : GuideBar double) : Z :=
  int_sub (gtk_widget_translate_coordinates (height_to_pixel (_height bar)))
          (Z.quot (label_height bar) 2).

(** The bar a label is shown for: it lies within the graph, the label is
    centred on it, and no user guide bar is within the label's height of it
    unless it is one itself. *)
Definition shown_for (bar : GuideBar double) (shown : Z * string) : Prop :=
  let y := height_to_pixel (_height bar) in
  let height := label_height bar in
  snd shown = _label bar /\
  0 <= y < get_ysize /\
  fst shown = label_top bar /\
  (_style bar = GBS_user \/
   find_user_guide_bar (pixel_to_height (int_add y height))
     (pixel_to_height (int_sub y height)) < 0).

(** The label of a bar fits in [int]s: its height is not negative, and
    neither the row of its top nor the row its height below it is out of
    the range of [int]. *)
Definition label_fits (bar : GuideBar double) : Prop :=
  let top := gtk_widget_translate_coordinates (height_to_pixel (_height bar))
             - Z.quot (label_height bar) 2 in
  0 <= label_height bar /\ INT_MIN <= top /\ top + label_height bar <= INT_MAX.

(** Rows that do not go down the screen: each is at or above the one
    before it. *)
Fixpoint rising (rows : list Z) : Prop :=
  match rows with
  | [] => True
  | a :: rest =>
      match rest with
      | [] => True
      | b :: _ => b <= a /\ rising rest
      end
  end.

(** The label shown at [s1] lies wholly above the row [top]: the row its
    height below its top is above [top]. *)
Definition above (top : Z) (s1 : Z * string) : Prop :=
  fst s1 + snd (pango_layout_get_pixel_size (snd s1)) < top.

(** No two of the labels overlap: each lies wholly above every label shown
    before it. *)
Fixpoint apart (shown : list (Z * string)) : Prop :=
  match shown with
  | [] => True
  | s :: rest => Forall (above (fst s)) rest /\ apart rest
  end.

(** ** Properties of the chart *)

(** *** Units *)

Lemma land_lor_land_disjoint (a b m s : Z) :
  Z.land s m = 0 ->
  Z.land (Z.lor (Z.land a m) (Z.land b s)) m = Z.land a m /\
  Z.land (Z.lor (Z.land a m) (Z.land b s)) s = Z.land b s /\
  Z.land (Z.lor (Z.land a m) (Z.land b s)) (Z.lnot (Z.lor m s)) = 0.
Proof using Type.
  intros H.
  assert (Hb : forall n, 0 <= n -> Z.testbit s n && Z.testbit m n = false).
  { intros n Hn. rewrite <- Z.land_spec, H. apply Z.bits_0. }
  repeat split; apply Z.bits_inj'; intros n Hn; specialize (Hb n Hn);
    rewrite ?Z.land_spec, ?Z.lor_spec, ?Z.lnot_spec, ?Z.land_spec, ?Z.lor_spec, ?Z.bits_0
      by exact Hn;
    destruct (Z.testbit a n), (Z.testbit b n), (Z.testbit m n), (Z.testbit s n);
    try reflexivity; discriminate Hb.
Qed.

(** X9: [set_time_units] does nothing on a chart whose units have neither
    [GBU_hz] nor [GBU_ms]; on any other chart it sets the units once and
    queues one redraw of the scale.  Where [GBU_show_units] is a bit apart
    from the two time bits, the units it sets take their time bits from the
    request and their [GBU_show_units] bit from the units the chart had, and
    have no other bit. *)
Theorem set_time_units_mask (guide_bar_units unit_mask : Z) :
  Z.land GBU_show_units (Z.lor GBU_hz GBU_ms) = 0 ->
  (Z.land guide_bar_units (Z.lor GBU_hz GBU_ms) = 0 /\
   set_time_units guide_bar_units unit_mask = []) \/
  (Z.land guide_bar_units (Z.lor GBU_hz GBU_ms) <> 0 /\
   exists m,
     set_time_units guide_bar_units unit_mask =
       [set_guide_bar_units m; gtk_widget_queue_draw _scale_area] /\
     Z.land m (Z.lor GBU_hz GBU_ms) = Z.land unit_mask (Z.lor GBU_hz GBU_ms) /\
     Z.land m GBU_show_units = Z.land guide_bar_units GBU_show_units /\
     Z.land m (Z.lnot (Z.lor (Z.lor GBU_hz GBU_ms) GBU_show_units)) = 0).
Proof using Type.
  intros Hdisjoint. unfold set_time_units.
  destruct (Z.eqb_spec (Z.land guide_bar_units (Z.lor GBU_hz GBU_ms)) 0) as [E|E].
  - left. split; [exact E | reflexivity].
  - right. split; [exact E|]. eexists. split; [reflexivity|].
    apply land_lor_land_disjoint. exact Hdisjoint.
Qed.

(** X10: a chart of levels, whose units the constructor set to [GBU_named] with
    or without [GBU_show_units], ignores [set_time_units], where these two
    bits are apart from the two time bits. *)
Theorem set_time_units_ignores_level_chart
    (unit_name_empty : bool) (guide_bar_units unit_mask : Z) :
  Z.land GBU_named (Z.lor GBU_hz GBU_ms) = 0 ->
  Z.land GBU_show_units (Z.lor GBU_hz GBU_ms) = 0 ->
  set_time_units (constructor_guide_bar_units true unit_name_empty guide_bar_units)
    unit_mask = [].
Proof using Type.
  intros Hnamed Hshow. unfold set_time_units, constructor_guide_bar_units.
  destruct unit_name_empty.
  - rewrite Hnamed. reflexivity.
  - rewrite Z.land_lor_distr_l, Hnamed, Hshow. reflexivity.
Qed.

(** *** Clicking a label *)

Lemma on_click_label_negative (collector_index : Z) :
  collector_index < 0 ->
  on_click_label collector_index = on_click_label get_collector_index.
Proof using Type.
  intros Hneg. unfold on_click_label.
  apply Z.ltb_lt in Hneg. rewrite Hneg.
  destruct (get_collector_index <? 0); reflexivity.
Qed.

(** X11: a click on the whitespace of the graph (a negative index) does
    what a click on the top label does.  A click changes the collector at
    most once.  A click on a label other than the top one focuses on that
    label.  On a chart of levels a click on the top label or on whitespace
    never moves to the collector 0 ("Frame"). *)
Theorem on_click_label_target (collector_index : Z) :
  (collector_index < 0 ->
   on_click_label collector_index = on_click_label get_collector_index) /\
  (length (on_click_label collector_index) <= 1)%nat /\
  (0 <= collector_index -> collector_index <> get_collector_index ->
   on_click_label collector_index = [set_collector_index collector_index]) /\
  (get_show_level = true -> get_collector_index <> 0 ->
   collector_index < 0 \/ collector_index = get_collector_index ->
   ~ In (set_collector_index 0) (on_click_label collector_index)).
Proof using Type.
  split; [apply on_click_label_negative|]. split; [|split].
  - unfold on_click_label.
    repeat match goal with
           | |- context [if ?c then _ else _] => destruct c
           end; simpl; lia.
  - intros Hpos Hne. unfold on_click_label.
    destruct (Z.ltb_spec collector_index 0) as [H|_]; [lia|].
    destruct (Z.eqb_spec collector_index get_collector_index) as [H|_]; [contradiction|].
    reflexivity.
  - intros Hlevel Hcur Hclick.
    assert (Htop : on_click_label collector_index = on_click_label get_collector_index).
    { destruct Hclick as [Hneg|Heq]; [|rewrite Heq; reflexivity].
      apply on_click_label_negative. exact Hneg. }
    rewrite Htop. unfold on_click_label. rewrite Hlevel.
    assert (Hc : (if get_collector_index <? 0 then get_collector_index
                  else get_collector_index) = get_collector_index)
      by (destruct (get_collector_index <? 0); reflexivity).
    rewrite Hc, Z.eqb_refl.
    destruct (Z.eqb_spec get_collector_index 0) as [H|_]; [contradiction|].
    cbn [andb negb].
    destruct (has_collector get_collector_index); [|intros []].
    destruct (Z.eqb_spec (_parent_index get_collector_index) 0) as [H|H];
      cbn [andb]; [intros []|].
    intros [Hin|[]]. inversion Hin. contradiction.
Qed.

(** *** [int] *)

Lemma to_int_small (z : Z) : INT_MIN <= z <= INT_MAX -> to_int z = z.
Proof using Type.
  unfold INT_MIN, INT_MAX, to_int.
  change (2 ^ 31) with 2147483648. change (2 ^ 32) with 4294967296.
  intros H. rewrite Z.mod_small by lia. lia.
Qed.

Lemma to_int_range (z : Z) : INT_MIN <= to_int z <= INT_MAX.
Proof using Type.
  unfold INT_MIN, INT_MAX, to_int.
  change (2 ^ 31) with 2147483648. change (2 ^ 32) with 4294967296.
  pose proof (Z.mod_pos_bound (z + 2147483648) 4294967296 eq_refl). lia.
Qed.

(** *** A slice of the chart *)

Lemma draw_slice_bands_prefix (this : GtkStatsStripChart double) (x w : Z)
    (fdata : list (ColorData double)) (overall_time : double) (y : Z) :
  let rs := rectangles (draw_slice_bands this x w fdata overall_time y) in
  collectors (draw_slice_bands this x w fdata overall_time y) =
    firstn (length rs) (map _collector_index fdata) /\
  (length rs <= length fdata)%nat /\
  (if exceeds fdata overall_time then top_of y rs = 0 else length rs = length fdata).
Proof using Type.
  revert overall_time y. induction fdata as [|cd rest IH]; intros overall_time y.
  - repeat split; simpl; lia.
  - cbn [draw_slice_bands exceeds].
    destruct (dgt (dplus overall_time (_net_value cd)) get_vertical_scale).
    + cbn [rectangles collectors top_of length firstn map orb].
      split; [reflexivity|]. split; [lia | reflexivity].
    + specialize (IH (dplus overall_time (_net_value cd))
                     (height_to_pixel (dplus overall_time (_net_value cd)))).
      cbv zeta in IH. destruct IH as (IH1 & IH2 & IH3).
      cbn [rectangles collectors top_of length firstn map orb].
      rewrite IH1. split; [reflexivity|]. split; [lia|].
      destruct (exceeds rest (dplus overall_time (_net_value cd)));
        [exact IH3 | rewrite IH3; reflexivity].
Qed.

Lemma draw_slice_bands_stacked (this : GtkStatsStripChart double) (x w : Z)
    (fdata : list (ColorData double)) (overall_time : double) (y : Z) :
  (forall total cd, In cd fdata ->
     height_to_pixel (dplus total (_net_value cd)) <= height_to_pixel total) ->
  (forall total, dgt total get_vertical_scale = false -> 0 <= height_to_pixel total) ->
  0 <= y <= INT_MAX -> height_to_pixel overall_time <= y ->
  let rs := rectangles (draw_slice_bands this x w fdata overall_time y) in
  stacked x w y rs = true /\
  total_height rs = y - top_of y rs /\
  0 <= top_of y rs.
Proof using Type.
  intros Hmono Htop.
  revert overall_time y. induction fdata as [|cd rest IH]; intros overall_time y Hy Hle.
  - repeat split; simpl; lia.
  - cbn [draw_slice_bands].
    destruct (dgt (dplus overall_time (_net_value cd)) get_vertical_scale) eqn:Egt.
    + cbn [rectangles stacked total_height top_of fold_right snd].
      rewrite !Z.eqb_refl, (proj2 (Z.leb_le 0 y)) by lia.
      split; [reflexivity|]. split; lia.
    + set (top_y := height_to_pixel (dplus overall_time (_net_value cd))).
      assert (H0 : 0 <= top_y) by (apply Htop; exact Egt).
      assert (H1 : top_y <= y).
      { pose proof (Hmono overall_time cd (or_introl eq_refl)). unfold top_y. lia. }
      assert (Hsub : int_sub y top_y = y - top_y).
      { apply to_int_small. unfold INT_MIN, INT_MAX in *. lia. }
      destruct (IH (fun total cd' Hin => Hmono total cd' (or_intror Hin))
                  (dplus overall_time (_net_value cd)) top_y)
        as (IH1 & IH2 & IH3); [lia | unfold top_y; lia |].
      fold top_y in IH1, IH2, IH3.
      cbn [rectangles stacked total_height top_of fold_right snd].
      rewrite Hsub, !Z.eqb_refl, IH1, (proj2 (Z.leb_le 0 (y - top_y))),
        (proj2 (Z.eqb_eq (top_y + (y - top_y)) y)) by lia.
      split; [reflexivity|]. split; [|exact IH3].
      unfold total_height in IH2. rewrite IH2. lia.
Qed.


(** *** Guide bars *)

Lemma draw_guide_bar_line (from_x to_x : Z) (bar : GuideBar double) (rest : list (Call double)) :
  lines_stroked (draw_guide_bar from_x to_x bar ++ rest) =
  (if 0 <? height_to_pixel (_height bar)
   then [(from_x, height_to_pixel (_height bar), to_x, height_to_pixel (_height bar))]
   else []) ++ lines_stroked rest.
Proof using Type.
  unfold draw_guide_bar.
  destruct (0 <? height_to_pixel (_height bar)); reflexivity.
Qed.

Lemma draw_guide_bars_lines (from_x to_x : Z) (get : Z -> GuideBar double)
    (indices : list Z) (rest : list (Call double)) :
  let calls := flat_map (fun i => draw_guide_bar from_x to_x (get i)) indices in
  lines_stroked (calls ++ rest) = lines_stroked calls ++ lines_stroked rest /\
  Forall (bar_line from_x to_x) (lines_stroked calls) /\
  (length (lines_stroked calls) <= length indices)%nat.
Proof using Type.
  induction indices as [|i indices IH]; cbn [flat_map].
  - split; [reflexivity|]. split; [constructor | simpl; lia].
  - cbv zeta in IH. destruct IH as (IH1 & IH2 & IH3).
    rewrite <- app_assoc, !draw_guide_bar_line, IH1, app_assoc.
    split; [reflexivity|].
    destruct (Z.ltb_spec 0 (height_to_pixel (_height (get i)))) as [H|H];
      cbn [app length].
    + split; [|lia]. constructor; [|exact IH2].
      eexists. split; [reflexivity | exact H].
    + split; [exact IH2 | lia].
Qed.

(** X13: every line [end_draw] strokes is a horizontal line from [from_x] to
    [to_x] on a pixel row below the top row, at most one for each guide bar,
    and the last thing it does is invalidate a rectangle that begins at the
    column [from_x], spans the full height of the chart and is
    [to_x - from_x] wide as [int]s subtract, which is the number of columns
    from [from_x] to [to_x] whenever that number is an [int].  The lines of
    [additional_graph_window_paint] are such lines across the whole graph, at
    most one for each user guide bar. *)
Theorem guide_bar_lines (from_x to_x : Z) :
  Forall (bar_line from_x to_x) (lines_stroked (end_draw from_x to_x)) /\
  (length (lines_stroked (end_draw from_x to_x)) <= Z.to_nat get_num_guide_bars)%nat /\
  (exists calls,
     end_draw from_x to_x =
     calls ++ [gdk_window_invalidate_rect from_x 0 (int_sub to_x from_x) get_ysize]) /\
  INT_MIN <= int_sub to_x from_x <= INT_MAX /\
  (INT_MIN <= to_x - from_x <= INT_MAX ->
   exists calls,
     end_draw from_x to_x =
     calls ++ [gdk_window_invalidate_rect from_x 0 (to_x - from_x) get_ysize]) /\
  Forall (bar_line 0 get_xsize) (lines_stroked additional_graph_window_paint) /\
  (length (lines_stroked additional_graph_window_paint)
   <= Z.to_nat get_num_user_guide_bars)%nat.
Proof using Type.
  unfold end_draw, additional_graph_window_paint.
  destruct (draw_guide_bars_lines from_x to_x get_guide_bar (counting get_num_guide_bars)
              [gdk_window_invalidate_rect from_x 0 (int_sub to_x from_x) get_ysize])
    as (E1 & F1 & L1).
  destruct (draw_guide_bars_lines 0 get_xsize get_user_guide_bar
              (counting get_num_user_guide_bars) []) as (_ & F2 & L2).
  unfold counting in L1, L2. rewrite length_map, length_seq in L1, L2.
  rewrite E1. cbn [lines_stroked]. rewrite app_nil_r.
  split; [exact F1|]. split; [exact L1|]. split; [eexists; reflexivity|].
  split; [apply to_int_range|].
  split; [|split; [exact F2 | exact L2]].
  intros Hr. unfold int_sub. rewrite (to_int_small _ Hr). eexists. reflexivity.
Qed.

(** *** Labels of the scale *)

Lemma draw_guide_label_cases (bar : GuideBar double) (last_y : Z) :
  (draw_guide_label bar last_y =
     (last_y, [cairo_set_source_rgb (guide_bar_color (_style bar))])) \/
  (draw_guide_label bar last_y =
     (label_top bar, [cairo_set_source_rgb (guide_bar_color (_style bar));
                      cairo_move_to 0 (label_top bar);
                      pango_cairo_show_layout (_label bar)]) /\
   shown_for bar (label_top bar, _label bar) /\
   (last_y < label_top bar \/
    last_y > int_add (label_top bar) (label_height bar))).
Proof using Type.
  unfold draw_guide_label, shown_for, label_top, label_height.
  set (y := height_to_pixel (_height bar)).
  set (height := snd (pango_layout_get_pixel_size (_label bar))).
  set (this_y := int_sub (gtk_widget_translate_coordinates y) (Z.quot height 2)).
  destruct (is_GBS_user (_style bar)) eqn:Eu; cbn [negb andb].
  - destruct (Z.geb_spec y 0) as [H0|H0]; cbn [andb]; [|left; reflexivity].
    destruct (Z.ltb_spec y get_ysize) as [H1|H1]; [|left; reflexivity].
    destruct (Z.ltb_spec last_y this_y) as [H2|H2]; cbn [orb].
    + right. split; [reflexivity|]. cbn [fst snd].
      repeat split; try lia. left. destruct (_style bar); try discriminate; reflexivity.
    + destruct (Z.gtb_spec last_y (int_add this_y height)) as [H3|H3];
        [|left; reflexivity].
      right. split; [reflexivity|]. cbn [fst snd].
      repeat split; try lia. left. destruct (_style bar); try discriminate; reflexivity.
  - destruct (Z.geb_spec (find_user_guide_bar (pixel_to_height (int_add y height))
                            (pixel_to_height (int_sub y height))) 0) as [Hf|Hf];
      [left; reflexivity|].
    destruct (Z.geb_spec y 0) as [H0|H0]; cbn [andb]; [|left; reflexivity].
    destruct (Z.ltb_spec y get_ysize) as [H1|H1]; [|left; reflexivity].
    destruct (Z.ltb_spec last_y this_y) as [H2|H2]; cbn [orb].
    + right. split; [reflexivity|]. cbn [fst snd].
      repeat split; lia.
    + destruct (Z.gtb_spec last_y (int_add this_y height)) as [H3|H3];
        [|left; reflexivity].
      right. split; [reflexivity|]. cbn [fst snd].
      repeat split; lia.
Qed.

Lemma draw_guide_label_app (bar : GuideBar double) (last_y : Z) (rest : list (Call double)) :
  labels_shown (snd (draw_guide_label bar last_y) ++ rest) =
  labels_shown (snd (draw_guide_label bar last_y)) ++ labels_shown rest.
Proof using Type.
  destruct (draw_guide_label_cases bar last_y) as [E|(E & _)];
    rewrite E; reflexivity.
Qed.

(** One pass over guide bars: the labels it shows. *)
Lemma draw_guide_label_each_shown (bars : list (GuideBar double)) (last_y : Z)
    (rest : list (Call double)) :
  let shown := labels_shown (snd (draw_guide_label_each bars last_y)) in
  Forall (fun s => exists bar, In bar bars /\ shown_for bar s) shown /\
  labels_shown (snd (draw_guide_label_each bars last_y) ++ rest) =
    shown ++ labels_shown rest.
Proof using Type.
  revert last_y. induction bars as [|bar bars' IH]; intros last_y.
  - split; [constructor | reflexivity].
  - cbn [draw_guide_label_each].
    specialize (IH (fst (draw_guide_label bar last_y))). cbv zeta in IH.
    pose proof (draw_guide_label_app bar last_y) as Happ.
    destruct (draw_guide_label_cases bar last_y) as [E|(E & Hfor & _)];
      rewrite E in *; cbn [fst snd] in IH, Happ;
      destruct (draw_guide_label_each bars' _) as [last_y2 calls2];
      cbn [fst snd] in *; destruct IH as (IH3 & IH4).
    + cbn [app labels_shown]. split; [|exact IH4].
      eapply List.Forall_impl; [|exact IH3].
      intros s (b & Hb & Hs). exists b. split; [right; exact Hb | exact Hs].
    + cbn [app labels_shown]. split.
      * constructor.
        -- exists bar. split; [left; reflexivity | exact Hfor].
        -- eapply List.Forall_impl; [|exact IH3].
           intros s (b & Hb & Hs). exists b. split; [right; exact Hb | exact Hs].
      * rewrite IH4. reflexivity.
Qed.

Lemma draw_guide_label_each_app (a b : list (GuideBar double)) (last_y : Z) :
  draw_guide_label_each (a ++ b) last_y =
  (fst (draw_guide_label_each b (fst (draw_guide_label_each a last_y))),
   snd (draw_guide_label_each a last_y) ++
   snd (draw_guide_label_each b (fst (draw_guide_label_each a last_y)))).
Proof using Type.
  revert last_y. induction a as [|bar a' IH]; intros last_y.
  - cbn [app draw_guide_label_each fst snd].
    destruct (draw_guide_label_each b last_y). reflexivity.
  - cbn [app draw_guide_label_each].
    destruct (draw_guide_label bar last_y) as [last_y1 calls1].
    rewrite IH.
    destruct (draw_guide_label_each a' last_y1) as [last_y2 calls2].
    cbn [fst snd].
    destruct (draw_guide_label_each b last_y2) as [last_y3 calls3].
    cbn [fst snd]. rewrite app_assoc. reflexivity.
Qed.

Lemma in_counting (get : Z -> GuideBar double) (n : Z) (bar : GuideBar double) :
  In bar (map get (counting n)) -> exists i, 0 <= i < n /\ bar = get i.
Proof using Type.
  intros H. apply in_map_iff in H. destruct H as (i & Hi & Hin).
  unfold counting in Hin. apply in_map_iff in Hin. destruct Hin as (k & Hk & Hin).
  apply in_seq in Hin. exists i. split; [lia | symmetry; exact Hi].
Qed.

(** The top and the row below a label that fits are what the [int]s give. *)
Lemma label_fits_top (bar : GuideBar double) :
  label_fits bar ->
  0 <= label_height bar /\
  int_add (label_top bar) (label_height bar) = label_top bar + label_height bar.
Proof using Type.
  unfold label_fits. cbv zeta. intros (Hh & Hmin & Hmax).
  split; [exact Hh|].
  assert (Htop : label_top bar =
                 gtk_widget_translate_coordinates (height_to_pixel (_height bar))
                 - Z.quot (label_height bar) 2).
  { unfold label_top, int_sub. apply to_int_small. lia. }
  unfold int_add. apply to_int_small. rewrite Htop. lia.
Qed.

Lemma rising_cons (a : Z) (rows : list Z) :
  rising (a :: rows) -> Forall (fun b => b <= a) rows /\ rising rows.
Proof using Type.
  revert a. induction rows as [|b rows IH]; intros a H.
  - split; constructor.
  - destruct H as [Hba Hr]. split; [|exact Hr].
    constructor; [exact Hba|].
    destruct (IH b Hr) as [Hall _].
    eapply List.Forall_impl; [|exact Hall]. intros c Hc. cbv beta in *. lia.
Qed.

(** A pass over bars whose labels would all begin at or above [last_y]:
    every label shown lies wholly above [last_y], and no two overlap. *)
Lemma draw_guide_label_each_above (bars : list (GuideBar double)) (last_y : Z) :
  Forall label_fits bars ->
  Forall (fun bar => label_top bar <= last_y) bars ->
  rising (map label_top bars) ->
  let shown := labels_shown (snd (draw_guide_label_each bars last_y)) in
  Forall (above last_y) shown /\ apart shown.
Proof using Type.
  revert last_y. induction bars as [|bar bars' IH]; intros last_y Hfits Hle Hrise.
  - split; [constructor | exact I].
  - cbn [draw_guide_label_each].
    inversion Hfits as [|? ? Hfit Hfits']; subst.
    inversion Hle as [|? ? Hle0 Hle']; subst.
    cbn [map] in Hrise. apply rising_cons in Hrise. destruct Hrise as [Hall Hrise'].
    destruct (label_fits_top bar Hfit) as [Hh Hadd].
    pose proof (draw_guide_label_each_shown bars') as Hshown.
    destruct (draw_guide_label_cases bar last_y) as [E|(E & _ & Hsp)]; rewrite E.
    + specialize (IH last_y Hfits' Hle' Hrise'). cbv zeta in IH.
      destruct (draw_guide_label_each bars' last_y) as [last_y2 calls2].
      cbn [snd app labels_shown]. exact IH.
    + assert (Hle1 : Forall (fun b => label_top b <= label_top bar) bars').
      { apply List.Forall_forall. intros b Hb.
        apply (proj1 (List.Forall_forall _ _) Hall). apply List.in_map. exact Hb. }
      specialize (IH (label_top bar) Hfits' Hle1 Hrise'). cbv zeta in IH.
      destruct (draw_guide_label_each bars' (label_top bar)) as [last_y2 calls2].
      cbn [snd] in *. cbn [app labels_shown]. destruct IH as [IH1 IH2].
      assert (Hab : label_top bar + label_height bar < last_y) by lia.
      split.
      * constructor; [exact Hab|].
        eapply List.Forall_impl; [|exact IH1].
        intros s Hs. unfold above in *. lia.
      * cbn [apart fst]. split; assumption.
Qed.

(** A pass over bars whose rows do not go down the screen, whatever the
    label before it: no two of the labels shown overlap. *)
Lemma draw_guide_label_each_apart (bars : list (GuideBar double)) (last_y : Z) :
  Forall label_fits bars ->
  rising (map label_top bars) ->
  apart (labels_shown (snd (draw_guide_label_each bars last_y))).
Proof using Type.
  revert last_y. induction bars as [|bar bars' IH]; intros last_y Hfits Hrise.
  - exact I.
  - cbn [draw_guide_label_each].
    inversion Hfits as [|? ? Hfit Hfits']; subst.
    cbn [map] in Hrise. apply rising_cons in Hrise. destruct Hrise as [Hall Hrise'].
    destruct (draw_guide_label_cases bar last_y) as [E|(E & _ & _)]; rewrite E.
    + specialize (IH last_y Hfits' Hrise').
      destruct (draw_guide_label_each bars' last_y) as [last_y2 calls2].
      cbn [snd app labels_shown]. exact IH.
    + assert (Hle1 : Forall (fun b => label_top b <= label_top bar) bars').
      { apply List.Forall_forall. intros b Hb.
        apply (proj1 (List.Forall_forall _ _) Hall). apply List.in_map. exact Hb. }
      pose proof (draw_guide_label_each_above bars' (label_top bar) Hfits' Hle1 Hrise')
        as Hab. cbv zeta in Hab.
      destruct (draw_guide_label_each bars' (label_top bar)) as [last_y2 calls2].
      cbn [snd] in *. cbn [app labels_shown apart fst]. exact Hab.
Qed.

(** X14: [draw_guide_labels] shows the labels of the guide bars, then that of
    the top value, then those of the user guide bars.  A label is shown only
    for a bar within the graph and centred on it, and the label of a bar that
    is not a user guide bar is never shown while a user guide bar lies within
    the label's height of it.  When the rows of the guide bars and of the top
    value, in this order, do not go down the screen and their labels fit in
    [int]s, no two of the labels shown for them overlap: each lies wholly
    above those shown before it.  The same holds of the labels of the user
    guide bars among themselves, which start afresh. *)
Theorem draw_guide_labels_apart :
  exists shown top user,
    labels_shown draw_guide_labels = shown ++ top ++ user /\
    (length top <= 1)%nat /\
    Forall (fun s => exists i, 0 <= i < get_num_guide_bars /\
                               shown_for (get_guide_bar i) s) shown /\
    Forall (shown_for (make_guide_bar get_vertical_scale)) top /\
    Forall (fun s => exists i, 0 <= i < get_num_user_guide_bars /\
                               shown_for (get_user_guide_bar i) s) user /\
    (Forall label_fits
       (map get_guide_bar (counting get_num_guide_bars)
        ++ [make_guide_bar get_vertical_scale]) ->
     rising (map label_top
               (map get_guide_bar (counting get_num_guide_bars)
                ++ [make_guide_bar get_vertical_scale])) ->
     apart (shown ++ top)) /\
    (Forall label_fits (map get_user_guide_bar (counting get_num_user_guide_bars)) ->
     rising (map label_top
               (map get_user_guide_bar (counting get_num_user_guide_bars))) ->
     apart user).
Proof using Type.
  unfold draw_guide_labels.
  set (bars := map get_guide_bar (counting get_num_guide_bars)).
  set (user_bars := map get_user_guide_bar (counting get_num_user_guide_bars)).
  set (top_value := make_guide_bar get_vertical_scale).
  destruct (draw_guide_label_each_shown user_bars (-100) []) as (U3 & _).
  pose proof (fun rest => draw_guide_label_each_shown bars (-100) rest) as S.
  pose proof (draw_guide_label_each_app bars [top_value] (-100)) as Eapp.
  pose proof (fun Hf Hr => draw_guide_label_each_apart (bars ++ [top_value]) (-100) Hf Hr)
    as Hapart.
  rewrite Eapp in Hapart. cbn [snd] in Hapart.
  destruct (draw_guide_label_each bars (-100)) as [last_y calls1].
  cbn [fst snd] in S, Hapart.
  destruct (S []) as (S3 & _).
  exists (labels_shown calls1),
         (labels_shown (snd (draw_guide_label top_value last_y))),
         (labels_shown (snd (draw_guide_label_each user_bars (-100)))).
  split; [|split; [|split; [|split; [|split; [|split]]]]].
  - rewrite (proj2 (S _)), draw_guide_label_app. reflexivity.
  - destruct (draw_guide_label_cases top_value last_y) as [E|(E & _)];
      rewrite E; simpl; lia.
  - eapply List.Forall_impl; [|exact S3].
    intros s (b & Hb & Hs). apply in_counting in Hb. destruct Hb as (i & Hi & ->).
    exists i. split; assumption.
  - destruct (draw_guide_label_cases top_value last_y) as [E|(E & Hfor & _)];
      rewrite E; cbn [snd labels_shown]; constructor; [exact Hfor | constructor].
  - eapply List.Forall_impl; [|exact U3].
    intros s (b & Hb & Hs). apply in_counting in Hb. destruct Hb as (i & Hi & ->).
    exists i. split; assumption.
  - intros Hf Hr. specialize (Hapart Hf Hr).
    cbn [draw_guide_label_each] in Hapart.
    destruct (draw_guide_label top_value last_y) as [last_y1 calls2].
    cbn [fst snd] in *. rewrite app_nil_r in Hapart.
    rewrite (proj2 (S calls2)) in Hapart. exact Hapart.
  - intros Hf Hr. exact (draw_guide_label_each_apart user_bars (-100) Hf Hr).
Qed.

(** *** The mouse *)

(** [GtkStatsGraph::set_drag_mode] stores the mode, and the label hooks
    leave it alone. *)
Hypothesis GtkStatsGraph_set_drag_mode_stores :
  forall m c, _drag_mode (GtkStatsGraph_set_drag_mode m c) = m.
Hypothesis on_enter_label_keeps_drag_mode :
  forall i c, _drag_mode (on_enter_label i c) = _drag_mode c.
Hypothesis on_leave_label_keeps_drag_mode :
  forall i c, _drag_mode (on_leave_label i c) = _drag_mode c.

Lemma set_drag_mode_none (this : Chart) :
  set_drag_mode DM_none this =
  (GtkStatsGraph_set_drag_mode DM_none this,
   [set_average_mode gtk_toggle_button_get_active]).
Proof using GtkStatsGraph_set_drag_mode_stores.
  unfold set_drag_mode. rewrite GtkStatsGraph_set_drag_mode_stores. reflexivity.
Qed.

Lemma handle_motion_not_dragging (graph_x graph_y : Z) (this : Chart) :
  _drag_mode this = DM_none ->
  exists this1 collector_index,
    handle_motion graph_x graph_y this =
      (GtkStatsGraph_handle_motion graph_x graph_y this1,
       [highlight_label collector_index]) /\
    (this1 = on_enter_label collector_index this \/
     this1 = on_leave_label (_highlighted_index this) this /\ collector_index = -1).
Proof using on_enter_label_keeps_drag_mode on_leave_label_keeps_drag_mode.
  intros Hnone. unfold handle_motion.
  destruct (DragMode_eqb (_drag_mode this) DM_none &&
            DragMode_eqb (_potential_drag_mode this) DM_none &&
            (graph_x >=? 0) && (graph_y >=? 0) &&
            (graph_x <? get_xsize) && (graph_y <? get_ysize)).
  - rewrite on_enter_label_keeps_drag_mode, Hnone.
    eexists _, _. split; [reflexivity | left; reflexivity].
  - rewrite on_leave_label_keeps_drag_mode, Hnone.
    eexists _, _. split; [reflexivity | right; split; reflexivity].
Qed.

Lemma handle_button_release_ends_drag (graph_x graph_y : Z) (this : Chart) :
  _drag_mode this = DM_scale \/ _drag_mode this = DM_guide_bar ->
  exists this1 collector_index,
    handle_button_release graph_x graph_y this =
      (GtkStatsGraph_handle_motion graph_x graph_y this1,
       match _drag_mode this with
       | DM_guide_bar =>
           if (graph_y <? 0) || (graph_y >=? get_ysize)
           then [remove_user_guide_bar (_drag_guide_bar this)]
           else [move_user_guide_bar (_drag_guide_bar this) (pixel_to_height graph_y)]
       | _ => []
       end ++
       [set_average_mode gtk_toggle_button_get_active;
        highlight_label collector_index]).
Proof using GtkStatsGraph_set_drag_mode_stores on_enter_label_keeps_drag_mode
            on_leave_label_keeps_drag_mode.
  intros Hmode. unfold handle_button_release.
  destruct (handle_motion_not_dragging graph_x graph_y
              (GtkStatsGraph_set_drag_mode DM_none this)
              (GtkStatsGraph_set_drag_mode_stores DM_none this))
    as (this1 & collector_index & Hmotion & _).
  exists this1, collector_index.
  destruct Hmode as [Hmode|Hmode]; rewrite Hmode, set_drag_mode_none, Hmotion.
  - destruct (GtkStatsGraph_handle_motion graph_x graph_y this1). reflexivity.
  - destruct (GtkStatsGraph_handle_motion graph_x graph_y this1).
    destruct ((graph_y <? 0) || (graph_y >=? get_ysize)); reflexivity.
Qed.

(** X15: a click within the graph, on a chart with no drag in prospect, leaves
    the vertical scale alone: the press begins a scale drag from the height
    under the mouse and turns smoothing off, and the release, wherever it
    falls, ends the drag and sets smoothing as the check box has it before
    the mouse position is looked at, so that the chart's own code does no
    more than change the highlight. *)
Theorem click_leaves_vertical_scale (graph_x graph_y release_x release_y : Z)
    (this : Chart) :
  (graph_x >=? 0) && (graph_y >=? 0) && (graph_x <? get_xsize) && (graph_y <? get_ysize)
    = true ->
  _potential_drag_mode this = DM_none ->
  exists pressed released collector_index,
    handle_button_press graph_x graph_y false this =
      (true, pressed, [set_average_mode false]) /\
    _drag_mode pressed = DM_scale /\
    _drag_scale_start pressed = pixel_to_height graph_y /\
    handle_button_release release_x release_y pressed =
      (GtkStatsGraph_handle_motion release_x release_y released,
       [set_average_mode gtk_toggle_button_get_active;
        highlight_label collector_index]).
Proof using GtkStatsGraph_set_drag_mode_stores on_enter_label_keeps_drag_mode
            on_leave_label_keeps_drag_mode.
  intros Hinside Hpotential.
  set (pressed := with_drag_scale_start (GtkStatsGraph_set_drag_mode DM_scale this)
                    (pixel_to_height graph_y)).
  assert (Hmode : _drag_mode pressed = DM_scale)
    by apply GtkStatsGraph_set_drag_mode_stores.
  destruct (handle_button_release_ends_drag release_x release_y pressed (or_introl Hmode))
    as (released & collector_index & Hrelease).
  exists pressed, released, collector_index.
  split; [|split; [exact Hmode|split; [reflexivity|]]].
  - unfold handle_button_press, set_drag_mode.
    rewrite Hinside, Hpotential, GtkStatsGraph_set_drag_mode_stores. reflexivity.
  - rewrite Hrelease, Hmode. reflexivity.
Qed.

(** X16: releasing a dragged guide bar above or below the graph removes it, and
    releasing it within the graph moves it to the height under the mouse;
    either way the drag has ended before the mouse position is looked at, so
    the bar is neither moved again nor, once removed, moved at all. *)
Theorem released_guide_bar_is_settled_once (graph_x graph_y : Z) (this : Chart) :
  _drag_mode this = DM_guide_bar ->
  exists this1 collector_index,
    handle_button_release graph_x graph_y this =
      (GtkStatsGraph_handle_motion graph_x graph_y this1,
       [if (graph_y <? 0) || (graph_y >=? get_ysize)
        then remove_user_guide_bar (_drag_guide_bar this)
        else move_user_guide_bar (_drag_guide_bar this) (pixel_to_height graph_y);
        set_average_mode gtk_toggle_button_get_active;
        highlight_label collector_index]).
Proof using GtkStatsGraph_set_drag_mode_stores on_enter_label_keeps_drag_mode
            on_leave_label_keeps_drag_mode.
  intros Hmode.
  destruct (handle_button_release_ends_drag graph_x graph_y this (or_intror Hmode))
    as (this1 & collector_index & Hrelease).
  exists this1, collector_index. rewrite Hrelease, Hmode.
  destruct ((graph_y <? 0) || (graph_y >=? get_ysize)); reflexivity.
Qed.

(** X17: while a new guide bar is being dragged in from outside, none is created
    until the mouse is within the rows of the graph.  Then one is created at
    the height under the mouse and the drag becomes the drag of that bar: the
    next motion moves the bar [add_user_guide_bar] returned, and creates
    none. *)
Theorem new_guide_bar_is_created_once (graph_x graph_y next_x next_y : Z)
    (this : Chart) :
  _drag_mode this = DM_new_guide_bar ->
  let leave := on_leave_label (_highlighted_index this) this in
  if (graph_y >=? 0) && (graph_y <? get_ysize)
  then
    exists created,
      handle_motion graph_x graph_y this =
        (true, created,
         [highlight_label (-1); set_average_mode gtk_toggle_button_get_active;
          add_user_guide_bar (pixel_to_height graph_y)]) /\
      _drag_mode created = DM_guide_bar /\
      _drag_guide_bar created = new_user_guide_bar (pixel_to_height graph_y) /\
      handle_motion next_x next_y created =
        (true, on_leave_label (_highlighted_index created) created,
         [highlight_label (-1);
          move_user_guide_bar
            (_drag_guide_bar (on_leave_label (_highlighted_index created) created))
            (pixel_to_height next_y)])
  else
    handle_motion graph_x graph_y this =
      (GtkStatsGraph_handle_motion graph_x graph_y leave, [highlight_label (-1)]).
Proof using GtkStatsGraph_set_drag_mode_stores on_leave_label_keeps_drag_mode.
  intros Hmode leave.
  assert (Hfirst : forall x y c, DragMode_eqb (_drag_mode c) DM_none = false ->
            (if DragMode_eqb (_drag_mode c) DM_none &&
                DragMode_eqb (_potential_drag_mode c) DM_none &&
                (x >=? 0) && (y >=? 0) && (x <? get_xsize) && (y <? get_ysize)
             then (on_enter_label (get_collector_under_pixel x y) c,
                   [highlight_label (double := double) (get_collector_under_pixel x y)])
             else (on_leave_label (_highlighted_index c) c, [highlight_label (-1)])) =
            (on_leave_label (_highlighted_index c) c, [highlight_label (-1)])).
  { intros x y c Hc. rewrite Hc. reflexivity. }
  set (created := with_drag_guide_bar
                    (GtkStatsGraph_set_drag_mode DM_guide_bar leave)
                    (new_user_guide_bar (pixel_to_height graph_y))).
  assert (Hcreated : _drag_mode created = DM_guide_bar)
    by apply GtkStatsGraph_set_drag_mode_stores.
  assert (Hmotion : handle_motion graph_x graph_y this =
            if (graph_y >=? 0) && (graph_y <? get_ysize)
            then (true, created,
                  [highlight_label (-1); set_average_mode gtk_toggle_button_get_active;
                   add_user_guide_bar (pixel_to_height graph_y)])
            else (GtkStatsGraph_handle_motion graph_x graph_y leave,
                  [highlight_label (-1)])).
  { unfold handle_motion. rewrite Hfirst by (rewrite Hmode; reflexivity).
    fold leave. unfold leave at 1. rewrite on_leave_label_keeps_drag_mode, Hmode.
    destruct ((graph_y >=? 0) && (graph_y <? get_ysize)); [|reflexivity].
    unfold set_drag_mode. rewrite GtkStatsGraph_set_drag_mode_stores. reflexivity. }
  rewrite Hmotion.
  destruct ((graph_y >=? 0) && (graph_y <? get_ysize)); [|reflexivity].
  exists created. split; [reflexivity|]. split; [exact Hcreated|].
  split; [reflexivity|].
  unfold handle_motion. rewrite Hfirst by (rewrite Hcreated; reflexivity).
  rewrite on_leave_label_keeps_drag_mode, Hcreated. reflexivity.
Qed.

End StripChart.

(** ** The chart on concrete values *)

(** A chart 100 columns wide and 100 rows high whose vertical scale is 100,
    with heights in exact rationals: the pixel row of a height is its whole
    part counted from the bottom row. *)
Definition chart_height_to_pixel (h : Q) : Z := 100 - Z.quot (Qnum h) (Z.pos (Qden h)).
Definition chart_pixel_to_height (y : Z) : Q := inject_Z (100 - y).
Definition chart_plus (a b : Q) : Q := Qred (a + b).
Definition chart_minus (a b : Q) : Q := Qred (a - b).
Definition chart_div (a b : Q) : Q := Qred (a / b).
Definition chart_gt (a b : Q) : bool := negb (Qle_bool a b).

(** A frame of four bands; the first three come to 120. *)
Definition chart_frame : list (ColorData Q) :=
  [mkColorData 1 (inject_Z 30); mkColorData 2 (inject_Z 50);
   mkColorData 3 (inject_Z 40); mkColorData 4 (inject_Z 5)].

(** Guide bars at 0, 25, 50, 75 and 80, one user guide bar at 60, and labels
    12 pixels high. *)
Definition chart_guide_bar (i : Z) : GuideBar Q :=
  if i =? 0 then mkGuideBar (inject_Z 0) "0" GBS_normal
  else if i =? 1 then mkGuideBar (inject_Z 25) "25" GBS_normal
  else if i =? 2 then mkGuideBar (inject_Z 50) "50" GBS_normal
  else if i =? 3 then mkGuideBar (inject_Z 75) "75" GBS_target
  else mkGuideBar (inject_Z 80) "80" GBS_normal.

Definition chart_user_guide_bar (i : Z) : GuideBar Q :=
  mkGuideBar (inject_Z 60) "60" GBS_user.

Definition chart_make_guide_bar (h : Q) : GuideBar Q := mkGuideBar h "top" GBS_normal.

Definition chart_pixel_size (label : string) : Z * Z := (20, 12).

(** The index of a user guide bar between two heights when the only one is
    at [at_height], and when there is none. *)
Definition chart_find_user_guide_bar (at_height from_height to_height : Q) : Z :=
  if Qle_bool from_height at_height && Qle_bool at_height to_height then 0 else -1.
Definition chart_no_user_guide_bar (from_height to_height : Q) : Z := -1.

(** Two user guide bars two rows apart, the upper one second. *)
Definition chart_near_user_guide_bar (i : Z) : GuideBar Q :=
  if i =? 0 then mkGuideBar (inject_Z 50) "50" GBS_user
  else mkGuideBar (inject_Z 48) "48" GBS_user.

(** A frame whose second band is negative. *)
Definition chart_sinking_frame : list (ColorData Q) :=
  [mkColorData 1 (inject_Z 50); mkColorData 2 (inject_Z (-20))].

(** The collector 5, whose parent is the collector 3, under the collector 0. *)
Definition chart_parent_index (i : Z) : Z := if i =? 5 then 3 else 0.

(** The methods of [GtkStatsGraph]: [set_drag_mode] stores the mode, the
    label hooks keep the highlighted collector, and the handlers do
    nothing. *)
Definition chart_set_drag_mode (m : DragMode) (c : GtkStatsStripChart Q)
  : GtkStatsStripChart Q :=
  mkGtkStatsStripChart m (_potential_drag_mode c) (_drag_guide_bar c) (_drag_start_y c)
    (_drag_scale_start c) (_highlighted_index c).

Definition chart_highlight (i : Z) (c : GtkStatsStripChart Q) : GtkStatsStripChart Q :=
  mkGtkStatsStripChart (_drag_mode c) (_potential_drag_mode c) (_drag_guide_bar c)
    (_drag_start_y c) (_drag_scale_start c) i.

Definition chart_on_enter_label (i : Z) (c : GtkStatsStripChart Q) : GtkStatsStripChart Q :=
  if negb (i =? _highlighted_index c) then chart_highlight i c else c.

Definition chart_on_leave_label (i : Z) (c : GtkStatsStripChart Q) : GtkStatsStripChart Q :=
  if (i =? _highlighted_index c) && negb (i =? -1) then chart_highlight (-1) c else c.

Definition chart_GtkStatsGraph_handler (x y : Z) (c : GtkStatsStripChart Q)
  : bool * GtkStatsStripChart Q := (false, c).

(** A chart at rest, one dragging the user guide bar 0, and one dragging a
    new guide bar in. *)
Definition chart_at_rest : GtkStatsStripChart Q :=
  mkGtkStatsStripChart DM_none DM_none (-1) 0 0%Q 2.
Definition chart_dragging_bar : GtkStatsStripChart Q :=
  mkGtkStatsStripChart DM_guide_bar DM_guide_bar 0 40 0%Q (-1).
Definition chart_dragging_new_bar : GtkStatsStripChart Q :=
  mkGtkStatsStripChart DM_new_guide_bar DM_new_guide_bar (-1) 0 0%Q (-1).

(** The handlers of the chart over these: the collector under every pixel
    is 3, the smooth check box is active, and a new user guide bar gets the
    index 1. *)
Definition chart_handle_button_press :=
  handle_button_press 100 100 chart_pixel_to_height 5 false (fun _ => true)
    chart_parent_index (fun _ _ => 3) true chart_set_drag_mode
    (fun x y _ c => chart_GtkStatsGraph_handler x y c).

Definition chart_handle_motion :=
  handle_motion 0%Q chart_gt 100 100 chart_pixel_to_height 1%Q chart_minus chart_div
    inject_Z (fun _ _ => 3) true (fun _ => 1) chart_set_drag_mode chart_on_enter_label
    chart_on_leave_label chart_GtkStatsGraph_handler.

Definition chart_handle_button_release :=
  handle_button_release 0%Q chart_gt 100 100 chart_pixel_to_height 1%Q chart_minus
    chart_div inject_Z (fun _ _ => 3) true (fun _ => 1) chart_set_drag_mode
    chart_on_enter_label chart_on_leave_label chart_GtkStatsGraph_handler
    chart_GtkStatsGraph_handler.

Lemma chart_set_drag_mode_stores (m : DragMode) (c : GtkStatsStripChart Q) :
  _drag_mode (chart_set_drag_mode m c) = m.
Proof. reflexivity. Qed.

Lemma chart_on_enter_label_keeps_drag_mode (i : Z) (c : GtkStatsStripChart Q) :
  _drag_mode (chart_on_enter_label i c) = _drag_mode c.
Proof. unfold chart_on_enter_label. destruct (negb _); reflexivity. Qed.

Lemma chart_on_leave_label_keeps_drag_mode (i : Z) (c : GtkStatsStripChart Q) :
  _drag_mode (chart_on_leave_label i c) = _drag_mode c.
Proof. unfold chart_on_leave_label. destruct (_ && _); reflexivity. Qed.

Lemma set_time_units_mask_witness :
  Z.land 8 (Z.lor 1 2) = 0 /\
  Z.land 10 (Z.lor 1 2) <> 0 /\
  exists m,
    set_time_units (double := Q) 1 2 8 10 1 =
      [set_guide_bar_units m; gtk_widget_queue_draw _scale_area] /\
    Z.land m (Z.lor 1 2) = Z.land 1 (Z.lor 1 2) /\
    Z.land m 8 = Z.land 10 8 /\
    Z.land m (Z.lnot (Z.lor (Z.lor 1 2) 8)) = 0.
Proof.
  split; [reflexivity|].
  destruct (set_time_units_mask (double := Q) 1 2 8 10 1 eq_refl) as [[H _]|H];
    [discriminate H | exact H].
Defined.

Example set_time_units_computed :
  set_time_units (double := Q) 1 2 8 10 1 =
    [set_guide_bar_units 9; gtk_widget_queue_draw _scale_area] /\
  set_time_units (double := Q) 1 2 8 12 1 = [].
Proof. split; reflexivity. Qed.

Lemma set_time_units_ignores_level_chart_witness :
  Z.land 4 (Z.lor 1 2) = 0 /\
  Z.land 8 (Z.lor 1 2) = 0 /\
  set_time_units (double := Q) 1 2 8 (constructor_guide_bar_units 4 8 true false 2) 1 = [].
Proof.
  split; [reflexivity|]. split; [reflexivity|].
  exact (set_time_units_ignores_level_chart (double := Q) 1 2 4 8 false 2 1
           eq_refl eq_refl).
Defined.

Lemma on_click_label_target_witness :
  (-1 < 0 /\
   on_click_label (double := Q) 5 true (fun _ => true) chart_parent_index (-1) =
   on_click_label 5 true (fun _ => true) chart_parent_index 5) /\
  (0 <= 7 /\ 7 <> 5 /\
   on_click_label (double := Q) 5 true (fun _ => true) chart_parent_index 7 =
     [set_collector_index 7]) /\
  (3 <> 0 /\
   ~ In (set_collector_index 0)
        (on_click_label (double := Q) 3 true (fun _ => true) chart_parent_index (-1))).
Proof.
  split; [|split].
  - split; [reflexivity|].
    apply (on_click_label_target (double := Q) 5 true (fun _ => true)
             chart_parent_index (-1)); reflexivity.
  - split; [discriminate|]. split; [discriminate|].
    apply (on_click_label_target (double := Q) 5 true (fun _ => true)
             chart_parent_index 7); discriminate.
  - split; [discriminate|].
    apply (on_click_label_target (double := Q) 3 true (fun _ => true)
             chart_parent_index (-1));
      [reflexivity | discriminate | left; reflexivity].
Defined.

Example on_click_label_computed :
  on_click_label (double := Q) 5 true (fun _ => true) chart_parent_index 5 =
    [set_collector_index 3] /\
  on_click_label (double := Q) 3 true (fun _ => true) chart_parent_index 3 = [] /\
  on_click_label (double := Q) 3 false (fun _ => true) chart_parent_index 3 =
    [set_collector_index 0].
Proof. repeat split; reflexivity. Qed.

Example draw_slice_computed :
  draw_slice 0%Q chart_plus chart_gt 100 (inject_Z 100) chart_height_to_pixel
    chart_at_rest 7 1 chart_frame =
  [cairo_set_source_rgb rgb_white; cairo_rectangle 7 0 1 100; cairo_fill;
   cairo_set_source_collector 1 false; cairo_rectangle 7 70 1 30; cairo_fill;
   cairo_set_source_collector 2 true; cairo_rectangle 7 20 1 50; cairo_fill;
   cairo_set_source_collector 3 false; cairo_rectangle 7 0 1 20; cairo_fill].
Proof. vm_compute. reflexivity. Qed.

(** The pixel row of a height does not go down the screen as the height
    grows. *)
Lemma chart_height_to_pixel_antitone (a b : Q) :
  (a <= b)%Q -> chart_height_to_pixel b <= chart_height_to_pixel a.
Proof.
  unfold chart_height_to_pixel, Qle. intros H.
  assert (Hq : Z.quot (Qnum a) (Z.pos (Qden a)) <= Z.quot (Qnum b) (Z.pos (Qden b))).
  { rewrite <- (Z.quot_mul_cancel_r (Qnum a) (Z.pos (Qden a)) (Z.pos (Qden b))) by lia.
    rewrite <- (Z.quot_mul_cancel_r (Qnum b) (Z.pos (Qden b)) (Z.pos (Qden a))) by lia.
    rewrite (Z.mul_comm (Z.pos (Qden b)) (Z.pos (Qden a))).
    apply Z.quot_le_mono; lia. }
  lia.
Qed.

Lemma chart_frame_rises (total : Q) (cd : ColorData Q) :
  In cd chart_frame ->
  chart_height_to_pixel (chart_plus total (_net_value cd)) <= chart_height_to_pixel total.
Proof.
  intros Hin. apply chart_height_to_pixel_antitone.
  unfold chart_plus. rewrite Qred_correct.
  rewrite <- (Qplus_0_r total) at 1.
  apply Qplus_le_compat; [apply Qle_refl|].
  destruct Hin as [<-|[<-|[<-|[<-|[]]]]]; discriminate.
Qed.

Lemma chart_height_within_scale (total : Q) :
  chart_gt total (inject_Z 100) = false -> 0 <= chart_height_to_pixel total.
Proof.
  unfold chart_gt. intros H. apply negb_false_iff, Qle_bool_iff in H.
  apply chart_height_to_pixel_antitone in H. exact H.
Qed.


(** A negative band takes the running total down: its rectangle has a
    negative height and lies over the band below it. *)
Example draw_slice_of_negative_band :
  rectangles
    (draw_slice 0%Q chart_plus chart_gt 100 (inject_Z 100) chart_height_to_pixel
       chart_at_rest 7 1 chart_sinking_frame) =
    [(7, 0, 1, 100); (7, 50, 1, 50); (7, 70, 1, -20)] /\
  stacked 7 1 100 [(7, 50, 1, 50); (7, 70, 1, -20)] = false.
Proof. vm_compute. split; reflexivity. Qed.

Lemma guide_bar_lines_witness :
  INT_MIN <= 25 - 10 <= INT_MAX /\
  exists calls,
    end_draw 100 chart_height_to_pixel 5 chart_guide_bar 10 25 =
    calls ++ [gdk_window_invalidate_rect 10 0 15 100].
Proof.
  assert (Hr : INT_MIN <= 25 - 10 <= INT_MAX) by (split; discriminate).
  split; [exact Hr|].
  destruct (guide_bar_lines 100 100 chart_height_to_pixel 5 1 chart_guide_bar
              chart_user_guide_bar 10 25) as (_ & _ & _ & _ & H & _).
  exact (H Hr).
Defined.

(** The width is taken in [int]: from the least column to the greatest it
    comes to -1. *)
Example end_draw_of_all_columns :
  List.last (end_draw 100 chart_height_to_pixel 0 chart_guide_bar INT_MIN INT_MAX)
    cairo_fill =
  gdk_window_invalidate_rect INT_MIN 0 (-1) 100.
Proof. vm_compute. reflexivity. Qed.

Example draw_guide_labels_computed :
  labels_shown
    (draw_guide_labels 100 (inject_Z 100) chart_height_to_pixel chart_pixel_to_height
       chart_no_user_guide_bar chart_make_guide_bar 5 1 chart_guide_bar
       chart_user_guide_bar chart_pixel_size (fun y => y)) =
  [(69, "25"); (44, "50"); (19, "75"); (-6, "top"); (34, "60")] /\
  labels_shown
    (draw_guide_labels 100 (inject_Z 100) chart_height_to_pixel chart_pixel_to_height
       (chart_find_user_guide_bar (inject_Z 60)) chart_make_guide_bar 5 1 chart_guide_bar
       chart_user_guide_bar chart_pixel_size (fun y => y)) =
  [(69, "25"); (19, "75"); (-6, "top"); (34, "60")].
Proof. vm_compute. split; reflexivity. Qed.

Lemma draw_guide_labels_apart_witness :
  Forall (label_fits chart_height_to_pixel chart_pixel_size (fun y => y))
    (map chart_guide_bar (counting 5) ++ [chart_make_guide_bar (inject_Z 100)]) /\
  rising (map (label_top chart_height_to_pixel chart_pixel_size (fun y => y))
            (map chart_guide_bar (counting 5) ++ [chart_make_guide_bar (inject_Z 100)])) /\
  Forall (label_fits chart_height_to_pixel chart_pixel_size (fun y => y))
    (map chart_user_guide_bar (counting 1)) /\
  rising (map (label_top chart_height_to_pixel chart_pixel_size (fun y => y))
            (map chart_user_guide_bar (counting 1))) /\
  exists shown top user,
    labels_shown
      (draw_guide_labels 100 (inject_Z 100) chart_height_to_pixel chart_pixel_to_height
         chart_no_user_guide_bar chart_make_guide_bar 5 1 chart_guide_bar
         chart_user_guide_bar chart_pixel_size (fun y => y)) = shown ++ top ++ user /\
    apart chart_pixel_size (shown ++ top) /\
    apart chart_pixel_size user.
Proof.
  assert (F1 : Forall (label_fits chart_height_to_pixel chart_pixel_size (fun y => y))
                 (map chart_guide_bar (counting 5)
                  ++ [chart_make_guide_bar (inject_Z 100)])).
  { repeat constructor; discriminate. }
  assert (R1 : rising (map (label_top chart_height_to_pixel chart_pixel_size (fun y => y))
                         (map chart_guide_bar (counting 5)
                          ++ [chart_make_guide_bar (inject_Z 100)]))).
  { vm_compute. repeat split; discriminate. }
  assert (F2 : Forall (label_fits chart_height_to_pixel chart_pixel_size (fun y => y))
                 (map chart_user_guide_bar (counting 1))).
  { repeat constructor; discriminate. }
  assert (R2 : rising (map (label_top chart_height_to_pixel chart_pixel_size (fun y => y))
                         (map chart_user_guide_bar (counting 1)))).
  { exact I. }
  split; [exact F1|]. split; [exact R1|]. split; [exact F2|]. split; [exact R2|].
  destruct (draw_guide_labels_apart 100 (inject_Z 100) chart_height_to_pixel
              chart_pixel_to_height chart_no_user_guide_bar chart_make_guide_bar 5 1
              chart_guide_bar chart_user_guide_bar chart_pixel_size (fun y => y))
    as (shown & top & user & H1 & _ & _ & _ & _ & H6 & H7).
  exists shown, top, user.
  split; [exact H1|]. split; [exact (H6 F1 R1) | exact (H7 F2 R2)].
Defined.

(** User guide bars whose rows go down the screen: the label of the second,
    two rows below the first, is drawn over it. *)
Example draw_guide_labels_of_near_user_guide_bars :
  labels_shown
    (draw_guide_labels 100 (inject_Z 100) chart_height_to_pixel chart_pixel_to_height
       chart_no_user_guide_bar chart_make_guide_bar 0 2 chart_guide_bar
       chart_near_user_guide_bar chart_pixel_size (fun y => y)) =
  [(-6, "top"); (44, "50"); (46, "48")] /\
  44 <= 46 <= 44 + snd (chart_pixel_size "50").
Proof. vm_compute. repeat split; discriminate. Qed.

Lemma click_leaves_vertical_scale_witness :
  (forall m c, _drag_mode (chart_set_drag_mode m c) = m) /\
  (forall i c, _drag_mode (chart_on_enter_label i c) = _drag_mode c) /\
  (forall i c, _drag_mode (chart_on_leave_label i c) = _drag_mode c) /\
  (40 >=? 0) && (30 >=? 0) && (40 <? 100) && (30 <? 100) = true /\
  _potential_drag_mode chart_at_rest = DM_none /\
  exists pressed released collector_index,
    chart_handle_button_press 40 30 false chart_at_rest =
      (true, pressed, [set_average_mode false]) /\
    _drag_mode pressed = DM_scale /\
    _drag_scale_start pressed = chart_pixel_to_height 30 /\
    chart_handle_button_release 41 32 pressed =
      (chart_GtkStatsGraph_handler 41 32 released,
       [set_average_mode true; highlight_label collector_index]).
Proof.
  split; [exact chart_set_drag_mode_stores|].
  split; [exact chart_on_enter_label_keeps_drag_mode|].
  split; [exact chart_on_leave_label_keeps_drag_mode|].
  split; [reflexivity|]. split; [reflexivity|].
  exact (click_leaves_vertical_scale 0%Q chart_gt 100 100 chart_pixel_to_height 5 false
           (fun _ => true) chart_parent_index 1%Q chart_minus chart_div inject_Z
           (fun _ _ => 3) true (fun _ => 1) chart_set_drag_mode chart_on_enter_label
           chart_on_leave_label (fun x y _ c => chart_GtkStatsGraph_handler x y c)
           chart_GtkStatsGraph_handler chart_GtkStatsGraph_handler
           chart_set_drag_mode_stores chart_on_enter_label_keeps_drag_mode
           chart_on_leave_label_keeps_drag_mode 40 30 41 32 chart_at_rest
           eq_refl eq_refl).
Defined.

Example drag_sets_vertical_scale :
  let pressed := snd (fst (chart_handle_button_press 40 50 false chart_at_rest)) in
  snd (chart_handle_motion 40 75 pressed) =
    [highlight_label (-1); PStatStripChart_set_vertical_scale (200 # 1)%Q;
     gtk_widget_queue_draw _graph_window; gtk_widget_queue_draw _scale_area] /\
  snd (chart_handle_motion 40 100 pressed) = [highlight_label (-1)].
Proof. vm_compute. split; reflexivity. Qed.

Lemma released_guide_bar_is_settled_once_witness :
  (forall m c, _drag_mode (chart_set_drag_mode m c) = m) /\
  (forall i c, _drag_mode (chart_on_enter_label i c) = _drag_mode c) /\
  (forall i c, _drag_mode (chart_on_leave_label i c) = _drag_mode c) /\
  _drag_mode chart_dragging_bar = DM_guide_bar /\
  (exists this1 collector_index,
     chart_handle_button_release 40 (-3) chart_dragging_bar =
       (chart_GtkStatsGraph_handler 40 (-3) this1,
        [remove_user_guide_bar 0; set_average_mode true;
         highlight_label collector_index])) /\
  (exists this1 collector_index,
     chart_handle_button_release 40 20 chart_dragging_bar =
       (chart_GtkStatsGraph_handler 40 20 this1,
        [move_user_guide_bar 0 (chart_pixel_to_height 20); set_average_mode true;
         highlight_label collector_index])).
Proof.
  split; [exact chart_set_drag_mode_stores|].
  split; [exact chart_on_enter_label_keeps_drag_mode|].
  split; [exact chart_on_leave_label_keeps_drag_mode|].
  split; [reflexivity|].
  split.
  - exact (released_guide_bar_is_settled_once 0%Q chart_gt 100 100
             chart_pixel_to_height 1%Q chart_minus chart_div inject_Z (fun _ _ => 3)
             true (fun _ => 1) chart_set_drag_mode chart_on_enter_label
             chart_on_leave_label chart_GtkStatsGraph_handler
             chart_GtkStatsGraph_handler chart_set_drag_mode_stores
             chart_on_enter_label_keeps_drag_mode chart_on_leave_label_keeps_drag_mode
             40 (-3) chart_dragging_bar eq_refl).
  - exact (released_guide_bar_is_settled_once 0%Q chart_gt 100 100
             chart_pixel_to_height 1%Q chart_minus chart_div inject_Z (fun _ _ => 3)
             true (fun _ => 1) chart_set_drag_mode chart_on_enter_label
             chart_on_leave_label chart_GtkStatsGraph_handler
             chart_GtkStatsGraph_handler chart_set_drag_mode_stores
             chart_on_enter_label_keeps_drag_mode chart_on_leave_label_keeps_drag_mode
             40 20 chart_dragging_bar eq_refl).
Defined.

Lemma new_guide_bar_is_created_once_witness :
  (forall m c, _drag_mode (chart_set_drag_mode m c) = m) /\
  (forall i c, _drag_mode (chart_on_leave_label i c) = _drag_mode c) /\
  _drag_mode chart_dragging_new_bar = DM_new_guide_bar /\
  chart_handle_motion 40 (-5) chart_dragging_new_bar =
    (chart_GtkStatsGraph_handler 40 (-5) chart_dragging_new_bar,
     [highlight_label (-1)]) /\
  exists created,
    chart_handle_motion 40 10 chart_dragging_new_bar =
      (true, created,
       [highlight_label (-1); set_average_mode true;
        add_user_guide_bar (chart_pixel_to_height 10)]) /\
    _drag_mode created = DM_guide_bar /\
    _drag_guide_bar created = 1 /\
    chart_handle_motion 40 12 created =
      (true, chart_on_leave_label (_highlighted_index created) created,
       [highlight_label (-1);
        move_user_guide_bar
          (_drag_guide_bar (chart_on_leave_label (_highlighted_index created) created))
          (chart_pixel_to_height 12)]).
Proof.
  split; [exact chart_set_drag_mode_stores|].
  split; [exact chart_on_leave_label_keeps_drag_mode|].
  split; [reflexivity|].
  split.
  - exact (new_guide_bar_is_created_once 0%Q chart_gt 100 100 chart_pixel_to_height
             1%Q chart_minus chart_div inject_Z (fun _ _ => 3) true (fun _ => 1)
             chart_set_drag_mode chart_on_enter_label chart_on_leave_label
             chart_GtkStatsGraph_handler chart_set_drag_mode_stores
             chart_on_leave_label_keeps_drag_mode 40 (-5) 40 12
             chart_dragging_new_bar eq_refl).
  - exact (new_guide_bar_is_created_once 0%Q chart_gt 100 100 chart_pixel_to_height
             1%Q chart_minus chart_div inject_Z (fun _ _ => 3) true (fun _ => 1)
             chart_set_drag_mode chart_on_enter_label chart_on_leave_label
             chart_GtkStatsGraph_handler chart_set_drag_mode_stores
             chart_on_leave_label_keeps_drag_mode 40 10 40 12
             chart_dragging_new_bar eq_refl).
Defined.

Example new_guide_bar_computed :
  let created := snd (fst (chart_handle_motion 40 10 chart_dragging_new_bar)) in
  snd (chart_handle_motion 40 12 created) =
    [highlight_label (-1); move_user_guide_bar 1 (88 # 1)%Q].
Proof. vm_compute. reflexivity. Qed.
